(** * fetch-recipe: the recipe lookup edge function

    A shallow embedding of [supabase/functions/fetch-recipe/index.ts]:
    the request handler, the three upstream adapters
    ([fetchFromSpoonacular], [fetchFromEdamam], [fetchFromTheMealDB]) and
    [storeRecipe], together with the two tables of the migration
    ([recipe_cache], [recipes]) they read and write.

    Conventions of the model.
    - JavaScript values that come out of [JSON.parse] are the inductive
      [value]; a finite number is kept by its exact rational value.
    - A string is a sequence of UTF-16 code units below 256 (the Latin-1
      range), one [ascii] per code unit. On these strings [trim], the
      class [\s], [toLowerCase], [includes] and [split] are JavaScript's:
      the white space below 256 is U+0009 to U+000D, U+0020 and U+00A0, and
      the letters that change in lower case are A to Z and U+00C0 to
      U+00DE without U+00D7. Strings with a code unit of 256 or more are
      outside the model.
    - A computation of the handler is a function from the [World] (the two
      tables and the trace of effects performed so far) to a result and a
      new world; an exception leaves the world as it was when it was
      thrown, exactly as in JavaScript.
    - What the runtime supplies (environment variables, the replies of the
      upstream services, the clock, the behaviour of the [recipes] write)
      is the record [Runtime].
    - A request is the parsed JSON body, with [dishName] and [apiSource]
      strings when present; the database client is taken as configured.
      The text of the upstream URLs is not built: a call is identified by
      the service and the strings interpolated into its URL
      ([encodeURIComponent] throws only on a lone surrogate, which no string
      of the model has).
    - The tables are the migration's: each has a generated primary key and
      a [UNIQUE] constraint, and the code's [upsert] names no conflict
      target. The database is taken as reachable. *)

From Stdlib Require Import ZArith QArith String Ascii List Lia DecimalString.
From stdpp Require Import gmap strings.

Close Scope Q_scope.
Open Scope string_scope.
Set Warnings "-register-all".
Open Scope Z_scope.

(** ** JavaScript values *)

Inductive value : Type :=
| VUndefined
| VNull
| VBool (b : bool)
| VNum (q : Q)
| VStr (s : string)
| VArr (items : list value)
| VObj (fields : list (string * value)).

(** Thrown exceptions; only the message is ever observed ([error.message]). *)
Inductive exn : Type :=
| Error (msg : string)
| TypeError (msg : string)
| SyntaxError (msg : string).

Definition message (e : exn) : string :=
  match e with Error m | TypeError m | SyntaxError m => m end.

Inductive result (A : Type) : Type :=
| Ok (a : A)
| Throw (e : exn).
Arguments Ok {A} a.
Arguments Throw {A} e.

Module Js.

(** ToBoolean. *)
Definition truthy (v : value) : bool :=
  match v with
  | VUndefined | VNull => false
  | VBool b => b
  | VNum q => negb (Qeq_bool q 0)
  | VStr s => negb (String.eqb s "")
  | VArr _ | VObj _ => true
  end.

Definition nullish (v : value) : bool :=
  match v with VUndefined | VNull => true | _ => false end.

(** [a || b] *)
Definition or (a b : value) : value := if truthy a then a else b.

Definition typeName (v : value) : string :=
  match v with VNull => "null" | _ => "undefined" end.

Fixpoint assoc (k : string) (fs : list (string * value)) : value :=
  match fs with
  | [] => VUndefined
  | (k', v) :: fs' => if String.eqb k k' then v else assoc k fs'
  end.

Definition natNum (n : nat) : value := VNum (inject_Z (Z.of_nat n)).

(** [v.k] and [v[k]] for a property name [k] that is not an array index:
    a [TypeError] on [undefined] and [null], the own property of an
    object, [length] of an array or a string, [undefined] otherwise. *)
Definition getProp (v : value) (k : string) : result value :=
  match v with
  | VUndefined | VNull =>
      Throw (TypeError ("Cannot read properties of " ++ typeName v
                          ++ " (reading '" ++ k ++ "')"))
  | VObj fs => Ok (assoc k fs)
  | VArr l => Ok (if String.eqb k "length" then natNum (List.length l) else VUndefined)
  | VStr s => Ok (if String.eqb k "length" then natNum (String.length s) else VUndefined)
  | VBool _ | VNum _ => Ok VUndefined
  end.

(** [v[0]] *)
Definition getFirst (v : value) : result value :=
  match v with
  | VUndefined | VNull =>
      Throw (TypeError ("Cannot read properties of " ++ typeName v
                          ++ " (reading '0')"))
  | VObj fs => Ok (assoc "0" fs)
  | VArr l => Ok (match l with x :: _ => x | [] => VUndefined end)
  | VStr s => Ok (match s with String c _ => VStr (String c "") | "" => VUndefined end)
  | VBool _ | VNum _ => Ok VUndefined
  end.

(** [v === 0] *)
Definition isZero (v : value) : bool :=
  match v with VNum q => Qeq_bool q 0 | _ => false end.

(** White space and line terminators, as [trim] and [\s] take them:
    U+0009 to U+000D, U+0020 and U+00A0 (U+0085 is not among them). *)
Definition isWhite (c : ascii) : bool :=
  let n := nat_of_ascii c in
  ((9 <=? n) && (n <=? 13) || (n =? 32) || (n =? 160))%nat.

Fixpoint trimStart (s : string) : string :=
  match s with
  | "" => ""
  | String c s' => if isWhite c then trimStart s' else s
  end.

Fixpoint trimEnd (s : string) : string :=
  match s with
  | "" => ""
  | String c s' =>
      match trimEnd s' with
      | "" => if isWhite c then "" else String c ""
      | t => String c t
      end
  end.

Definition trim (s : string) : string := trimEnd (trimStart s).

(** The lower case of a code unit: A to Z and U+00C0 to U+00DE (without
    the multiplication sign U+00D7) move up by 32; U+00B5, U+00DF and
    U+00FF are small letters already. *)
Definition lowerChar (c : ascii) : ascii :=
  let n := nat_of_ascii c in
  if ((65 <=? n) && (n <=? 90) ||
      (192 <=? n) && (n <=? 222) && negb (n =? 215))%nat
  then ascii_of_nat (n + 32) else c.

Fixpoint toLowerCase (s : string) : string :=
  match s with
  | "" => ""
  | String c s' => String (lowerChar c) (toLowerCase s')
  end.

(** [s.split(sep)] for a one-character separator. *)
Fixpoint split (sep : ascii) (s : string) : list string :=
  match s with
  | "" => [""]
  | String c s' =>
      match split sep s' with
      | [] => [""]
      | p :: ps => if Ascii.eqb c sep then "" :: p :: ps else String c p :: ps
      end
  end.

(** The decimal numeral of [i], as the template [`${i}`] prints a small
    non-negative integer. *)
Definition showNat (i : nat) : string := NilZero.string_of_uint (Nat.to_uint i).

End Js.

(** ** The normalized recipe, as the adapters build it *)

Record Ingredient : Type := mkIngredient {
  ing_name : value;
  ing_amount : value;
  ing_unit : value;
  ing_originalString : value
}.

Record Step : Type := mkStep {
  step_number : value;
  step_step : value
}.

Record Recipe : Type := mkRecipe {
  r_id : value;
  r_title : value;
  r_image : value;
  r_readyInMinutes : value;
  r_servings : value;
  r_ingredients : list Ingredient;
  r_instructions : list Step;
  r_nutrition : value
}.

(** ** The two tables

    [recipe_cache] has [UNIQUE(search_query, api_source)] and [recipes] has
    [UNIQUE(external_id, api_source)]: each is a finite map on that pair.
    The primary key of both is a generated [id], which the rows the code
    sends do not carry, and its [upsert] names no [onConflict] column: the
    statement resolves conflicts on [id] only, so it is an insert, and a row
    whose pair is taken is refused by the [UNIQUE] constraint. The client
    returns that error in its result, which the code does not look at. A
    write to [recipes] may also be refused for another reason or throw,
    which is what [storeRecipe] guards against. *)

Record CacheRow : Type := mkCacheRow {
  response_data : Recipe;
  expires_at : Z
}.

Record RecipeRow : Type := mkRecipeRow {
  external_id : string;
  api_source : string;
  title : value;
  image_url : value;
  ready_in_minutes : value;
  servings : value;
  ingredients : list Ingredient;
  instructions : list Step;
  nutrition : value
}.

(** ** Effects *)

Inductive UpstreamCall : Type :=
| SpoonacularSearch (apiKey query : string)
| SpoonacularInformation (recipeId : string) (apiKey : string)
| EdamamSearch (query appId appKey : string)
| TheMealDBSearch (query : string).

Inductive Event : Type :=
| EvCacheSelect (search_query source : string) (now : Z)
| EvFetch (call : UpstreamCall)
| EvCacheUpsert (search_query source : string) (row : CacheRow)
| EvRecipesUpsert (row : RecipeRow).

Record World : Type := mkWorld {
  recipe_cache : gmap (string * string) CacheRow;
  recipes : gmap (string * string) RecipeRow;
  trace : list Event
}.

(** What a write to [recipes] does: the database takes the row (it is
    stored when its unique pair is free), the database refuses it for
    another reason (the client returns an error object, nothing is thrown),
    or the client throws. *)
Inductive WriteOutcome : Type :=
| Written
| Rejected
| Raised (e : exn).

Record Runtime : Type := mkRuntime {
  (** [Deno.env.get] *)
  env : string -> option string;
  (** [fetch(url)] followed by [response.json()] *)
  fetchJson : UpstreamCall -> result value;
  (** [new Date()] at the cache lookup and at the cache write, in
      milliseconds since the epoch *)
  nowAtLookup : Z;
  nowAtStore : Z;
  recipesUpsert : RecipeRow -> WriteOutcome;
  (** [Number.prototype.toString] *)
  numberToString : Q -> string
}.

Definition M (A : Type) : Type := World -> result A * World.

Definition ret {A} (a : A) : M A := fun w => (Ok a, w).
Definition throw {A} (e : exn) : M A := fun w => (Throw e, w).
Definition bind {A B} (m : M A) (k : A -> M B) : M B :=
  fun w => match m w with
           | (Ok a, w') => k a w'
           | (Throw e, w') => (Throw e, w')
           end.
Definition lift {A} (r : result A) : M A := fun w => (r, w).

(** [try { m } catch (error) { h error }] *)
Definition tryCatch {A} (m : M A) (h : exn -> M A) : M A :=
  fun w => match m w with
           | (Ok a, w') => (Ok a, w')
           | (Throw e, w') => h e w'
           end.

Definition emit (e : Event) (w : World) : World :=
  mkWorld (recipe_cache w) (recipes w) (trace w ++ [e]).

Notation "'let!' x ':=' m 'in' k" := (bind m (fun x => k))
  (at level 10, x name, m at level 100, k at level 200).
Notation "'do!' m 'in' k" := (bind m (fun _ => k))
  (at level 10, m at level 100, k at level 200).

(** The same for computations without effects. *)
Definition bindR {A B} (r : result A) (k : A -> result B) : result B :=
  match r with Ok a => k a | Throw e => Throw e end.
Notation "'let?' x ':=' r 'in' k" := (bindR r (fun x => k))
  (at level 10, x name, r at level 100, k at level 200).

Fixpoint mapR {A B} (f : A -> result B) (l : list A) : result (list B) :=
  match l with
  | [] => Ok []
  | x :: l' => let? y := f x in let? ys := mapR f l' in Ok (y :: ys)
  end.

Definition hasOwn (k : string) (fs : list (string * value)) : bool :=
  existsb (fun kv => String.eqb k (fst kv)) fs.

(** The string a value converts to (ToString): an array gives its
    elements joined by commas, an object of [JSON.parse] "[object Object]"
    unless it has a [toString] of its own, which is not a function. *)
Fixpoint toText (num : Q -> string) (v : value) : result string :=
  match v with
  | VUndefined => Ok "undefined"
  | VNull => Ok "null"
  | VBool b => Ok (if b then "true" else "false")
  | VNum q => Ok (num q)
  | VStr s => Ok s
  | VArr l =>
      (fix join (l : list value) : result string :=
         match l with
         | [] => Ok ""
         | x :: l' =>
             let? a := (if Js.nullish x then Ok "" else toText num x) in
             match l' with
             | [] => Ok a
             | _ => let? b := join l' in Ok (a ++ "," ++ b)
             end
         end) l
  | VObj fs =>
      if hasOwn "toString" fs
      then Throw (TypeError "Cannot convert object to primitive value")
      else Ok "[object Object]"
  end.

(** [`${v}`] in a template. *)
Definition interpolate (num : Q -> string) (v : value) : result string := toText num v.

(** [v?.map(f) || []]; [what] is the text of the receiver. *)
Definition optMap {B} (what : string) (v : value) (f : value -> result B)
  : result (list B) :=
  match v with
  | VUndefined | VNull => Ok []
  | VArr l => mapR f l
  | _ => Throw (TypeError (what ++ "?.map is not a function"))
  end.

Definition fetch (rt : Runtime) (c : UpstreamCall) : M value :=
  fun w => (fetchJson rt c, emit (EvFetch c) w).

(** [!x] for the result of [Deno.env.get]. *)
Definition configured (x : option string) : option string :=
  match x with
  | Some "" | None => None
  | Some k => Some k
  end.

(** [!list || list.length === 0] *)
Definition noResults (list : value) : result bool :=
  if Js.truthy list
  then let? len := Js.getProp list "length" in Ok (Js.isZero len)
  else Ok true.

(** ** The upstream adapters *)

Definition spoonacularIngredient (ing : value) : result Ingredient :=
  let? name := Js.getProp ing "name" in
  let? amount := Js.getProp ing "amount" in
  let? unit := Js.getProp ing "unit" in
  let? original := Js.getProp ing "original" in
  Ok (mkIngredient name amount unit original).

Definition spoonacularStep (step : value) : result Step :=
  let? number := Js.getProp step "number" in
  let? text := Js.getProp step "step" in
  Ok (mkStep number text).

(** [detailData.analyzedInstructions?.[0]?.steps?.map(...) || []] *)
Definition spoonacularInstructions (detailData : value) : result (list Step) :=
  let? analyzed := Js.getProp detailData "analyzedInstructions" in
  if Js.nullish analyzed then Ok [] else
  let? first := Js.getFirst analyzed in
  if Js.nullish first then Ok [] else
  let? steps := Js.getProp first "steps" in
  optMap "detailData.analyzedInstructions?.[0]?.steps" steps spoonacularStep.

Definition spoonacularRecipe (detailData : value) : result Recipe :=
  let? id := Js.getProp detailData "id" in
  let? title := Js.getProp detailData "title" in
  let? image := Js.getProp detailData "image" in
  let? readyInMinutes := Js.getProp detailData "readyInMinutes" in
  let? servings := Js.getProp detailData "servings" in
  let? extended := Js.getProp detailData "extendedIngredients" in
  let? ingredients := optMap "detailData.extendedIngredients" extended spoonacularIngredient in
  let? instructions := spoonacularInstructions detailData in
  let? nutrition := Js.getProp detailData "nutrition" in
  Ok (mkRecipe id title image readyInMinutes servings ingredients instructions
        (Js.or nutrition VNull)).

Definition fetchFromSpoonacular (rt : Runtime) (dishName : string) : M Recipe :=
  match configured (env rt "SPOONACULAR_API_KEY") with
  | None => throw (Error "Spoonacular API key not configured")
  | Some apiKey =>
      let! searchData := fetch rt (SpoonacularSearch apiKey dishName) in
      let! results := lift (Js.getProp searchData "results") in
      let! none := lift (noResults results) in
      if none : bool then throw (Error "No recipes found") else
      let! recipe := lift (Js.getFirst results) in
      let! id := lift (Js.getProp recipe "id") in
      let! recipeId := lift (interpolate (numberToString rt) id) in
      let! detailData := fetch rt (SpoonacularInformation recipeId apiKey) in
      lift (spoonacularRecipe detailData)
  end.

(** [recipe.uri.split('_')[1]] *)
Definition edamamId (uri : value) : result value :=
  match uri with
  | VStr s => Ok (match Js.split "_" s with _ :: p :: _ => VStr p | _ => VUndefined end)
  | VUndefined | VNull =>
      Throw (TypeError ("Cannot read properties of " ++ Js.typeName uri
                          ++ " (reading 'split')"))
  | _ => Throw (TypeError "recipe.uri.split is not a function")
  end.

Definition edamamIngredient (ing : value) : result Ingredient :=
  let? food := Js.getProp ing "food" in
  let? quantity := Js.getProp ing "quantity" in
  let? measure := Js.getProp ing "measure" in
  let? text := Js.getProp ing "text" in
  Ok (mkIngredient food (Js.or quantity (VNum 1)) measure text).

Definition edamamRecipe (recipe : value) : result Recipe :=
  let? uri := Js.getProp recipe "uri" in
  let? id := edamamId uri in
  let? label := Js.getProp recipe "label" in
  let? image := Js.getProp recipe "image" in
  let? yield := Js.getProp recipe "yield" in
  let? ings := Js.getProp recipe "ingredients" in
  let? ingredients := optMap "recipe.ingredients" ings edamamIngredient in
  let? totalNutrients := Js.getProp recipe "totalNutrients" in
  Ok (mkRecipe id label image VNull yield ingredients []
        (Js.or totalNutrients VNull)).

Definition fetchFromEdamam (rt : Runtime) (dishName : string) : M Recipe :=
  match configured (env rt "EDAMAM_APP_ID"), configured (env rt "EDAMAM_APP_KEY") with
  | Some appId, Some appKey =>
      let! data := fetch rt (EdamamSearch dishName appId appKey) in
      let! hits := lift (Js.getProp data "hits") in
      let! none := lift (noResults hits) in
      if none : bool then throw (Error "No recipes found") else
      let! hit := lift (Js.getFirst hits) in
      let! recipe := lift (Js.getProp hit "recipe") in
      lift (edamamRecipe recipe)
  | _, _ => throw (Error "Edamam API credentials not configured")
  end.

(** The receiver of [v.trim()]: only a string has the method. *)
Definition trimReceiver (what : string) (v : value) : result string :=
  match v with
  | VStr s => Ok s
  | VUndefined | VNull =>
      Throw (TypeError ("Cannot read properties of " ++ Js.typeName v
                          ++ " (reading 'trim')"))
  | _ => Throw (TypeError (what ++ ".trim is not a function"))
  end.

(** The body of the loop of [fetchFromTheMealDB] for one index: the
    ingredient it pushes, if any. *)
Definition mealIngredient (ingredient measure : value) : result (option Ingredient) :=
  if negb (Js.truthy ingredient) then Ok None else
  let? ing := trimReceiver "ingredient" ingredient in
  if String.eqb (Js.trim ing) "" then Ok None else
  let? meas := (if Js.truthy measure then trimReceiver "measure" measure else Ok "") in
  Ok (Some (mkIngredient
              (VStr (Js.trim ing))
              (VStr (Js.trim meas))
              (VStr "")
              (VStr (Js.trim (meas ++ " " ++ ing))))).

(** [for (let i = 1; i <= 20; i++)], entered at index [i] with [n] rounds
    left. *)
Fixpoint ingredientLoop (meal : value) (n i : nat) (ingredients : list Ingredient)
  : result (list Ingredient) :=
  match n with
  | O => Ok ingredients
  | S n' =>
      let? ingredient := Js.getProp meal ("strIngredient" ++ Js.showNat i) in
      let? measure := Js.getProp meal ("strMeasure" ++ Js.showNat i) in
      let? pushed := mealIngredient ingredient measure in
      ingredientLoop meal n' (S i)
        (match pushed with Some x => ingredients ++ [x] | None => ingredients end)
  end.

Definition mealIngredients (meal : value) : result (list Ingredient) :=
  ingredientLoop meal 20 1 [].

Definition mealRecipe (meal : value) : result Recipe :=
  let? ingredients := mealIngredients meal in
  let? idMeal := Js.getProp meal "idMeal" in
  let? strMeal := Js.getProp meal "strMeal" in
  let? strMealThumb := Js.getProp meal "strMealThumb" in
  let? strInstructions := Js.getProp meal "strInstructions" in
  Ok (mkRecipe idMeal strMeal strMealThumb VNull VNull ingredients
        (if Js.truthy strInstructions then [mkStep (VNum 1) strInstructions] else [])
        VNull).

Definition fetchFromTheMealDB (rt : Runtime) (dishName : string) : M Recipe :=
  let! data := fetch rt (TheMealDBSearch dishName) in
  let! meals := lift (Js.getProp data "meals") in
  let! none := lift (noResults meals) in
  if none : bool then throw (Error "No recipes found") else
  let! meal := lift (Js.getFirst meals) in
  lift (mealRecipe meal).

(** ** The cache and the repository *)

(** [.eq('search_query', q).eq('api_source', src).gt('expires_at', now).single()]:
    the row of the key, if it expires after [now]. *)
Definition liveRow (cache : gmap (string * string) CacheRow)
    (search_query source : string) (now : Z) : option CacheRow :=
  match cache !! (search_query, source) with
  | Some row => if now <? expires_at row then Some row else None
  | None => None
  end.

Definition cacheSelect (rt : Runtime) (search_query source : string)
  : M (option CacheRow) :=
  fun w =>
    let now := nowAtLookup rt in
    (Ok (liveRow (recipe_cache w) search_query source now),
     emit (EvCacheSelect search_query source now) w).

(** The table after the insert of [row] under the unique pair [key]: the
    row is added when the pair is free and refused when it is taken. *)
Definition insertRow {V : Type} (key : string * string) (row : V)
    (table : gmap (string * string) V) : gmap (string * string) V :=
  match table !! key with
  | Some _ => table
  | None => <[key := row]> table
  end.

(** [supabase.from('recipe_cache').upsert({...})] *)
Definition cacheUpsert (search_query source : string) (row : CacheRow) : M unit :=
  fun w =>
    (Ok tt,
     mkWorld (insertRow (search_query, source) row (recipe_cache w))
             (recipes w)
             (trace w ++ [EvCacheUpsert search_query source row])).

(** [supabase.from('recipes').upsert({...})] *)
Definition recipesUpsertRow (rt : Runtime) (row : RecipeRow) : M unit :=
  fun w =>
    match recipesUpsert rt row with
    | Written =>
        (Ok tt,
         mkWorld (recipe_cache w)
                 (insertRow (external_id row, api_source row) row (recipes w))
                 (trace w ++ [EvRecipesUpsert row]))
    | Rejected => (Ok tt, emit (EvRecipesUpsert row) w)
    | Raised e => (Throw e, emit (EvRecipesUpsert row) w)
    end.

(** [recipeData.id.toString()] *)
Definition idToString (rt : Runtime) (id : value) : result string :=
  match id with
  | VUndefined | VNull =>
      Throw (TypeError ("Cannot read properties of " ++ Js.typeName id
                          ++ " (reading 'toString')"))
  | VObj fs =>
      if hasOwn "toString" fs
      then Throw (TypeError "recipeData.id.toString is not a function")
      else Ok "[object Object]"
  | _ => toText (numberToString rt) id
  end.

Definition storeRecipe (rt : Runtime) (recipeData : Recipe) (apiSource : string) : M unit :=
  tryCatch
    (let! external := lift (idToString rt (r_id recipeData)) in
     recipesUpsertRow rt
       (mkRecipeRow external apiSource
          (r_title recipeData) (r_image recipeData)
          (r_readyInMinutes recipeData) (r_servings recipeData)
          (r_ingredients recipeData) (r_instructions recipeData)
          (r_nutrition recipeData)))
    (fun _ => ret tt).

(** ** The request handler *)

Record Request : Type := mkRequest {
  dishName : option string;
  apiSource : option string
}.

Inductive Body : Type :=
| NoBody
| Success (data : Recipe) (source : string)
| Failure (error : string).

Record Response : Type := mkResponse {
  status : Z;
  body : Body
}.

(** [expiresAt.setHours(expiresAt.getHours() + 24)]: 24 hours later, in
    milliseconds (the edge runtime runs in UTC, where a day has no
    daylight-saving shift). *)
Definition day : Z := 24 * 60 * 60 * 1000.

(** The [try] block. *)
Definition handleBody (rt : Runtime) (req : Request) : M Response :=
  let source := match apiSource req with Some s => s | None => "spoonacular" end in
  match dishName req with
  | None | Some "" => throw (Error "Dish name is required")
  | Some name =>
      let cacheKey := Js.trim (Js.toLowerCase name) in
      let! cachedData := cacheSelect rt cacheKey source in
      match cachedData with
      | Some row => ret (mkResponse 200 (Success (response_data row) "cache"))
      | None =>
          let! apiData :=
            (if String.eqb source "spoonacular" then fetchFromSpoonacular rt name
             else if String.eqb source "edamam" then fetchFromEdamam rt name
             else if String.eqb source "themealdb" then fetchFromTheMealDB rt name
             else throw (Error "Invalid API source")) in
          do! cacheUpsert cacheKey source (mkCacheRow apiData (nowAtStore rt + day)) in
          do! storeRecipe rt apiData source in
          ret (mkResponse 200 (Success apiData "api"))
      end
  end.

Definition handle (rt : Runtime) (req : Request) : M Response :=
  tryCatch (handleBody rt req)
           (fun error => ret (mkResponse 500 (Failure (message error)))).

(** The server: a preflight is answered without a body. *)
Definition serve (rt : Runtime) (method : string) (req : Request) : M Response :=
  if String.eqb method "OPTIONS" then ret (mkResponse 200 NoBody) else handle rt req.

(** ** Vocabulary of the statements *)

(** *** White space and capital letters, by their code units

    The words of the statements about strings, written with the numbers of
    the code units and not with the functions of the model. *)

Definition whiteCodes : list nat := [9; 10; 11; 12; 13; 32; 160]%nat.

Definition whiteCode (c : ascii) : bool :=
  existsb (Nat.eqb (nat_of_ascii c)) whiteCodes.

(** A string of white space only; the empty string is one. *)
Fixpoint blank (s : string) : bool :=
  match s with
  | "" => true
  | String c s' => whiteCode c && blank s'
  end.

(** A to Z, and the capital letters U+00C0 to U+00DE of Latin-1, which
    leave out the multiplication sign U+00D7. *)
Definition capital (c : ascii) : bool :=
  let n := nat_of_ascii c in
  ((65 <=? n) && (n <=? 90) || (192 <=? n) && (n <=? 222) && negb (n =? 215))%nat.

(** The same code unit, or a capital letter and its small letter, which
    is 32 further. *)
Definition sameLetter (c d : ascii) : bool :=
  Ascii.eqb c d
  || capital c && (nat_of_ascii d =? nat_of_ascii c + 32)%nat
  || capital d && (nat_of_ascii c =? nat_of_ascii d + 32)%nat.

Fixpoint sameUpToCase (s t : string) : bool :=
  match s, t with
  | "", "" => true
  | String c s', String d t' => sameLetter c d && sameUpToCase s' t'
  | _, _ => false
  end.

Fixpoint endsClean (s : string) : bool :=
  match s with
  | "" => true
  | String c "" => negb (whiteCode c)
  | String _ s' => endsClean s'
  end.

(** A string with no white space at either end; the empty string is
    one. *)
Definition tight (s : string) : bool :=
  match s with
  | "" => true
  | String c _ => negb (whiteCode c) && endsClean s
  end.

(** No code unit of [s] is a capital letter. *)
Fixpoint noCapital (s : string) : bool :=
  match s with
  | "" => true
  | String c s' => negb (capital c) && noCapital s'
  end.

(** No code unit of [s] is white space. *)
Fixpoint noWhite (s : string) : bool :=
  match s with
  | "" => true
  | String c s' => negb (whiteCode c) && noWhite s'
  end.


(** The source a request asks for. *)
Definition sourceOf (req : Request) : string :=
  match apiSource req with Some s => s | None => "spoonacular" end.

(** The key a dish name is cached under. *)
Definition cacheKeyOf (name : string) : string := Js.trim (Js.toLowerCase name).

(** The normalized query in the words of the specification: the dish name
    trimmed, then put in lower case. *)
Definition normalizedQuery (name : string) : string := Js.toLowerCase (Js.trim name).

(** The adapter a source name stands for. *)
Definition adapterNamed (source : string) : option (Runtime -> string -> M Recipe) :=
  if String.eqb source "spoonacular" then Some fetchFromSpoonacular
  else if String.eqb source "edamam" then Some fetchFromEdamam
  else if String.eqb source "themealdb" then Some fetchFromTheMealDB
  else None.

(** The upstream service a call goes to. *)
Definition serviceOf (c : UpstreamCall) : string :=
  match c with
  | SpoonacularSearch _ _ | SpoonacularInformation _ _ => "spoonacular"
  | EdamamSearch _ _ _ => "edamam"
  | TheMealDBSearch _ => "themealdb"
  end.

Definition isFetch (e : Event) : Prop :=
  match e with EvFetch _ => True | _ => False end.

Definition isFetchOf (service : string) (e : Event) : Prop :=
  match e with EvFetch c => serviceOf c = service | _ => False end.

Definition isWrite (e : Event) : Prop :=
  match e with EvCacheUpsert _ _ _ | EvRecipesUpsert _ => True | _ => False end.

(** The world after the events [evs] that touch no table. *)
Definition appendTrace (evs : list Event) (w : World) : World :=
  mkWorld (recipe_cache w) (recipes w) (trace w ++ evs).

(** [m] yields [r] whatever the world it starts from. *)
Definition runs {A} (m : M A) (r : result A) : Prop := forall w, fst (m w) = r.

(** A computation that only calls the upstream [service]: it writes no
    table, and its result and its calls do not depend on the world. *)
Definition fetchesOnly {A} (service : string) (m : M A) : Prop :=
  exists r evs, Forall (isFetchOf service) evs /\ forall w, m w = (r, appendTrace evs w).

Definition emptyWorld : World := mkWorld ∅ ∅ [].

(** The same runtime with another behaviour of the [recipes] write. *)
Definition withRecipesUpsert (f : RecipeRow -> WriteOutcome) (rt : Runtime) : Runtime :=
  mkRuntime (env rt) (fetchJson rt) (nowAtLookup rt) (nowAtStore rt) f (numberToString rt).

(** The same runtime with other environment variables. *)
Definition withEnv (e : string -> option string) (rt : Runtime) : Runtime :=
  mkRuntime e (fetchJson rt) (nowAtLookup rt) (nowAtStore rt) (recipesUpsert rt)
            (numberToString rt).

(** The row [storeRecipe] builds for a recipe whose id prints as [ext]. *)
Definition rowOf (ext source : string) (rec : Recipe) : RecipeRow :=
  mkRecipeRow ext source (r_title rec) (r_image rec) (r_readyInMinutes rec)
              (r_servings rec) (r_ingredients rec) (r_instructions rec)
              (r_nutrition rec).

(** The envelope an adapter's result is answered with. *)
Definition envelope (r : result Recipe) : Response :=
  match r with
  | Ok rec => mkResponse 200 (Success rec "api")
  | Throw e => mkResponse 500 (Failure (message e))
  end.

(** The answer of the handler, read off its branches. *)
Definition answer (rt : Runtime) (req : Request) (w : World) : Response :=
  match dishName req with
  | None | Some "" => mkResponse 500 (Failure "Dish name is required")
  | Some name =>
      match liveRow (recipe_cache w) (cacheKeyOf name) (sourceOf req) (nowAtLookup rt) with
      | Some row => mkResponse 200 (Success (response_data row) "cache")
      | None =>
          match adapterNamed (sourceOf req) with
          | Some adapter => envelope (fst (adapter rt name w))
          | None => mkResponse 500 (Failure "Invalid API source")
          end
      end
  end.

(** Every row of the cache was written for a source that names an
    adapter. *)
Definition cacheSound (w : World) : Prop :=
  forall q s row, recipe_cache w !! (q, s) = Some row -> adapterNamed s <> None.

(** The worlds the handler can produce, starting from empty tables. *)
Inductive reachable : World -> Prop :=
| reach_empty : reachable emptyWorld
| reach_handle rt req w : reachable w -> reachable (snd (handle rt req w)).

(** The events of [storeRecipe]. *)
Definition storeEvents (rt : Runtime) (rec : Recipe) (source : string) : list Event :=
  match idToString rt (r_id rec) with
  | Ok ext => [EvRecipesUpsert (rowOf ext source rec)]
  | Throw _ => []
  end.

(** The world with the cache row of a key removed. *)
Definition withoutRow (key source : string) (w : World) : World :=
  mkWorld (delete (key, source) (recipe_cache w)) (recipes w) (trace w).

(** The numbered fields of a TheMealDB record. *)
Definition slotIngredient (fs : list (string * value)) (i : nat) : value :=
  Js.assoc ("strIngredient" ++ Js.showNat i) fs.

Definition slotMeasure (fs : list (string * value)) (i : nat) : value :=
  Js.assoc ("strMeasure" ++ Js.showNat i) fs.

Definition stringOrNull (v : value) : bool :=
  match v with VStr _ | VNull | VUndefined => true | _ => false end.

(** A TheMealDB record: each of the 20 ingredient and measure fields is a
    string, null or absent. *)
Definition mealRecord (fs : list (string * value)) : bool :=
  forallb (fun i => stringOrNull (slotIngredient fs i) && stringOrNull (slotMeasure fs i))
          (seq 1 20).

(** The ingredient field of index [i] is non-empty after trimming. *)
Definition present (fs : list (string * value)) (i : nat) : bool :=
  match slotIngredient fs i with
  | VStr s => negb (String.eqb (Js.trim s) "")
  | _ => false
  end.

(** The ingredient field of index [i] is a string with a code unit that
    is not white space. *)
Definition filled (fs : list (string * value)) (i : nat) : bool :=
  match slotIngredient fs i with
  | VStr s => negb (blank s)
  | _ => false
  end.

(** The ingredient field of index [i] is empty: the empty string, null or
    absent (any value that fails the test [ingredient && ...] at once). *)
Definition emptySlot (fs : list (string * value)) (i : nat) : bool :=
  negb (Js.truthy (slotIngredient fs i)).

Definition textOf (v : value) : string :=
  match v with VStr s => s | _ => "" end.

(** The ingredient a present index yields. *)
Definition ingredientAt (fs : list (string * value)) (i : nat) : Ingredient :=
  let ing := textOf (slotIngredient fs i) in
  let meas := textOf (slotMeasure fs i) in
  mkIngredient (VStr (Js.trim ing)) (VStr (Js.trim meas)) (VStr "")
               (VStr (Js.trim (meas ++ " " ++ ing))).

(** An upstream quantity that is missing, null or zero. *)
Definition noQuantity (q : value) : Prop :=
  q = VUndefined \/ q = VNull \/ exists z, q = VNum z /\ Qeq z 0.

(** ** Sample data *)

Definition chickenMeal : value :=
  VObj [("idMeal", VStr "52795"); ("strMeal", VStr "Chicken Curry");
        ("strMealThumb", VStr "https://www.themealdb.com/images/curry.jpg");
        ("strInstructions", VStr "Fry, then simmer.");
        ("strIngredient1", VStr "Chicken"); ("strMeasure1", VStr "500g");
        ("strIngredient2", VStr ""); ("strMeasure2", VStr " ");
        ("strIngredient3", VNull); ("strMeasure3", VNull)].

(** A record with gaps: slot 2 is empty, slot 3 null, slot 4 holds a
    tab, a no-break space and a space, and the rice of slot 5 comes after a
    no-break space. *)
Definition gapFields : list (string * value) :=
  [("idMeal", VStr "52796"); ("strMeal", VStr "Chicken and Rice");
   ("strIngredient1", VStr "Chicken"); ("strMeasure1", VStr "500g");
   ("strIngredient2", VStr ""); ("strMeasure2", VStr "");
   ("strIngredient3", VNull); ("strMeasure3", VNull);
   ("strIngredient4", VStr (String "009" (String "160" " "))); ("strMeasure4", VStr "1 tbsp");
   ("strIngredient5", VStr (String "160" "Rice")); ("strMeasure5", VStr "1 cup ")].

Definition gapMeal : value := VObj gapFields.

Definition chickenIngredient : Ingredient :=
  mkIngredient (VStr "Chicken") (VStr "500g") (VStr "") (VStr "500g Chicken").

Definition chickenRecipe : Recipe :=
  mkRecipe (VStr "52795") (VStr "Chicken Curry")
           (VStr "https://www.themealdb.com/images/curry.jpg") VNull VNull
           [chickenIngredient] [mkStep (VNum 1) (VStr "Fry, then simmer.")] VNull.

(** Upstream quantities 0, null, missing and 3. *)
Definition saladIngredients : list value :=
  [VObj [("food", VStr "lettuce"); ("quantity", VNum 0);
         ("measure", VStr "head"); ("text", VStr "lettuce")];
   VObj [("food", VStr "salt"); ("quantity", VNull); ("text", VStr "salt to taste")];
   VObj [("food", VStr "oil"); ("measure", VStr "tbsp")];
   VObj [("food", VStr "tomato"); ("quantity", VNum 3)]].

Definition saladData : value :=
  VObj [("uri", VStr "http://www.edamam.com/ontologies/edamam.owl#recipe_b79327");
        ("label", VStr "Salad"); ("yield", VNum 2);
        ("ingredients", VArr saladIngredients)].

Definition saladHit : value := VObj [("recipe", saladData)].

Definition saladRecipe : Recipe :=
  mkRecipe (VStr "b79327") (VStr "Salad") VUndefined VNull (VNum 2)
    [mkIngredient (VStr "lettuce") (VNum 1) (VStr "head") (VStr "lettuce");
     mkIngredient (VStr "salt") (VNum 1) VUndefined (VStr "salt to taste");
     mkIngredient (VStr "oil") (VNum 1) (VStr "tbsp") VUndefined;
     mkIngredient (VStr "tomato") (VNum 3) VUndefined VUndefined]
    [] VNull.

(** A runtime without any credential: TheMealDB answers with the chicken
    curry (for the query "gap", with the record that has gaps), Edamam with
    the salad, Spoonacular cannot be reached. *)
Definition sampleFetch (c : UpstreamCall) : result value :=
  match c with
  | TheMealDBSearch q =>
      if String.eqb q "nothing" then Ok (VObj [("meals", VNull)])
      else if String.eqb q "gap" then Ok (VObj [("meals", VArr [gapMeal])])
      else Ok (VObj [("meals", VArr [chickenMeal])])
  | EdamamSearch _ _ _ => Ok (VObj [("hits", VArr [saladHit])])
  | _ => Throw (TypeError "error sending request")
  end.

Definition sampleNumber (q : Q) : string :=
  NilZero.string_of_int (Z.to_int (Qnum q / Z.pos (Qden q))).

Definition noCredentials : Runtime :=
  mkRuntime (fun _ => None) sampleFetch 1000 1500 (fun _ => Written) sampleNumber.

Definition edamamCredentials : Runtime :=
  withEnv (fun k => if String.eqb k "EDAMAM_APP_ID" then Some "id"
                    else if String.eqb k "EDAMAM_APP_KEY" then Some "key"
                    else None)
          noCredentials.

(** A hit of Edamam whose [uri] has no underscore: its recipe has no
    id. *)
Definition plainData : value :=
  VObj [("uri", VStr "http://www.edamam.com/recipe/7"); ("label", VStr "Toast");
        ("ingredients", VArr [])].

Definition plainRecipe : Recipe :=
  mkRecipe VUndefined (VStr "Toast") VUndefined VNull VUndefined [] [] VNull.

Definition plainEdamam : Runtime :=
  mkRuntime (env edamamCredentials)
            (fun c => match c with
                      | EdamamSearch _ _ _ =>
                          Ok (VObj [("hits", VArr [VObj [("recipe", plainData)]])])
                      | _ => Throw (TypeError "error sending request")
                      end)
            1000 1500 (fun _ => Written) sampleNumber.

Definition toastRequest : Request := mkRequest (Some "toast") (Some "edamam").

Definition curryRequest : Request :=
  mkRequest (Some "Chicken Curry ") (Some "themealdb").

(** A cache that holds the chicken curry until time [expires]. *)
Definition curryCached (expires : Z) : World :=
  mkWorld {[ ("chicken curry", "themealdb") := mkCacheRow chickenRecipe expires ]} ∅ [].

(** ** The client: [RecipeIngredients.tsx]

    The component that calls the function and shows its result. Its state
    is the text of the input field, the selected source, the recipe on
    display (the [data] of the last successful answer, [null] at first) and
    the loading flag; what it does besides changing its state is recorded as
    a list of [ClientEvent]. *)

(** [hay.includes(needle)] *)
Fixpoint includes (needle hay : string) : bool :=
  String.prefix needle hay ||
  match hay with
  | "" => false
  | String _ hay' => includes needle hay'
  end.

(** The receiver of [ingredient.name.toLowerCase()]. *)
Definition lowerCaseOf (v : value) : result string :=
  match v with
  | VStr s => Ok (Js.toLowerCase s)
  | VUndefined | VNull =>
      Throw (TypeError ("Cannot read properties of " ++ Js.typeName v
                          ++ " (reading 'toLowerCase')"))
  | _ => Throw (TypeError "ingredient.name.toLowerCase is not a function")
  end.

(** The chain of tests of [categorizeIngredients] on the lower-case name. *)
Definition categoryOf (name : string) : string :=
  if includes "chicken" name || includes "beef" name || includes "pork" name ||
     includes "fish" name || includes "egg" name || includes "bacon" name
  then "Protein"
  else if includes "onion" name || includes "tomato" name || includes "pepper" name ||
          includes "carrot" name || includes "lettuce" name || includes "garlic" name
  then "Vegetables"
  else if includes "milk" name || includes "cheese" name || includes "butter" name ||
          includes "cream" name || includes "yogurt" name
  then "Dairy"
  else if includes "flour" name || includes "sugar" name || includes "baking" name
  then "Baking"
  else if includes "salt" name || includes "pepper" name || includes "spice" name ||
          includes "herb" name || includes "curry" name || includes "paprika" name
  then "Seasonings & Spices"
  else "Other".

(** [if (!categories[category]) categories[category] = [];
    categories[category].push(ingredient)] on an object whose keys keep the
    order in which they were added. *)
Fixpoint pushTo (category : string) (x : Ingredient)
    (categories : list (string * list Ingredient)) : list (string * list Ingredient) :=
  match categories with
  | [] => [(category, [x])]
  | (c, l) :: rest =>
      if String.eqb c category then (c, (l ++ [x])%list) :: rest
      else (c, l) :: pushTo category x rest
  end.

(** The [forEach] of [categorizeIngredients]. *)
Fixpoint categorizeLoop (ingredients : list Ingredient)
    (categories : list (string * list Ingredient))
  : result (list (string * list Ingredient)) :=
  match ingredients with
  | [] => Ok categories
  | ingredient :: rest =>
      let? name := lowerCaseOf (ing_name ingredient) in
      categorizeLoop rest (pushTo (categoryOf name) ingredient categories)
  end.

Definition categorizeIngredients (ingredients : list Ingredient)
  : result (list (string * list Ingredient)) :=
  categorizeLoop ingredients [].

(** The category of an ingredient whose name is a string. *)
Definition categoryOfIngredient (x : Ingredient) : option string :=
  match ing_name x with
  | VStr s => Some (categoryOf (Js.toLowerCase s))
  | _ => None
  end.

Definition inCategory (c : string) (x : Ingredient) : bool :=
  match categoryOfIngredient x with
  | Some c' => String.eqb c' c
  | None => false
  end.

(** The ingredients listed under a category, none when it is not a key. *)
Fixpoint lookupCategory (c : string) (categories : list (string * list Ingredient))
  : list Ingredient :=
  match categories with
  | [] => []
  | (c', l) :: rest => if String.eqb c' c then l else lookupCategory c rest
  end.

(** What holds of the categories built from the ingredients [seen]. *)
Definition categorized (categories : list (string * list Ingredient))
    (seen : list Ingredient) : Prop :=
  NoDup (map fst categories) /\
  (forall c, lookupCategory c categories = List.filter (inCategory c) seen) /\
  (forall c, In c (map fst categories) <-> lookupCategory c categories <> []) /\
  Permutation (concat (map snd categories)) seen.

Record ClientState : Type := mkClientState {
  c_dishName : string;
  c_apiSource : string;
  c_recipe : value;
  c_isLoading : bool
}.

Inductive ClientEvent : Type :=
| CvToast (title description : string) (destructive : bool)
| CvInvoke (body : Request)
| CvConsoleError (msg : string).

(** What [supabase.functions.invoke] resolves to: [{ data, error }], with
    the message of the error when there is one; or what it throws. *)
Record ClientRuntime : Type := mkClientRuntime {
  invoke : Request -> result (value * option string);
  clientNumberToString : Q -> string
}.

(** The [try] block of [getIngredients], up to the state it sets and the
    toast it shows. *)
Definition getIngredientsTry (crt : ClientRuntime) (st : ClientState)
  : result (value * ClientEvent) :=
  let? reply := invoke crt (mkRequest (Some (Js.trim (c_dishName st)))
                                      (Some (c_apiSource st))) in
  let (data, error) := reply : value * option string in
  match error with
  | Some msg => Throw (Error msg)
  | None =>
      let? success := Js.getProp data "success" in
      if negb (Js.truthy success)
      then
        let? err := Js.getProp data "error" in
        let? msg := toText (clientNumberToString crt)
                           (Js.or err (VStr "Failed to fetch recipe")) in
        Throw (Error msg)
      else
        let? recipe := Js.getProp data "data" in
        Ok (recipe,
            CvToast "Recipe found!"
              ("Found ingredients for " ++ c_dishName st ++ " from "
                 ++ (if String.eqb (c_apiSource st) "themealdb" then "TheMealDB"
                     else c_apiSource st))
              false)
  end.

Definition getIngredients (crt : ClientRuntime) (st : ClientState)
  : ClientState * list ClientEvent :=
  if String.eqb (Js.trim (c_dishName st)) ""
  then (st, [CvToast "Please enter a dish name"
               "Enter the name of the dish to get its ingredients" true])
  else
    let body := mkRequest (Some (Js.trim (c_dishName st))) (Some (c_apiSource st)) in
    match getIngredientsTry crt st with
    | Ok (recipe, toast) =>
        (mkClientState (c_dishName st) (c_apiSource st) recipe false,
         [CvInvoke body; toast])
    | Throw error =>
        (mkClientState (c_dishName st) (c_apiSource st) (c_recipe st) false,
         [CvInvoke body;
          CvConsoleError (message error);
          CvToast "Failed to fetch recipe"
            (if String.eqb (message error) ""
             then "Please try again or use a different API source"
             else message error)
            true])
    end.

(** *** [downloadPDF]

    Modelled on the types the component declares for its recipe
    ([interface Recipe], [interface Ingredient]); the document is the list
    of the calls made on the [jsPDF] object. *)

Record CIngredient : Type := mkCIngredient {
  ci_name : string;
  ci_amount : string + Q;
  ci_unit : string;
  ci_originalString : option string
}.

Record CStep : Type := mkCStep {
  cs_number : Q;
  cs_step : string
}.

Record CRecipe : Type := mkCRecipe {
  cr_title : string;
  cr_readyInMinutes : option Q;
  cr_servings : option Q;
  cr_ingredients : list CIngredient;
  cr_instructions : option (list CStep)
}.

Inductive PdfOp : Type :=
| PdfFontSize (size : Z)
| PdfTextColor (r g b : Z)
| PdfLine (text : string) (x y : Z)
| PdfLines (lines : list string) (x y : Z)
| PdfAddPage
| PdfSave (filename : string).

Record PdfRuntime : Type := mkPdfRuntime {
  (** [doc.splitTextToSize(text, 170)] *)
  splitTextToSize : string -> list string;
  (** [new Date().toLocaleDateString()] *)
  localeDate : string;
  (** how a number prints in a template *)
  pdfNumber : Q -> string
}.

(** A number that is present and not zero ([if (recipe.servings)]). *)
Definition someNumber (n : option Q) : bool :=
  match n with Some q => negb (Qeq_bool q 0) | None => false end.

Definition numberText (prt : PdfRuntime) (n : option Q) : string :=
  match n with Some q => pdfNumber prt q | None => "undefined" end.

Definition infoText (prt : PdfRuntime) (recipe : CRecipe) : string :=
  let t1 := if someNumber (cr_servings recipe)
            then "Servings: " ++ numberText prt (cr_servings recipe) else "" in
  if someNumber (cr_readyInMinutes recipe)
  then (if String.eqb t1 "" then t1 else t1 ++ " | ")
       ++ "Ready in: " ++ numberText prt (cr_readyInMinutes recipe) ++ " min"
  else t1.

Definition amountText (prt : PdfRuntime) (a : string + Q) : string :=
  match a with inl s => s | inr q => pdfNumber prt q end.

(** [ingredient.originalString || `• ${amount} ${unit} ${name}`]; the
    bullet (U+2022) is the one character of the code outside the range of
    the model's strings: it is carried as the three bytes of its UTF-8
    encoding, which nothing looks into. *)
Definition ingredientText (prt : PdfRuntime) (i : CIngredient) : string :=
  let line := "• " ++ amountText prt (ci_amount i) ++ " " ++ ci_unit i ++ " " ++ ci_name i in
  match ci_originalString i with
  | Some s => if String.eqb s "" then line else s
  | None => line
  end.

Definition instructionText (prt : PdfRuntime) (st : CStep) : string :=
  pdfNumber prt (cs_number st) ++ ". " ++ cs_step st.

(** The [forEach] over the ingredients, entered at [yPosition]. *)
Fixpoint drawIngredients (prt : PdfRuntime) (ingredients : list CIngredient)
    (yPosition : Z) : list PdfOp * Z :=
  match ingredients with
  | [] => ([], yPosition)
  | ingredient :: rest =>
      let splitText := splitTextToSize prt (ingredientText prt ingredient) in
      let y1 := yPosition + (Z.of_nat (List.length splitText) * 6) + 2 in
      let (page, y2) := if 270 <? y1 then ([PdfAddPage], 20) else ([], y1) in
      let (ops, yEnd) := drawIngredients prt rest y2 in
      ((PdfLines splitText 25 yPosition :: page ++ ops)%list, yEnd)
  end.

(** The [forEach] over the instructions. *)
Fixpoint drawInstructions (prt : PdfRuntime) (instructions : list CStep)
    (yPosition : Z) : list PdfOp * Z :=
  match instructions with
  | [] => ([], yPosition)
  | instruction :: rest =>
      let splitText := splitTextToSize prt (instructionText prt instruction) in
      let y1 := yPosition + (Z.of_nat (List.length splitText) * 6) + 4 in
      let (page, y2) := if 270 <? y1 then ([PdfAddPage], 20) else ([], y1) in
      let (ops, yEnd) := drawInstructions prt rest y2 in
      ((PdfLines splitText 25 yPosition :: page ++ ops)%list, yEnd)
  end.

(** [title.replace(/\s+/g, '-')]: every run of white space becomes one
    dash; [inRun] says that the character before was white space. *)
Fixpoint dashesFrom (inRun : bool) (s : string) : string :=
  match s with
  | "" => ""
  | String c s' =>
      if Js.isWhite c
      then (if inRun then dashesFrom true s' else String "-" (dashesFrom true s'))
      else String c (dashesFrom false s')
  end.

Definition pdfFileName (title : string) : string :=
  Js.toLowerCase (dashesFrom false title) ++ "-recipe.pdf".

Definition noIngredientsToast : ClientEvent :=
  CvToast "No ingredients to download" "Please search for a dish first" true.

Definition downloadPDF (prt : PdfRuntime) (recipe : option CRecipe)
  : list PdfOp * ClientEvent :=
  match recipe with
  | None => ([], noIngredientsToast)
  | Some recipe =>
      match cr_ingredients recipe with
      | [] => ([], noIngredientsToast)
      | _ :: _ =>
          let title :=
            [PdfFontSize 24; PdfTextColor 231 76 60;
             PdfLine ("Recipe: " ++ cr_title recipe) 20 30;
             PdfFontSize 12; PdfTextColor 100 100 100;
             PdfLine ("Generated on " ++ localeDate prt) 20 40] in
          let info :=
            if someNumber (cr_servings recipe) || someNumber (cr_readyInMinutes recipe)
            then [PdfLine (infoText prt recipe) 20 50] else [] in
          let yPosition := 70 in
          let header :=
            [PdfFontSize 16; PdfTextColor 46 125 50; PdfLine "Ingredients:" 20 yPosition;
             PdfFontSize 11; PdfTextColor 60 60 60] in
          let (ingredients, y1) :=
            drawIngredients prt (cr_ingredients recipe) (yPosition + 15) in
          let instructions :=
            match cr_instructions recipe with
            | Some (step :: steps) =>
                let y2 := y1 + 10 in
                let (page, y3) := if 250 <? y2 then ([PdfAddPage], 20) else ([], y2) in
                (page ++
                 [PdfFontSize 16; PdfTextColor 46 125 50; PdfLine "Instructions:" 20 y3;
                  PdfFontSize 11; PdfTextColor 60 60 60] ++
                 fst (drawInstructions prt (step :: steps) (y3 + 15)))%list
            | _ => []
            end in
          let footer :=
            [PdfFontSize 8; PdfTextColor 150 150 150;
             PdfLine "Generated by Recipe Ingredients App" 20 280] in
          ((title ++ info ++ header ++ ingredients ++ instructions ++ footer ++
            [PdfSave (pdfFileName (cr_title recipe))])%list,
           CvToast "PDF Downloaded!"
             ("Recipe for " ++ cr_title recipe ++ " has been downloaded") false)
      end
  end.

(** A drawing call that starts on the page: a heading or the footer at
    the left margin between 20 and 280, a block of body text at 25 between
    20 and 270. *)
Definition onPage (op : PdfOp) : Prop :=
  match op with
  | PdfLine _ x y => x = 20 /\ 20 <= y <= 280
  | PdfLines _ x y => x = 25 /\ 20 <= y <= 270
  | _ => True
  end.

(** The blocks of body text of a document, in the order drawn. *)
Fixpoint bodyBlocks (ops : list PdfOp) : list (list string) :=
  match ops with
  | [] => []
  | PdfLines lines _ _ :: rest => lines :: bodyBlocks rest
  | _ :: rest => bodyBlocks rest
  end.

Definition isSave (op : PdfOp) : Prop :=
  match op with PdfSave _ => True | _ => False end.

(** No character of [s] is white space. *)
Fixpoint whiteFree (s : string) : bool :=
  match s with
  | "" => true
  | String c s' => negb (Js.isWhite c) && whiteFree s'
  end.

(** A jsPDF that breaks a text into lines of 20 characters, and a recipe
    long enough to need a second page. *)
Fixpoint chunks (fuel : nat) (s : string) : list string :=
  match fuel with
  | O => [s]
  | S fuel' =>
      if (String.length s <=? 20)%nat then [s]
      else String.substring 0 20 s :: chunks fuel' (String.substring 20 (String.length s - 20) s)
  end.

Definition samplePdf : PdfRuntime :=
  mkPdfRuntime (fun s => chunks (String.length s) s) "11/3/2026" sampleNumber.

Definition feast : CRecipe :=
  mkCRecipe "Harvest  Feast" (Some (90 # 1)%Q) (Some (6 # 1)%Q)
    (repeat (mkCIngredient "flour" (inr (2 # 1)%Q) "cups" None) 30)
    (Some [mkCStep (1 # 1)%Q "Mix everything and bake until done.";
           mkCStep (2 # 1)%Q "Serve."]).

(** A string that does not begin with white space. *)
Definition startsClean (s : string) : Prop :=
  match s with "" => True | String c _ => Js.isWhite c = false end.

(** What the tables hold after any sequence of requests: cache keys are
    normalized and belong to a source that names an adapter; a row of
    [recipes] sits under its own external id and source. *)
Definition tablesSound (w : World) : Prop :=
  (forall q s row, recipe_cache w !! (q, s) = Some row ->
     cacheKeyOf q = q /\ adapterNamed s <> None) /\
  (forall e s row, recipes w !! (e, s) = Some row ->
     external_id row = e /\ api_source row = s /\ adapterNamed s <> None).

(** A computation that makes at most [n] upstream calls and nothing
    else. *)
Definition callsAtMost {A} (n : nat) (m : M A) : Prop :=
  exists r evs, (List.length evs <= n)%nat /\ Forall isFetch evs /\
                forall w, m w = (r, appendTrace evs w).

(** A list field of an upstream reply that holds no result: missing, null
    (or any other falsy value), or the empty array. *)
Definition emptyList (v : value) : Prop := Js.truthy v = false \/ v = VArr [].


(** What every ingredient of the free adapter looks like. *)
Definition mealIngredientShape (i : Ingredient) : Prop :=
  exists n a o,
    ing_name i = VStr n /\ n <> "" /\ Js.trim n = n /\
    ing_amount i = VStr a /\ Js.trim a = a /\
    ing_unit i = VStr "" /\
    ing_originalString i = VStr o /\ Js.trim o = o.

(** A Spoonacular detail reply with two instruction groups. *)
Definition soupDetail : value :=
  VObj [("id", VNum 7); ("title", VStr "Soup"); ("servings", VNum 4);
        ("extendedIngredients",
         VArr [VObj [("name", VStr "water"); ("amount", VNum 0); ("unit", VStr "l");
                     ("original", VStr "water")];
               VObj [("name", VStr "salt")]]);
        ("analyzedInstructions",
         VArr [VObj [("steps", VArr [VObj [("number", VNum 1); ("step", VStr "Boil.")]])];
               VObj [("steps", VArr [VObj [("number", VNum 1); ("step", VStr "Serve.")]])]])].

Definition soupRecipe : Recipe :=
  mkRecipe (VNum 7) (VStr "Soup") VUndefined VUndefined (VNum 4)
    [mkIngredient (VStr "water") (VNum 0) (VStr "l") (VStr "water");
     mkIngredient (VStr "salt") VUndefined VUndefined VUndefined]
    [mkStep (VNum 1) (VStr "Boil.")] VNull.

(** A runtime with the Spoonacular key: the search for "soup" has two
    candidates, the search for "stew" one whose id is an object, any other
    search none; only the detail of recipe 7 is served. *)
Definition spoonacularFetch (c : UpstreamCall) : result value :=
  match c with
  | SpoonacularSearch _ q =>
      if String.eqb q "soup"
      then Ok (VObj [("results", VArr [VObj [("id", VNum 7)]; VObj [("id", VNum 8)]])])
      else if String.eqb q "stew"
      then Ok (VObj [("results", VArr [VObj [("id", VObj [("toString", VNum 1)])]])])
      else Ok (VObj [("results", VArr [])])
  | SpoonacularInformation "7" _ => Ok soupDetail
  | TheMealDBSearch _ => Ok (VObj [("meals", VNull)])
  | EdamamSearch _ _ _ => Ok (VObj [("hits", VArr [])])
  | _ => Throw (TypeError "error sending request")
  end.

Definition spoonacularCredentials : Runtime :=
  mkRuntime (fun k => if String.eqb k "SPOONACULAR_API_KEY" then Some "k1"
                      else if String.eqb k "EDAMAM_APP_ID" then Some "id"
                      else if String.eqb k "EDAMAM_APP_KEY" then Some "key"
                      else None)
            spoonacularFetch 1000 1500 (fun _ => Written) sampleNumber.

Definition namedIngredient (name : string) : Ingredient :=
  mkIngredient (VStr name) (VNum 1) (VStr "") VUndefined.

Definition pantry : list Ingredient :=
  [namedIngredient "Chicken breast"; namedIngredient "Black Pepper";
   namedIngredient "salt"; namedIngredient "Rice"; namedIngredient "Eggplant";
   namedIngredient "Red onion"].

Definition isInvoke (e : ClientEvent) : Prop :=
  match e with CvInvoke _ => True | _ => False end.

(** A client runtime whose function answers every request with the
    chicken curry, and one whose function is down. *)
Definition curryReply : value :=
  VObj [("success", VBool true);
        ("data", VObj [("title", VStr "Chicken Curry")]);
        ("source", VStr "api")].

Definition clientOnline : ClientRuntime :=
  mkClientRuntime (fun _ => Ok (curryReply, None)) sampleNumber.

Definition clientDown : ClientRuntime :=
  mkClientRuntime
    (fun _ => Ok (VNull, Some "Edge Function returned a non-2xx status code"))
    sampleNumber.

Definition typedCurry : ClientState :=
  mkClientState "  Chicken Curry " "themealdb" (VObj [("title", VStr "Soup")]) false.

(** A later runtime, at time 5000, for which every upstream service is
    unreachable and no credential is set. *)
Definition offlineLater : Runtime :=
  mkRuntime (fun _ => None) (fun _ => Throw (TypeError "error sending request"))
            5000 5500 (fun _ => Rejected) sampleNumber.

(** The same, more than a day after time 1500. *)
Definition offlineNextDay : Runtime :=
  mkRuntime (fun _ => None) (fun _ => Throw (TypeError "error sending request"))
            86401500 86401600 (fun _ => Rejected) sampleNumber.

(** A tab, a no-break space and a line feed. *)
Definition whitePad : string := String "009" (String "160" (String "010" "")).

(** "CRÈME" and "BRÛLÉE" with [gap] between them, and the same in small
    letters; the accented letters are given by their code units. *)
Definition cremeShouted (gap : string) : string :=
  "CR" ++ String "200" "ME" ++ gap ++ "BR" ++ String "219" "L" ++ String "201" "E".

Definition cremeSmall (gap : string) : string :=
  "cr" ++ String "232" "me" ++ gap ++ "br" ++ String "251" "l" ++ String "233" "e".

Definition shoutedRequest : Request :=
  mkRequest (Some "  CHICKEN Curry") (Some "themealdb").

(** ** Examples of the string functions *)

Example trim_ex : Js.trim "  Chicken Curry " = "Chicken Curry".
Proof. reflexivity. Qed.
Example lower_ex : Js.toLowerCase "Chicken Curry" = "chicken curry".
Proof. reflexivity. Qed.
Example split_ex : Js.split "_" "http://e.com#recipe_ab_c" = ["http://e.com#recipe"; "ab"; "c"].
Proof. reflexivity. Qed.
Example show_ex : Js.showNat 20 = "20" /\ Js.showNat 1 = "1".
Proof. split; reflexivity. Qed.

(** A code unit above 127 is written by its number: "160" is the no-break
    space U+00A0, "200" is È and "232" is è. *)
Example trim_nbsp_ex : Js.trim (whitePad ++ "Rice" ++ String "160" " ") = "Rice".
Proof. reflexivity. Qed.
Example lower_latin1_ex : Js.toLowerCase (cremeShouted " ") = cremeSmall " ".
Proof. reflexivity. Qed.
Example lower_signs_ex :
  Js.toLowerCase (String "215" (String "223" (String "255" ""))) =
    String "215" (String "223" (String "255" "")).
Proof. reflexivity. Qed.

(** ** Trimming and lower case commute *)

Lemma isWhite_lowerChar c : Js.isWhite (Js.lowerChar c) = Js.isWhite c.
Proof. destruct c as [[] [] [] [] [] [] [] []]; reflexivity. Qed.

(** The white space of the model is the white space by code unit. *)
Lemma whiteCode_isWhite c : whiteCode c = Js.isWhite c.
Proof. destruct c as [[] [] [] [] [] [] [] []]; reflexivity. Qed.

Lemma trimStart_blank_only p : blank p = true -> Js.trimStart p = "".
Proof.
  induction p as [| c p IH]; [reflexivity |].
  cbn [blank]. intros H. apply andb_prop in H as [Hc Hp].
  cbn [Js.trimStart]. rewrite <- whiteCode_isWhite, Hc. now apply IH.
Qed.

Lemma toLowerCase_trimStart s :
  Js.toLowerCase (Js.trimStart s) = Js.trimStart (Js.toLowerCase s).
Proof.
  induction s as [| c s IH]; [reflexivity |].
  cbn [Js.trimStart Js.toLowerCase]. rewrite isWhite_lowerChar.
  destruct (Js.isWhite c); [exact IH | reflexivity].
Qed.

Lemma toLowerCase_trimEnd s :
  Js.toLowerCase (Js.trimEnd s) = Js.trimEnd (Js.toLowerCase s).
Proof.
  induction s as [| c s IH]; [reflexivity |].
  cbn [Js.trimEnd Js.toLowerCase]. rewrite <- IH, isWhite_lowerChar.
  destruct (Js.trimEnd s) as [| c' t]; cbn [Js.toLowerCase].
  - destruct (Js.isWhite c); reflexivity.
  - reflexivity.
Qed.

(** The key the handler computes, [dishName.toLowerCase().trim()], is the
    normalized query. *)
Lemma cacheKeyOf_normalizedQuery name : cacheKeyOf name = normalizedQuery name.
Proof.
  unfold cacheKeyOf, normalizedQuery, Js.trim.
  now rewrite toLowerCase_trimEnd, toLowerCase_trimStart.
Qed.

(** ** Traces of the adapters *)

Lemma appendTrace_nil w : appendTrace [] w = w.
Proof. destruct w; unfold appendTrace; simpl. now rewrite app_nil_r. Qed.

Lemma emit_appendTrace e w : emit e w = appendTrace [e] w.
Proof. reflexivity. Qed.

Lemma appendTrace_app evs1 evs2 w :
  appendTrace evs2 (appendTrace evs1 w) = appendTrace (evs1 ++ evs2)%list w.
Proof. unfold appendTrace; simpl. now rewrite app_assoc. Qed.

Lemma fetchesOnly_ret {A} svc (a : A) : fetchesOnly svc (ret a).
Proof.
  exists (Ok a), []. split; [constructor|].
  intros w. unfold ret. now rewrite appendTrace_nil.
Qed.

Lemma fetchesOnly_lift {A} svc (r : result A) : fetchesOnly svc (lift r).
Proof.
  exists r, []. split; [constructor|].
  intros w. unfold lift. now rewrite appendTrace_nil.
Qed.

Lemma fetchesOnly_throw {A} svc e : fetchesOnly svc (@throw A e).
Proof.
  exists (Throw e), []. split; [constructor|].
  intros w. unfold throw. now rewrite appendTrace_nil.
Qed.

Lemma fetchesOnly_fetch rt c : fetchesOnly (serviceOf c) (fetch rt c).
Proof.
  exists (fetchJson rt c), [EvFetch c]. split.
  - constructor; [reflexivity | constructor].
  - reflexivity.
Qed.

Lemma fetchesOnly_bind {A B} svc (m : M A) (k : A -> M B) :
  fetchesOnly svc m -> (forall a, fetchesOnly svc (k a)) -> fetchesOnly svc (bind m k).
Proof.
  intros (r & evs & Hevs & Hm) Hk.
  destruct r as [a | e].
  - destruct (Hk a) as (r2 & evs2 & Hevs2 & Hka).
    exists r2, (evs ++ evs2)%list. split.
    + apply Forall_app; now split.
    + intros w. unfold bind. rewrite Hm, Hka. now rewrite appendTrace_app.
  - exists (Throw e), evs. split; [assumption|].
    intros w. unfold bind. now rewrite Hm.
Qed.

Ltac fetches_step :=
  first
    [ apply fetchesOnly_bind; [| intros ?]
    | apply fetchesOnly_lift
    | apply fetchesOnly_throw
    | apply fetchesOnly_ret
    | apply (fetchesOnly_fetch _ (SpoonacularSearch _ _))
    | apply (fetchesOnly_fetch _ (SpoonacularInformation _ _))
    | apply (fetchesOnly_fetch _ (EdamamSearch _ _ _))
    | apply (fetchesOnly_fetch _ (TheMealDBSearch _))
    | match goal with |- fetchesOnly _ (if ?b then _ else _) => destruct b end
    | match goal with |- fetchesOnly _ (match ?x with _ => _ end) => destruct x end ].

Lemma fetchFromSpoonacular_fetches rt name :
  fetchesOnly "spoonacular" (fetchFromSpoonacular rt name).
Proof. unfold fetchFromSpoonacular. repeat fetches_step. Qed.

Lemma fetchFromEdamam_fetches rt name :
  fetchesOnly "edamam" (fetchFromEdamam rt name).
Proof. unfold fetchFromEdamam. repeat fetches_step. Qed.

Lemma fetchFromTheMealDB_fetches rt name :
  fetchesOnly "themealdb" (fetchFromTheMealDB rt name).
Proof. unfold fetchFromTheMealDB. repeat fetches_step. Qed.

Lemma adapterNamed_fetches source adapter rt name :
  adapterNamed source = Some adapter -> fetchesOnly source (adapter rt name).
Proof.
  unfold adapterNamed. intros H.
  destruct (String.eqb_spec source "spoonacular") as [-> | _].
  { injection H as <-. apply fetchFromSpoonacular_fetches. }
  destruct (String.eqb_spec source "edamam") as [-> | _].
  { injection H as <-. apply fetchFromEdamam_fetches. }
  destruct (String.eqb_spec source "themealdb") as [-> | _].
  { injection H as <-. apply fetchFromTheMealDB_fetches. }
  discriminate.
Qed.

(** ** Inserting under a unique pair *)

Lemma insertRow_free {V} key (row : V) table :
  table !! key = None -> insertRow key row table = <[key := row]> table.
Proof. unfold insertRow. now intros ->. Qed.

Lemma insertRow_taken {V} key (row old : V) table :
  table !! key = Some old -> insertRow key row table = table.
Proof. unfold insertRow. now intros ->. Qed.

Lemma insertRow_keeps {V} key (row : V) table k old :
  table !! k = Some old -> insertRow key row table !! k = Some old.
Proof.
  intros Hk. unfold insertRow.
  destruct (table !! key) eqn:Hkey; [exact Hk |].
  rewrite lookup_insert_ne; [exact Hk |]. intros <-. congruence.
Qed.

Lemma insertRow_other {V} key (row : V) table k :
  k <> key -> insertRow key row table !! k = table !! k.
Proof.
  intros Hne. unfold insertRow.
  destruct (table !! key); [reflexivity |].
  now rewrite lookup_insert_ne by congruence.
Qed.

(** What the pair holds after the insert: the old row when there was
    one, the new row otherwise. *)
Lemma insertRow_at {V} key (row : V) table :
  insertRow key row table !! key =
    Some (match table !! key with Some old => old | None => row end).
Proof.
  unfold insertRow. destruct (table !! key) eqn:Hkey; [exact Hkey |].
  apply lookup_insert_eq.
Qed.

Lemma insertRow_twice {V} key (row row' : V) table :
  insertRow key row' (insertRow key row table) = insertRow key row table.
Proof.
  unfold insertRow at 1. now rewrite insertRow_at.
Qed.

(** ** The runs of the handler *)

Lemma storeRecipe_returns rt rec source w : fst (storeRecipe rt rec source w) = Ok tt.
Proof.
  unfold storeRecipe, tryCatch, bind, lift, recipesUpsertRow, ret.
  destruct (idToString rt (r_id rec)); [| reflexivity].
  now destruct (recipesUpsert rt _).
Qed.

Lemma storeRecipe_cache rt rec source w :
  recipe_cache (snd (storeRecipe rt rec source w)) = recipe_cache w.
Proof.
  unfold storeRecipe, tryCatch, bind, lift, recipesUpsertRow, ret.
  destruct (idToString rt (r_id rec)); [| reflexivity].
  now destruct (recipesUpsert rt _).
Qed.

(** What [storeRecipe] does for a recipe whose id prints as [ext]: one
    write to [recipes], stored when the database accepts it. *)
Lemma storeRecipe_row rt rec source w ext :
  idToString rt (r_id rec) = Ok ext ->
  let row := rowOf ext source rec in
  let w' := snd (storeRecipe rt rec source w) in
  trace w' = (trace w ++ [EvRecipesUpsert row])%list /\
  recipes w' = match recipesUpsert rt row with
               | Written => insertRow (ext, source) row (recipes w)
               | _ => recipes w
               end.
Proof.
  intros Hid row w'. subst w'.
  unfold storeRecipe, tryCatch, bind, lift, recipesUpsertRow, ret.
  rewrite Hid. fold (rowOf ext source rec). fold row.
  now destruct (recipesUpsert rt row).
Qed.

(** A recipe without a printable id is not written at all. *)
Lemma storeRecipe_no_id rt rec source w e :
  idToString rt (r_id rec) = Throw e -> storeRecipe rt rec source w = (Ok tt, w).
Proof.
  intros Hid. unfold storeRecipe, tryCatch, bind, lift. now rewrite Hid.
Qed.

Lemma handle_no_name rt req w :
  dishName req = None \/ dishName req = Some "" ->
  handle rt req w = (Ok (mkResponse 500 (Failure "Dish name is required")), w).
Proof.
  intros [H | H]; unfold handle, handleBody, tryCatch; now rewrite H.
Qed.

Lemma handleBody_named rt req name :
  dishName req = Some name -> name <> "" ->
  handleBody rt req =
    (let! cachedData := cacheSelect rt (cacheKeyOf name) (sourceOf req) in
     match cachedData with
     | Some row => ret (mkResponse 200 (Success (response_data row) "cache"))
     | None =>
         let! apiData :=
           (match adapterNamed (sourceOf req) with
            | Some adapter => adapter rt name
            | None => throw (Error "Invalid API source")
            end) in
         do! cacheUpsert (cacheKeyOf name) (sourceOf req)
               (mkCacheRow apiData (nowAtStore rt + day)) in
         do! storeRecipe rt apiData (sourceOf req) in
         ret (mkResponse 200 (Success apiData "api"))
     end).
Proof.
  intros Hname Hne. unfold handleBody. rewrite Hname.
  destruct name as [| c name']; [congruence |].
  fold (sourceOf req). fold (cacheKeyOf (String c name')).
  unfold adapterNamed.
  destruct (String.eqb (sourceOf req) "spoonacular"); [reflexivity |].
  destruct (String.eqb (sourceOf req) "edamam"); [reflexivity |].
  destruct (String.eqb (sourceOf req) "themealdb"); reflexivity.
Qed.

Lemma handle_hit rt req w name row :
  dishName req = Some name -> name <> "" ->
  liveRow (recipe_cache w) (cacheKeyOf name) (sourceOf req) (nowAtLookup rt) = Some row ->
  handle rt req w =
    (Ok (mkResponse 200 (Success (response_data row) "cache")),
     appendTrace [EvCacheSelect (cacheKeyOf name) (sourceOf req) (nowAtLookup rt)] w).
Proof.
  intros Hname Hne Hrow. unfold handle.
  rewrite (handleBody_named rt req name Hname Hne).
  unfold tryCatch, bind, cacheSelect. simpl. now rewrite Hrow.
Qed.

Lemma handle_unknown_source rt req w name :
  dishName req = Some name -> name <> "" ->
  liveRow (recipe_cache w) (cacheKeyOf name) (sourceOf req) (nowAtLookup rt) = None ->
  adapterNamed (sourceOf req) = None ->
  handle rt req w =
    (Ok (mkResponse 500 (Failure "Invalid API source")),
     appendTrace [EvCacheSelect (cacheKeyOf name) (sourceOf req) (nowAtLookup rt)] w).
Proof.
  intros Hname Hne Hmiss Hnone. unfold handle.
  rewrite (handleBody_named rt req name Hname Hne).
  unfold tryCatch, bind, cacheSelect. simpl. rewrite Hmiss, Hnone. reflexivity.
Qed.

Lemma handle_adapter_throws rt req w name adapter e evs :
  dishName req = Some name -> name <> "" ->
  liveRow (recipe_cache w) (cacheKeyOf name) (sourceOf req) (nowAtLookup rt) = None ->
  adapterNamed (sourceOf req) = Some adapter ->
  (forall w0, adapter rt name w0 = (Throw e, appendTrace evs w0)) ->
  handle rt req w =
    (Ok (mkResponse 500 (Failure (message e))),
     appendTrace (EvCacheSelect (cacheKeyOf name) (sourceOf req) (nowAtLookup rt) :: evs) w).
Proof.
  intros Hname Hne Hmiss Had Hrun. unfold handle.
  rewrite (handleBody_named rt req name Hname Hne).
  unfold tryCatch, bind, cacheSelect. simpl. rewrite Hmiss, Had, Hrun.
  unfold ret. f_equal. rewrite emit_appendTrace, appendTrace_app. reflexivity.
Qed.

Lemma handle_adapter_returns rt req w name adapter rec evs :
  dishName req = Some name -> name <> "" ->
  liveRow (recipe_cache w) (cacheKeyOf name) (sourceOf req) (nowAtLookup rt) = None ->
  adapterNamed (sourceOf req) = Some adapter ->
  (forall w0, adapter rt name w0 = (Ok rec, appendTrace evs w0)) ->
  let select := EvCacheSelect (cacheKeyOf name) (sourceOf req) (nowAtLookup rt) in
  let row := mkCacheRow rec (nowAtStore rt + day) in
  handle rt req w =
    (Ok (mkResponse 200 (Success rec "api")),
     snd (storeRecipe rt rec (sourceOf req)
            (snd (cacheUpsert (cacheKeyOf name) (sourceOf req) row
                    (appendTrace (select :: evs) w))))).
Proof.
  intros Hname Hne Hmiss Had Hrun select row. subst select row. unfold handle.
  rewrite (handleBody_named rt req name Hname Hne).
  unfold tryCatch, bind, cacheSelect. simpl. rewrite Hmiss, Had, Hrun.
  rewrite emit_appendTrace, appendTrace_app.
  unfold cacheUpsert, appendTrace. simpl.
  match goal with |- context [storeRecipe rt rec (sourceOf req) ?w1] =>
    pose proof (storeRecipe_returns rt rec (sourceOf req) w1) as Hst;
    destruct (storeRecipe rt rec (sourceOf req) w1) as [r2 w2]
  end.
  simpl in Hst. subst r2. reflexivity.
Qed.

Lemma storeRecipe_trace rt rec source w :
  trace (snd (storeRecipe rt rec source w)) = (trace w ++ storeEvents rt rec source)%list.
Proof.
  unfold storeEvents.
  destruct (idToString rt (r_id rec)) as [ext | e] eqn:Hid.
  - apply (storeRecipe_row rt rec source w ext Hid).
  - rewrite (storeRecipe_no_id rt rec source w e Hid). simpl. now rewrite app_nil_r.
Qed.

Lemma storeRecipe_recipes_no_id rt rec source w e :
  idToString rt (r_id rec) = Throw e ->
  recipes (snd (storeRecipe rt rec source w)) = recipes w.
Proof. intros Hid. now rewrite (storeRecipe_no_id rt rec source w e Hid). Qed.

Lemma runs_fetchesOnly {A} svc (m : M A) r :
  fetchesOnly svc m -> runs m r ->
  exists evs, Forall (isFetchOf svc) evs /\ forall w, m w = (r, appendTrace evs w).
Proof.
  intros (r' & evs & Hevs & Hm) Hruns.
  exists evs. split; [assumption |].
  intros w. rewrite Hm. f_equal.
  specialize (Hruns w). rewrite Hm in Hruns. exact Hruns.
Qed.

(** On a miss the answer and the effects depend on the world only through
    its trace. *)
Lemma handle_miss_any_cache rt req w1 w2 name :
  dishName req = Some name -> name <> "" ->
  liveRow (recipe_cache w1) (cacheKeyOf name) (sourceOf req) (nowAtLookup rt) = None ->
  liveRow (recipe_cache w2) (cacheKeyOf name) (sourceOf req) (nowAtLookup rt) = None ->
  trace w1 = trace w2 ->
  fst (handle rt req w1) = fst (handle rt req w2) /\
  trace (snd (handle rt req w1)) = trace (snd (handle rt req w2)).
Proof.
  intros Hname Hne Hm1 Hm2 Htr.
  destruct (adapterNamed (sourceOf req)) as [adapter |] eqn:Had.
  - destruct (adapterNamed_fetches _ _ rt name Had) as (r & evs & _ & Hrun).
    destruct r as [rec | e].
    + rewrite (handle_adapter_returns rt req w1 name adapter rec evs), 
              (handle_adapter_returns rt req w2 name adapter rec evs) by assumption.
      split; [reflexivity |]. simpl. rewrite !storeRecipe_trace.
      unfold cacheUpsert, appendTrace. simpl. now rewrite Htr.
    + rewrite (handle_adapter_throws rt req w1 name adapter e evs),
              (handle_adapter_throws rt req w2 name adapter e evs) by assumption.
      split; [reflexivity |]. simpl. now rewrite Htr.
  - rewrite (handle_unknown_source rt req w1 name), (handle_unknown_source rt req w2 name)
      by assumption.
    split; [reflexivity |]. simpl. now rewrite Htr.
Qed.

Lemma handle_envelope rt req w name adapter :
  dishName req = Some name -> name <> "" ->
  liveRow (recipe_cache w) (cacheKeyOf name) (sourceOf req) (nowAtLookup rt) = None ->
  adapterNamed (sourceOf req) = Some adapter ->
  fst (handle rt req w) = Ok (envelope (fst (adapter rt name w))).
Proof.
  intros Hname Hne Hmiss Had.
  destruct (adapterNamed_fetches _ _ rt name Had) as (r & evs & _ & Hrun).
  rewrite Hrun. destruct r as [rec | e].
  - now rewrite (handle_adapter_returns rt req w name adapter rec evs).
  - now rewrite (handle_adapter_throws rt req w name adapter e evs).
Qed.

Lemma handle_answer rt req w : fst (handle rt req w) = Ok (answer rt req w).
Proof.
  unfold answer.
  destruct (dishName req) as [name |] eqn:Hname.
  2: { rewrite handle_no_name; [reflexivity | now left]. }
  destruct name as [| c name'].
  { rewrite handle_no_name; [reflexivity | now right]. }
  assert (Hne : String c name' <> "") by discriminate.
  destruct (liveRow _ _ _ _) as [row |] eqn:Hrow.
  { now rewrite (handle_hit rt req w _ row Hname Hne Hrow). }
  destruct (adapterNamed (sourceOf req)) as [adapter |] eqn:Had.
  - now apply handle_envelope.
  - now rewrite (handle_unknown_source rt req w _ Hname Hne Hrow Had).
Qed.

Lemma adapter_ignores_recipesUpsert source adapter rt f name w :
  adapterNamed source = Some adapter ->
  adapter (withRecipesUpsert f rt) name w = adapter rt name w.
Proof.
  unfold adapterNamed. intros H.
  destruct (String.eqb source "spoonacular"); [injection H as <-; reflexivity |].
  destruct (String.eqb source "edamam"); [injection H as <-; reflexivity |].
  destruct (String.eqb source "themealdb"); [injection H as <-; reflexivity |].
  discriminate.
Qed.

Lemma answer_ignores_recipesUpsert rt f req w :
  answer (withRecipesUpsert f rt) req w = answer rt req w.
Proof.
  unfold answer. simpl nowAtLookup.
  destruct (dishName req) as [[| c name'] |]; try reflexivity.
  destruct (liveRow _ _ _ _); [reflexivity |].
  destruct (adapterNamed (sourceOf req)) as [adapter |] eqn:Had; [| reflexivity].
  now rewrite (adapter_ignores_recipesUpsert _ _ rt f _ w Had).
Qed.

(** Every upstream call of a request goes to the service its source
    names, and a source that names no adapter causes none. *)
Lemma handle_events rt req w :
  exists evs,
    trace (snd (handle rt req w)) = (trace w ++ evs)%list /\
    Forall (fun ev => isFetch ev ->
                      isFetchOf (sourceOf req) ev /\ adapterNamed (sourceOf req) <> None) evs.
Proof.
  destruct (dishName req) as [name |] eqn:Hname.
  2: { exists []. rewrite handle_no_name by now left.
       simpl. rewrite app_nil_r. split; [reflexivity | constructor]. }
  destruct name as [| c name'].
  { exists []. rewrite handle_no_name by now right.
    simpl. rewrite app_nil_r. split; [reflexivity | constructor]. }
  assert (Hne : String c name' <> "") by discriminate.
  destruct (liveRow (recipe_cache w) (cacheKeyOf (String c name')) (sourceOf req)
              (nowAtLookup rt)) as [row |] eqn:Hrow.
  { rewrite (handle_hit rt req w _ row Hname Hne Hrow).
    eexists. split; [reflexivity |]. constructor; [intros [] | constructor]. }
  destruct (adapterNamed (sourceOf req)) as [adapter |] eqn:Had.
  - destruct (adapterNamed_fetches _ _ rt (String c name') Had) as (r & evs & Hevs & Hrun).
    assert (Hfetch : Forall (fun ev => isFetch ev ->
                isFetchOf (sourceOf req) ev /\ Some adapter <> None) evs).
    { eapply Forall_impl; [exact Hevs |]. intros ev Hev _. split; [exact Hev | discriminate]. }
    destruct r as [rec | e].
    + rewrite (handle_adapter_returns rt req w (String c name') adapter rec evs)
        by assumption.
      cbn [snd]. rewrite storeRecipe_trace. unfold cacheUpsert, appendTrace. simpl.
      rewrite <- !app_assoc. eexists. split; [reflexivity |].
      apply Forall_app. split; [constructor; [intros [] | exact Hfetch] |].
      apply Forall_app. split; [constructor; [intros [] | constructor] |].
      unfold storeEvents.
      destruct (idToString rt (r_id rec)); constructor; [intros [] | constructor].
    + rewrite (handle_adapter_throws rt req w (String c name') adapter e evs)
        by assumption.
      eexists. split; [reflexivity |]. constructor; [intros [] | exact Hfetch].
  - rewrite (handle_unknown_source rt req w _ Hname Hne Hrow Had).
    eexists. split; [reflexivity |]. constructor; [intros [] | constructor].
Qed.

Lemma adapterNamed_none source :
  source <> "spoonacular" -> source <> "edamam" -> source <> "themealdb" ->
  adapterNamed source = None.
Proof.
  intros H1 H2 H3. unfold adapterNamed.
  destruct (String.eqb_spec source "spoonacular"); [contradiction |].
  destruct (String.eqb_spec source "edamam"); [contradiction |].
  destruct (String.eqb_spec source "themealdb"); [contradiction | reflexivity].
Qed.

Lemma handle_cache_cases rt req w :
  recipe_cache (snd (handle rt req w)) = recipe_cache w \/
  exists name adapter row,
    adapterNamed (sourceOf req) = Some adapter /\
    recipe_cache (snd (handle rt req w)) =
      insertRow (cacheKeyOf name, sourceOf req) row (recipe_cache w).
Proof.
  destruct (dishName req) as [name |] eqn:Hname.
  2: { left. now rewrite handle_no_name by now left. }
  destruct name as [| c name'].
  { left. now rewrite handle_no_name by now right. }
  assert (Hne : String c name' <> "") by discriminate.
  destruct (liveRow (recipe_cache w) (cacheKeyOf (String c name')) (sourceOf req)
              (nowAtLookup rt)) as [row |] eqn:Hrow.
  { left. now rewrite (handle_hit rt req w _ row Hname Hne Hrow). }
  destruct (adapterNamed (sourceOf req)) as [adapter |] eqn:Had.
  - destruct (adapterNamed_fetches _ _ rt (String c name') Had) as (r & evs & _ & Hrun).
    destruct r as [rec | e].
    + right. exists (String c name'), adapter, (mkCacheRow rec (nowAtStore rt + day)).
      split; [reflexivity |].
      rewrite (handle_adapter_returns rt req w (String c name') adapter rec evs)
        by assumption.
      cbn [snd]. now rewrite storeRecipe_cache.
    + left. now rewrite (handle_adapter_throws rt req w (String c name') adapter e evs).
  - left. now rewrite (handle_unknown_source rt req w _ Hname Hne Hrow Had).
Qed.

Lemma handle_cacheSound rt req w : cacheSound w -> cacheSound (snd (handle rt req w)).
Proof.
  intros Hsound q s row.
  destruct (handle_cache_cases rt req w) as [-> | (name & adapter & row' & Had & ->)].
  - apply Hsound.
  - destruct (decide ((q, s) = (cacheKeyOf name, sourceOf req))) as [Heq | Hneq].
    + injection Heq as _ ->. intros _. rewrite Had. discriminate.
    + rewrite insertRow_other by exact Hneq. apply Hsound.
Qed.

(** The handler never caches under a source that names no adapter. *)
Lemma reachable_cacheSound w : reachable w -> cacheSound w.
Proof.
  induction 1 as [| rt req w _ IH].
  - intros q s row H. unfold emptyWorld in H. simpl in H.
    rewrite lookup_empty in H. discriminate.
  - now apply handle_cacheSound.
Qed.

Lemma cacheSound_unknown_miss w q s now :
  cacheSound w -> adapterNamed s = None -> liveRow (recipe_cache w) q s now = None.
Proof.
  intros Hsound Hnone. unfold liveRow.
  destruct (recipe_cache w !! (q, s)) as [row |] eqn:Hrow; [| reflexivity].
  exfalso. exact (Hsound q s row Hrow Hnone).
Qed.

(** ** The claims about the handler *)

(** C1. A request that names a dish and whose key (the normalized
    query, i.e. the lowercase of the trimmed dish name, and the source) has a
    row in the cache that expires strictly after the time of the lookup is
    answered with status 200 and the success envelope of origin "cache"
    carrying the row's recipe; the only effect is the cache read: no
    upstream call, no write to the cache, no write to the repository. A row
    of the key that has expired is a miss: the answer and the effects are
    those of the same request on the world without the row. *)
Theorem C1_cache_hit rt req w name row :
  dishName req = Some name -> name <> "" ->
  recipe_cache w !! (normalizedQuery name, sourceOf req) = Some row ->
  (nowAtLookup rt < expires_at row ->
   handle rt req w =
     (Ok (mkResponse 200 (Success (response_data row) "cache")),
      appendTrace [EvCacheSelect (normalizedQuery name) (sourceOf req) (nowAtLookup rt)] w))
  /\
  (expires_at row <= nowAtLookup rt ->
   let w0 := withoutRow (normalizedQuery name) (sourceOf req) w in
   fst (handle rt req w) = fst (handle rt req w0) /\
   trace (snd (handle rt req w)) = trace (snd (handle rt req w0))).
Proof.
  rewrite <- (cacheKeyOf_normalizedQuery name).
  intros Hname Hne Hrow. split.
  - intros Hlive. apply handle_hit; try assumption.
    unfold liveRow. rewrite Hrow.
    destruct (Z.ltb_spec (nowAtLookup rt) (expires_at row)); [reflexivity | lia].
  - intros Hexp w0. subst w0.
    apply (handle_miss_any_cache rt req _ _ name); try assumption.
    + unfold liveRow. rewrite Hrow.
      destruct (Z.ltb_spec (nowAtLookup rt) (expires_at row)); [lia | reflexivity].
    + unfold liveRow, withoutRow. simpl. now rewrite lookup_delete_eq.
    + reflexivity.
Qed.

Lemma C1_cache_hit_witness :
  handle noCredentials curryRequest (curryCached 2000) =
    (Ok (mkResponse 200 (Success chickenRecipe "cache")),
     appendTrace [EvCacheSelect "chicken curry" "themealdb" 1000] (curryCached 2000))
  /\
  fst (handle noCredentials curryRequest (curryCached 1000)) =
    fst (handle noCredentials curryRequest
           (withoutRow "chicken curry" "themealdb" (curryCached 1000))).
Proof.
  split.
  - apply (proj1 (C1_cache_hit noCredentials curryRequest (curryCached 2000)
                    "Chicken Curry " (mkCacheRow chickenRecipe 2000)
                    eq_refl ltac:(discriminate) eq_refl)).
    reflexivity.
  - apply (proj2 (C1_cache_hit noCredentials curryRequest (curryCached 1000)
                    "Chicken Curry " (mkCacheRow chickenRecipe 1000)
                    eq_refl ltac:(discriminate) eq_refl)).
    simpl. lia.
Defined.

(** C2, as the code has it. A request that names a dish, misses the
    cache, and whose adapter returns a recipe is answered with status 200
    and the success envelope of origin "api" carrying that recipe. After
    the upstream calls it sends one write to the cache, for the key
    (normalized query, source) and with the recipe expiring 24 hours
    (86400000 ms) after the time of the write; when the key has no row, that
    row is created. Then the recipe is sent to [recipes] if its id converts
    to a string, which is the external id: the row is stored under
    (external id, source) when the database takes it and the pair is free,
    and nothing is stored when the database refuses it. A recipe whose id
    does not convert is not sent at all. *)
Theorem C2_miss_then_store rt req w name adapter rec :
  dishName req = Some name -> name <> "" ->
  liveRow (recipe_cache w) (normalizedQuery name) (sourceOf req) (nowAtLookup rt) = None ->
  adapterNamed (sourceOf req) = Some adapter ->
  runs (adapter rt name) (Ok rec) ->
  let key := normalizedQuery name in
  let source := sourceOf req in
  let cached := mkCacheRow rec (nowAtStore rt + 86400000) in
  let w' := snd (handle rt req w) in
  fst (handle rt req w) = Ok (mkResponse 200 (Success rec "api")) /\
  (exists fetches,
     Forall isFetch fetches /\
     trace w' = (trace w ++ EvCacheSelect key source (nowAtLookup rt) :: fetches ++
                   EvCacheUpsert key source cached :: storeEvents rt rec source)%list) /\
  (recipe_cache w !! (key, source) = None ->
   recipe_cache w' = <[(key, source) := cached]> (recipe_cache w)) /\
  (forall ext, idToString rt (r_id rec) = Ok ext ->
     let row := rowOf ext source rec in
     storeEvents rt rec source = [EvRecipesUpsert row] /\
     (recipesUpsert rt row = Written -> recipes w !! (ext, source) = None ->
      recipes w' = <[(ext, source) := row]> (recipes w)) /\
     (recipesUpsert rt row <> Written -> recipes w' = recipes w)) /\
  (forall e, idToString rt (r_id rec) = Throw e ->
     storeEvents rt rec source = [] /\ recipes w' = recipes w).
Proof.
  rewrite <- (cacheKeyOf_normalizedQuery name).
  intros Hname Hne Hmiss Had Hruns key source cached w'.
  destruct (runs_fetchesOnly _ _ _ (adapterNamed_fetches _ _ rt name Had) Hruns)
    as (evs & Hevs & Hrun).
  subst w'. rewrite (handle_adapter_returns rt req w name adapter rec evs) by assumption.
  cbn [fst snd].
  change (nowAtStore rt + day) with (nowAtStore rt + 86400000).
  fold key source cached.
  set (w1 := snd (cacheUpsert key source cached
                    (appendTrace (EvCacheSelect key source (nowAtLookup rt) :: evs) w))).
  assert (Hr1 : recipes w1 = recipes w) by reflexivity.
  split; [reflexivity |]. split; [| split; [| split]].
  - exists evs. split.
    + eapply Forall_impl; [exact Hevs |]. intros [] H; try contradiction. exact I.
    + rewrite storeRecipe_trace. subst w1. cbn [snd cacheUpsert trace appendTrace].
      rewrite <- !app_assoc. reflexivity.
  - intros Hfree. rewrite storeRecipe_cache. subst w1.
    cbn [snd cacheUpsert recipe_cache appendTrace].
    now apply insertRow_free.
  - intros ext Hid. set (row := rowOf ext source rec).
    destruct (storeRecipe_row rt rec source w1 ext Hid) as [_ Hrec].
    fold row in Hrec. rewrite Hrec, Hr1.
    split; [unfold storeEvents; now rewrite Hid |]. split.
    + intros -> Hfree. now apply insertRow_free.
    + intros Hno. now destruct (recipesUpsert rt row).
  - intros e Hid. split; [unfold storeEvents; now rewrite Hid |].
    now rewrite (storeRecipe_recipes_no_id rt rec source w1 e Hid).
Qed.

Lemma C2_miss_then_store_witness :
  fst (handle noCredentials curryRequest emptyWorld) =
    Ok (mkResponse 200 (Success chickenRecipe "api")) /\
  recipe_cache (snd (handle noCredentials curryRequest emptyWorld)) =
    <[("chicken curry", "themealdb") := mkCacheRow chickenRecipe 86401500]> ∅ /\
  recipes (snd (handle noCredentials curryRequest emptyWorld)) =
    <[("52795", "themealdb") := rowOf "52795" "themealdb" chickenRecipe]> ∅.
Proof.
  pose proof (C2_miss_then_store noCredentials curryRequest emptyWorld
                "Chicken Curry " fetchFromTheMealDB chickenRecipe
                eq_refl ltac:(discriminate) eq_refl eq_refl
                (fun w => eq_refl)) as H.
  cbv zeta in H.
  destruct H as (H1 & _ & H3 & H4 & _).
  split; [exact H1 |]. split; [exact (H3 eq_refl) |].
  exact (proj1 (proj2 (H4 "52795" eq_refl)) eq_refl eq_refl).
Defined.

(** C2 as it is stated fails in two places. A row of the key that has
    expired is not overwritten: the request for the chicken curry on a cache
    whose row of that key expired at time 1000 is answered from the service,
    and the row is still the old one. And a recipe is not always sent to the
    repository: the recipe of an Edamam hit whose [uri] has no underscore has
    no id, and no write to [recipes] is made for it. *)
Lemma C2_counterexample :
  ~ (forall rt req w name adapter rec,
       dishName req = Some name -> name <> "" ->
       liveRow (recipe_cache w) (normalizedQuery name) (sourceOf req) (nowAtLookup rt) = None ->
       adapterNamed (sourceOf req) = Some adapter ->
       runs (adapter rt name) (Ok rec) ->
       recipe_cache (snd (handle rt req w)) !! (normalizedQuery name, sourceOf req) =
         Some (mkCacheRow rec (nowAtStore rt + 86400000)))
  /\
  ~ (forall rt req w name adapter rec,
       dishName req = Some name -> name <> "" ->
       liveRow (recipe_cache w) (normalizedQuery name) (sourceOf req) (nowAtLookup rt) = None ->
       adapterNamed (sourceOf req) = Some adapter ->
       runs (adapter rt name) (Ok rec) ->
       exists row, In (EvRecipesUpsert row) (trace (snd (handle rt req w)))).
Proof.
  split.
  - intros H.
    specialize (H noCredentials curryRequest (curryCached 1000) "Chicken Curry "
                  fetchFromTheMealDB chickenRecipe
                  eq_refl ltac:(discriminate) eq_refl eq_refl (fun w => eq_refl)).
    vm_compute in H. discriminate H.
  - intros H.
    destruct (H plainEdamam toastRequest emptyWorld "toast" fetchFromEdamam plainRecipe
                eq_refl ltac:(discriminate) eq_refl eq_refl (fun w => eq_refl))
      as [row Hrow].
    vm_compute in Hrow.
    repeat (destruct Hrow as [Hrow | Hrow]; [discriminate Hrow |]).
    exact Hrow.
Qed.

(** C3. A request that names a dish, misses the cache, and whose
    adapter throws (whatever the exception: no match, missing credentials,
    transport or malformed reply) is answered with status 500 and the
    failure envelope carrying the message of that exception; the cache and
    the repository are as before and no write was attempted. *)
Theorem C3_adapter_failure rt req w name adapter e :
  dishName req = Some name -> name <> "" ->
  liveRow (recipe_cache w) (normalizedQuery name) (sourceOf req) (nowAtLookup rt) = None ->
  adapterNamed (sourceOf req) = Some adapter ->
  runs (adapter rt name) (Throw e) ->
  let w' := snd (handle rt req w) in
  fst (handle rt req w) = Ok (mkResponse 500 (Failure (message e))) /\
  recipe_cache w' = recipe_cache w /\
  recipes w' = recipes w /\
  exists evs, trace w' = (trace w ++ evs)%list /\ Forall (fun ev => ~ isWrite ev) evs.
Proof.
  rewrite <- (cacheKeyOf_normalizedQuery name).
  intros Hname Hne Hmiss Had Hruns w'.
  destruct (runs_fetchesOnly _ _ _ (adapterNamed_fetches _ _ rt name Had) Hruns)
    as (evs & Hevs & Hrun).
  subst w'. rewrite (handle_adapter_throws rt req w name adapter e evs) by assumption.
  cbn [fst snd]. repeat split.
  eexists. split; [reflexivity |].
  constructor; [intros [] |].
  eapply Forall_impl; [exact Hevs |].
  intros [] Hf Hw; simpl in *; contradiction.
Qed.

Lemma C3_adapter_failure_witness :
  let req := mkRequest (Some "nothing") (Some "themealdb") in
  fst (handle noCredentials req emptyWorld) =
    Ok (mkResponse 500 (Failure "No recipes found")) /\
  recipe_cache (snd (handle noCredentials req emptyWorld)) = ∅ /\
  recipes (snd (handle noCredentials req emptyWorld)) = ∅.
Proof.
  intros req.
  pose proof (C3_adapter_failure noCredentials req emptyWorld "nothing"
                fetchFromTheMealDB (Error "No recipes found")
                eq_refl ltac:(discriminate) eq_refl eq_refl (fun w => eq_refl)) as H.
  cbv zeta in H. destruct H as (H1 & H2 & H3 & _).
  split; [exact H1 |]. split; [exact H2 | exact H3].
Defined.

(** C4, evaluated at a dish name of three spaces: the check of the
    handler lets it through, the cache is read under the empty key, TheMealDB
    is called, both tables are written and the answer is a success. *)
Lemma C4_whitespace_name_accepted :
  let req := mkRequest (Some "   ") (Some "themealdb") in
  Js.trim "   " = "" /\
  fst (handle noCredentials req emptyWorld) =
    Ok (mkResponse 200 (Success chickenRecipe "api")) /\
  trace (snd (handle noCredentials req emptyWorld)) =
    [EvCacheSelect "" "themealdb" 1000;
     EvFetch (TheMealDBSearch "   ");
     EvCacheUpsert "" "themealdb" (mkCacheRow chickenRecipe 86401500);
     EvRecipesUpsert (rowOf "52795" "themealdb" chickenRecipe)].
Proof. repeat split. Qed.

(** C5. The source of a request is its [apiSource], and "spoonacular"
    (the premium source) when it has none. On a request that names a dish
    and misses the cache the answer is the envelope of the result of
    [fetchFromSpoonacular] for "spoonacular", of [fetchFromEdamam] for
    "edamam" (the nutrition source) and of [fetchFromTheMealDB] for
    "themealdb" (the free source), and for any other source it is status 500
    with the failure "Invalid API source". Every upstream call of a request
    goes to the service of its source, and a source other than these three
    causes no upstream call at all; on a cache whose rows were all written
    for one of the three sources, as every cache the handler produces is,
    such a request is always answered with status 500 and a failure. *)
Theorem C5_dispatch rt req w :
  let source := sourceOf req in
  let unknown := source <> "spoonacular" /\ source <> "edamam" /\ source <> "themealdb" in
  (apiSource req = None ->
   handle rt req w = handle rt (mkRequest (dishName req) (Some "spoonacular")) w)
  /\
  (forall name,
     dishName req = Some name -> name <> "" ->
     liveRow (recipe_cache w) (normalizedQuery name) source (nowAtLookup rt) = None ->
     (source = "spoonacular" ->
      fst (handle rt req w) = Ok (envelope (fst (fetchFromSpoonacular rt name w)))) /\
     (source = "edamam" ->
      fst (handle rt req w) = Ok (envelope (fst (fetchFromEdamam rt name w)))) /\
     (source = "themealdb" ->
      fst (handle rt req w) = Ok (envelope (fst (fetchFromTheMealDB rt name w)))) /\
     (unknown ->
      fst (handle rt req w) = Ok (mkResponse 500 (Failure "Invalid API source"))))
  /\
  (exists evs,
     trace (snd (handle rt req w)) = (trace w ++ evs)%list /\
     Forall (fun ev => isFetch ev -> isFetchOf source ev) evs /\
     (unknown -> Forall (fun ev => ~ isFetch ev) evs))
  /\
  (unknown -> cacheSound w ->
   exists msg, fst (handle rt req w) = Ok (mkResponse 500 (Failure msg))).
Proof.
  intros source unknown. split; [| split; [| split]].
  - intros Hnone. unfold handle, handleBody. simpl. now rewrite Hnone.
  - intros name. rewrite <- (cacheKeyOf_normalizedQuery name).
    intros Hname Hne Hmiss. repeat split.
    + intros Hs. apply handle_envelope; try assumption. fold source. now rewrite Hs.
    + intros Hs. apply handle_envelope; try assumption. fold source. now rewrite Hs.
    + intros Hs. apply handle_envelope; try assumption. fold source. now rewrite Hs.
    + intros (H1 & H2 & H3).
      now rewrite (handle_unknown_source rt req w name Hname Hne Hmiss
                     (adapterNamed_none _ H1 H2 H3)).
  - destruct (handle_events rt req w) as (evs & Htr & Hevs).
    exists evs. split; [exact Htr |]. split.
    + eapply Forall_impl; [exact Hevs |]. intros ev H Hf. now apply H.
    + intros (H1 & H2 & H3).
      eapply Forall_impl; [exact Hevs |]. intros ev H Hf.
      destruct (H Hf) as [_ Hsome]. apply Hsome.
      now apply adapterNamed_none.
  - intros (H1 & H2 & H3) Hsound.
    pose proof (adapterNamed_none _ H1 H2 H3) as Hnone.
    rewrite handle_answer. unfold answer.
    destruct (dishName req) as [[| c name'] |]; try (eexists; reflexivity).
    rewrite (cacheSound_unknown_miss w _ _ _ Hsound Hnone). fold source.
    unfold source in Hnone |- *. rewrite Hnone. eexists; reflexivity.
Qed.

Lemma C5_dispatch_witness :
  handle noCredentials (mkRequest (Some "soup") None) emptyWorld =
    handle noCredentials (mkRequest (Some "soup") (Some "spoonacular")) emptyWorld
  /\
  fst (handle noCredentials curryRequest emptyWorld) =
    Ok (mkResponse 200 (Success chickenRecipe "api"))
  /\
  fst (handle noCredentials (mkRequest (Some "soup") (Some "usda")) emptyWorld) =
    Ok (mkResponse 500 (Failure "Invalid API source"))
  /\
  exists msg,
    fst (handle noCredentials (mkRequest (Some "soup") (Some "usda")) emptyWorld) =
      Ok (mkResponse 500 (Failure msg)).
Proof.
  split; [| split; [| split]].
  - apply (proj1 (C5_dispatch noCredentials (mkRequest (Some "soup") None) emptyWorld)).
    reflexivity.
  - destruct (proj1 (proj2 (C5_dispatch noCredentials curryRequest emptyWorld))
                "Chicken Curry " eq_refl ltac:(discriminate) eq_refl)
      as (_ & _ & H & _).
    exact (H eq_refl).
  - destruct (proj1 (proj2 (C5_dispatch noCredentials
                              (mkRequest (Some "soup") (Some "usda")) emptyWorld))
                "soup" eq_refl ltac:(discriminate) eq_refl)
      as (_ & _ & _ & H).
    apply H. repeat split; discriminate.
  - apply (proj2 (proj2 (proj2 (C5_dispatch noCredentials
                                  (mkRequest (Some "soup") (Some "usda")) emptyWorld)))).
    + repeat split; discriminate.
    + intros q s row H. unfold emptyWorld in H. simpl in H.
      rewrite lookup_empty in H. discriminate H.
Defined.

(** C8. The answer of the handler (status and envelope) is the same
    whatever the write to [recipes] does: stored, refused by the database,
    or an exception of the client. [storeRecipe] always returns normally,
    and the handler always answers. *)
Theorem C8_repository_failure_swallowed rt req w f g :
  fst (handle (withRecipesUpsert f rt) req w) = fst (handle (withRecipesUpsert g rt) req w) /\
  (forall rec source w0, fst (storeRecipe rt rec source w0) = Ok tt) /\
  (exists resp, fst (handle rt req w) = Ok resp).
Proof.
  split; [| split].
  - rewrite !handle_answer. f_equal.
    now rewrite !answer_ignores_recipesUpsert.
  - intros. apply storeRecipe_returns.
  - eexists. apply handle_answer.
Qed.

(** ** The free adapter *)

Lemma mealIngredient_slot fs i :
  stringOrNull (slotIngredient fs i) = true ->
  stringOrNull (slotMeasure fs i) = true ->
  mealIngredient (slotIngredient fs i) (slotMeasure fs i) =
    Ok (if present fs i then Some (ingredientAt fs i) else None).
Proof.
  unfold present, ingredientAt, mealIngredient.
  destruct (slotIngredient fs i) as [| | | | s | |]; try discriminate; try reflexivity.
  intros _ Hm. simpl.
  destruct (String.eqb_spec s "") as [-> | Hs]; [reflexivity |]. simpl.
  destruct (String.eqb (Js.trim s) ""); [reflexivity |]. simpl.
  destruct (slotMeasure fs i) as [| | | | m | |]; try discriminate; try reflexivity.
  simpl. destruct (String.eqb_spec m "") as [-> | Hm']; reflexivity.
Qed.

Lemma ingredientLoop_spec fs n : forall i acc,
  (forall j, (i <= j < i + n)%nat ->
     stringOrNull (slotIngredient fs j) = true /\ stringOrNull (slotMeasure fs j) = true) ->
  ingredientLoop (VObj fs) n i acc =
    Ok (acc ++ map (ingredientAt fs) (List.filter (present fs) (seq i n)))%list.
Proof.
  induction n as [| n IH]; intros i acc Hwf.
  - simpl. now rewrite app_nil_r.
  - destruct (Hwf i ltac:(lia)) as [Hi Hm].
    cbn [ingredientLoop Js.getProp bindR].
    fold (slotIngredient fs i). fold (slotMeasure fs i).
    rewrite (mealIngredient_slot fs i Hi Hm). cbn [bindR].
    rewrite IH by (intros j Hj; apply Hwf; lia).
    cbn [seq List.filter]. destruct (present fs i); [| reflexivity].
    cbn [map]. now rewrite <- app_assoc.
Qed.

Lemma mealRecord_slots fs :
  mealRecord fs = true ->
  forall j, (1 <= j < 1 + 20)%nat ->
    stringOrNull (slotIngredient fs j) = true /\ stringOrNull (slotMeasure fs j) = true.
Proof.
  unfold mealRecord. rewrite forallb_forall. intros H j Hj.
  apply andb_prop. apply H. apply in_seq. lia.
Qed.

Lemma mealIngredients_all fs :
  mealRecord fs = true ->
  mealIngredients (VObj fs) =
    Ok (map (ingredientAt fs) (List.filter (present fs) (seq 1 20))).
Proof.
  intros Hwf. unfold mealIngredients.
  rewrite (ingredientLoop_spec fs 20 1 []) by (apply mealRecord_slots; exact Hwf).
  reflexivity.
Qed.

Lemma filter_gap {A} (here : nat -> bool) (at_ : nat -> A) (rest : list nat) :
  here 1%nat = true -> here 2%nat = false -> here 3%nat = false ->
  here 4%nat = false -> here 5%nat = true ->
  map at_ (List.filter here (1 :: 2 :: 3 :: 4 :: 5 :: rest)%nat) =
    at_ 1%nat :: at_ 5%nat :: map at_ (List.filter here rest).
Proof.
  intros H1 H2 H3 H4 H5.
  cbn [List.filter]. rewrite H1, H2, H3, H4, H5. reflexivity.
Qed.

Lemma trim_empty_blank s : Js.trim s = "" <-> blank s = true.
Proof.
  split.
  - unfold Js.trim. induction s as [| c s IH]; [reflexivity |].
    cbn [Js.trimStart blank]. rewrite whiteCode_isWhite.
    destruct (Js.isWhite c) eqn:Hc; [exact IH |].
    cbn [Js.trimEnd]. rewrite Hc. destruct (Js.trimEnd s); intros H; discriminate H.
  - intros H. unfold Js.trim. now rewrite (trimStart_blank_only s H).
Qed.

Lemma present_filled fs i : present fs i = filled fs i.
Proof.
  unfold present, filled. destruct (slotIngredient fs i) as [| | | | s | |]; try reflexivity.
  f_equal. destruct (String.eqb_spec (Js.trim s) "") as [He | Hne].
  - symmetry. now apply trim_empty_blank.
  - destruct (blank s) eqn:Hb; [| reflexivity].
    exfalso. apply Hne. now apply trim_empty_blank.
Qed.

Lemma filter_present fs l : List.filter (present fs) l = List.filter (filled fs) l.
Proof. apply List.filter_ext. intros i. apply present_filled. Qed.

Lemma noResults_cons x l : noResults (VArr (x :: l)) = Ok false.
Proof.
  unfold noResults. cbn [Js.truthy Js.getProp bindR].
  change ("length" =? "length")%string with true. cbv iota.
  unfold Js.isZero, Js.natNum, Qeq_bool, inject_Z. cbn [Qnum Qden length Z.of_nat].
  reflexivity.
Qed.

(** C6. For a TheMealDB reply whose first meal is a record (each of its
    20 ingredient and measure fields a string, null or absent),
    [fetchFromTheMealDB] returns a recipe whose ingredients are, for the
    indices 1 to 20 in increasing order, those of exactly the indices whose
    ingredient field has something else than white space (U+0009 to U+000D,
    U+0020, U+00A0), which is what is not empty after trimming. It does not
    stop at a gap: when the field is filled at 1 and 5 and not at 2, 3 and 4
    (absent, null, empty or white space only), the list starts with the
    ingredients of 1 and of 5, followed by those of the filled indices among
    6 to 20, so it has exactly these two when none of those is filled. *)
Theorem C6_scan_all_slots rt name w data fs others :
  fetchJson rt (TheMealDBSearch name) = Ok data ->
  Js.getProp data "meals" = Ok (VArr (VObj fs :: others)) ->
  mealRecord fs = true ->
  exists rec,
    fst (fetchFromTheMealDB rt name w) = Ok rec /\
    r_ingredients rec = map (ingredientAt fs) (List.filter (filled fs) (seq 1 20)) /\
    (filled fs 1 = true -> filled fs 2 = false -> filled fs 3 = false ->
     filled fs 4 = false -> filled fs 5 = true ->
     r_ingredients rec =
       ingredientAt fs 1 :: ingredientAt fs 5
         :: map (ingredientAt fs) (List.filter (filled fs) (seq 6 15)) /\
     (List.filter (filled fs) (seq 6 15) = [] ->
      r_ingredients rec = [ingredientAt fs 1; ingredientAt fs 5])).
Proof.
  intros Hfetch Hmeals Hwf.
  assert (Hings : mealIngredients (VObj fs) =
                    Ok (map (ingredientAt fs) (List.filter (filled fs) (seq 1 20)))).
  { rewrite (mealIngredients_all fs Hwf).
    now rewrite (filter_present fs (seq 1 20)). }
  unfold fetchFromTheMealDB, bind, fetch, lift. rewrite Hfetch, Hmeals, noResults_cons.
  cbn [Js.getFirst].
  unfold mealRecipe. rewrite Hings. cbn [bindR Js.getProp fst].
  eexists. split; [reflexivity |]. cbn [r_ingredients]. split; [reflexivity |].
  intros H1 H2 H3 H4 H5.
  pose proof (filter_gap (filled fs) (ingredientAt fs) (seq 6 15) H1 H2 H3 H4 H5) as Hgap.
  split; [exact Hgap |].
  intros Hnone. rewrite Hnone in Hgap. exact Hgap.
Qed.

Lemma C6_scan_all_slots_witness :
  exists rec,
    fst (fetchFromTheMealDB noCredentials "gap" emptyWorld) = Ok rec /\
    r_ingredients rec =
      [mkIngredient (VStr "Chicken") (VStr "500g") (VStr "") (VStr "500g Chicken");
       mkIngredient (VStr "Rice") (VStr "1 cup") (VStr "")
                    (VStr ("1 cup  " ++ String "160" "Rice"))].
Proof.
  destruct (C6_scan_all_slots noCredentials "gap" emptyWorld
              (VObj [("meals", VArr [gapMeal])]) gapFields []
              eq_refl eq_refl eq_refl) as (rec & Hrec & _ & Hgap).
  exists rec. split; [exact Hrec |].
  exact (proj2 (Hgap eq_refl eq_refl eq_refl eq_refl eq_refl) eq_refl).
Defined.

Lemma ingredientLoop_step fs n i acc :
  ingredientLoop (VObj fs) (S n) i acc =
    (let? pushed := mealIngredient (slotIngredient fs i) (slotMeasure fs i) in
     ingredientLoop (VObj fs) n (S i)
       (match pushed with Some x => acc ++ [x] | None => acc end)).
Proof. reflexivity. Qed.

Lemma ingredientLoop_skip fs n : forall i acc,
  (forall j, (i <= j < i + n)%nat -> emptySlot fs j = true) ->
  ingredientLoop (VObj fs) n i acc = Ok acc.
Proof.
  induction n as [| n IH]; intros i acc Hempty; [reflexivity |].
  cbn [ingredientLoop Js.getProp bindR].
  fold (slotIngredient fs i).
  pose proof (Hempty i ltac:(lia)) as Hi. unfold emptySlot in Hi.
  unfold mealIngredient. rewrite Hi. cbn [bindR].
  apply IH. intros j Hj. apply Hempty. lia.
Qed.

(** C7. When the first match of the TheMealDB search has
    [strIngredient1 = "Chicken"], [strMeasure1 = "500g"] and every other
    ingredient slot empty, the free adapter returns a recipe whose
    ingredients are exactly the one
    [{name: "Chicken", amount: "500g", unit: "", originalString: "500g Chicken"}]. *)
Theorem C7_chicken_scenario rt name w dataFields fs others :
  fetchJson rt (TheMealDBSearch name) = Ok (VObj dataFields) ->
  Js.assoc "meals" dataFields = VArr (VObj fs :: others) ->
  slotIngredient fs 1 = VStr "Chicken" ->
  slotMeasure fs 1 = VStr "500g" ->
  forallb (emptySlot fs) (seq 2 19) = true ->
  exists rec,
    fst (fetchFromTheMealDB rt name w) = Ok rec /\
    r_ingredients rec =
      [mkIngredient (VStr "Chicken") (VStr "500g") (VStr "") (VStr "500g Chicken")].
Proof.
  intros Hfetch Hmeals Hing Hmeas Hrest.
  assert (Hings : mealIngredients (VObj fs) =
            Ok [mkIngredient (VStr "Chicken") (VStr "500g") (VStr "") (VStr "500g Chicken")]).
  { unfold mealIngredients. rewrite ingredientLoop_step, Hing, Hmeas.
    change (mealIngredient (VStr "Chicken") (VStr "500g"))
      with (Ok (Some (mkIngredient (VStr "Chicken") (VStr "500g") (VStr "")
                        (VStr "500g Chicken")))).
    cbn [bindR app].
    apply ingredientLoop_skip. intros j Hj.
    rewrite forallb_forall in Hrest. apply Hrest. apply in_seq. lia. }
  unfold fetchFromTheMealDB, bind, fetch, lift. rewrite Hfetch.
  cbn [Js.getProp]. rewrite Hmeals, noResults_cons. cbn [Js.getFirst].
  unfold mealRecipe. rewrite Hings. cbn [bindR Js.getProp fst].
  eexists. split; reflexivity.
Qed.

Lemma C7_chicken_scenario_witness :
  exists rec,
    fst (fetchFromTheMealDB noCredentials "Chicken Curry" emptyWorld) = Ok rec /\
    r_ingredients rec =
      [mkIngredient (VStr "Chicken") (VStr "500g") (VStr "") (VStr "500g Chicken")].
Proof.
  apply (C7_chicken_scenario noCredentials "Chicken Curry" emptyWorld
           [("meals", VArr [chickenMeal])]
           [("idMeal", VStr "52795"); ("strMeal", VStr "Chicken Curry");
            ("strMealThumb", VStr "https://www.themealdb.com/images/curry.jpg");
            ("strInstructions", VStr "Fry, then simmer.");
            ("strIngredient1", VStr "Chicken"); ("strMeasure1", VStr "500g");
            ("strIngredient2", VStr ""); ("strMeasure2", VStr " ");
            ("strIngredient3", VNull); ("strMeasure3", VNull)]
           []); reflexivity.
Defined.

(** C9, as the adapters have it. Without its key (absent or empty)
    [fetchFromSpoonacular] throws "Spoonacular API key not configured", and
    without one of its two credentials [fetchFromEdamam] throws "Edamam API
    credentials not configured", each before any upstream call: the world,
    trace included, is unchanged. [fetchFromTheMealDB] reads no credential:
    it behaves the same under any environment, and its first effect is
    always the search call. *)
Theorem C9_configuration rt name w :
  (env rt "SPOONACULAR_API_KEY" = None \/ env rt "SPOONACULAR_API_KEY" = Some "" ->
   fetchFromSpoonacular rt name w =
     (Throw (Error "Spoonacular API key not configured"), w))
  /\
  (env rt "EDAMAM_APP_ID" = None \/ env rt "EDAMAM_APP_ID" = Some "" \/
   env rt "EDAMAM_APP_KEY" = None \/ env rt "EDAMAM_APP_KEY" = Some "" ->
   fetchFromEdamam rt name w =
     (Throw (Error "Edamam API credentials not configured"), w))
  /\
  (forall e, fetchFromTheMealDB (withEnv e rt) name w = fetchFromTheMealDB rt name w)
  /\
  (exists evs, trace (snd (fetchFromTheMealDB rt name w)) =
               (trace w ++ EvFetch (TheMealDBSearch name) :: evs)%list).
Proof.
  split; [| split; [| split]].
  - unfold fetchFromSpoonacular. intros [H | H]; now rewrite H.
  - unfold fetchFromEdamam. intros [H | [H | [H | H]]]; rewrite H; cbn [configured].
    + reflexivity.
    + reflexivity.
    + now destruct (configured (env rt "EDAMAM_APP_ID")).
    + now destruct (configured (env rt "EDAMAM_APP_ID")).
  - reflexivity.
  - unfold fetchFromTheMealDB.
    match goal with |- context [bind (fetch rt ?c) ?k] =>
      assert (Hk : forall d, fetchesOnly "themealdb" (k d))
        by (intros d; repeat fetches_step);
      generalize dependent k
    end.
    intros k Hk. unfold bind, fetch.
    destruct (fetchJson rt (TheMealDBSearch name)) as [data | e].
    + destruct (Hk data) as (r & evs & _ & Hm). rewrite Hm.
      exists evs. simpl. now rewrite <- app_assoc.
    + exists []. reflexivity.
Qed.

Lemma C9_configuration_witness :
  fetchFromSpoonacular noCredentials "Chicken Curry" emptyWorld =
    (Throw (Error "Spoonacular API key not configured"), emptyWorld) /\
  fetchFromEdamam noCredentials "Chicken Curry" emptyWorld =
    (Throw (Error "Edamam API credentials not configured"), emptyWorld).
Proof.
  destruct (C9_configuration noCredentials "Chicken Curry" emptyWorld) as (H1 & H2 & _).
  split; [apply H1 | apply H2]; left; reflexivity.
Defined.

Example free_source_without_credentials :
  fetchFromTheMealDB noCredentials "Chicken Curry" emptyWorld =
    (Ok chickenRecipe, appendTrace [EvFetch (TheMealDBSearch "Chicken Curry")] emptyWorld).
Proof. reflexivity. Qed.

(** C9 fails for the free source: without any credential in the
    environment [fetchFromTheMealDB] does not throw before the network; it
    calls the service and returns the recipe. *)
Lemma C9_free_source_counterexample :
  ~ (forall rt name w,
       (forall k, env rt k = None) ->
       exists e, fetchFromTheMealDB rt name w = (Throw e, w)).
Proof.
  intros H.
  destruct (H noCredentials "Chicken Curry" emptyWorld (fun _ => eq_refl)) as [e He].
  rewrite free_source_without_credentials in He. discriminate He.
Qed.


(** ** The nutrition adapter *)

Ltac bindR_inv H :=
  repeat match type of H with
         | bindR ?r _ = Ok _ =>
             let E := fresh "E" in
             destruct r eqn:E; cbn [bindR] in H; [| discriminate H]
         end.

Lemma mapR_Forall2 {A B} (f : A -> result B) l : forall l',
  mapR f l = Ok l' -> Forall2 (fun x y => f x = Ok y) l l'.
Proof.
  induction l as [| x l IH]; intros l' H; cbn [mapR] in H.
  - injection H as <-. constructor.
  - bindR_inv H. injection H as <-. constructor; [assumption | now apply IH].
Qed.

Lemma edamamIngredient_amount ing out :
  edamamIngredient ing = Ok out ->
  exists q, Js.getProp ing "quantity" = Ok q /\ ing_amount out = Js.or q (VNum 1).
Proof.
  unfold edamamIngredient. intros H. bindR_inv H. injection H as <-.
  eexists. split; reflexivity.
Qed.

Lemma or_one_noQuantity q : noQuantity q -> Js.or q (VNum 1) = VNum 1.
Proof.
  intros [-> | [-> | (z & -> & Hz)]]; try reflexivity.
  unfold Js.or, Js.truthy. apply Qeq_bool_iff in Hz. now rewrite Hz.
Qed.

Lemma or_one_nonzero q z : Js.or q (VNum 1) = VNum z -> ~ Qeq z 0.
Proof.
  unfold Js.or. destruct (Js.truthy q) eqn:Ht; intros H.
  - subst q. simpl in Ht. intros Hz. apply Qeq_bool_iff in Hz.
    rewrite Hz in Ht. discriminate.
  - injection H as <-. discriminate.
Qed.

(** What [fetchFromEdamam] returns is the normalization of the recipe of
    the first hit. *)
Lemma fetchFromEdamam_first_hit rt name w appId appKey data hits hit recipe rec :
  configured (env rt "EDAMAM_APP_ID") = Some appId ->
  configured (env rt "EDAMAM_APP_KEY") = Some appKey ->
  fetchJson rt (EdamamSearch name appId appKey) = Ok data ->
  Js.getProp data "hits" = Ok hits ->
  Js.getFirst hits = Ok hit ->
  Js.getProp hit "recipe" = Ok recipe ->
  fst (fetchFromEdamam rt name w) = Ok rec ->
  edamamRecipe recipe = Ok rec.
Proof.
  intros Hid Hkey Hfetch Hhits Hhit Hrecipe.
  unfold fetchFromEdamam. rewrite Hid, Hkey.
  unfold bind, fetch, lift. rewrite Hfetch, Hhits.
  destruct (noResults hits) as [[|] | e]; cbn [fst]; try discriminate.
  now rewrite Hhit, Hrecipe.
Qed.

(** C10. In the recipe [fetchFromEdamam] returns, the ingredients are
    those of the first hit, in order, and each one whose upstream quantity
    is missing, null or 0 has the number 1 as amount; no ingredient of the
    returned recipe has the amount 0. *)
Theorem C10_edamam_quantity rt name w appId appKey data hits hit recipe ings rec :
  configured (env rt "EDAMAM_APP_ID") = Some appId ->
  configured (env rt "EDAMAM_APP_KEY") = Some appKey ->
  fetchJson rt (EdamamSearch name appId appKey) = Ok data ->
  Js.getProp data "hits" = Ok hits ->
  Js.getFirst hits = Ok hit ->
  Js.getProp hit "recipe" = Ok recipe ->
  Js.getProp recipe "ingredients" = Ok (VArr ings) ->
  fst (fetchFromEdamam rt name w) = Ok rec ->
  Forall2 (fun ing out =>
             forall q, Js.getProp ing "quantity" = Ok q -> noQuantity q ->
                       ing_amount out = VNum 1)
          ings (r_ingredients rec)
  /\
  Forall (fun out => forall z, ing_amount out = VNum z -> ~ Qeq z 0) (r_ingredients rec).
Proof.
  intros Hid Hkey Hfetch Hhits Hhit Hrecipe Hings Hret.
  pose proof (fetchFromEdamam_first_hit rt name w appId appKey data hits hit recipe rec
                Hid Hkey Hfetch Hhits Hhit Hrecipe Hret) as H.
  unfold edamamRecipe in H. bindR_inv H. injection H as <-. cbn [r_ingredients].
  injection Hings as ->.
  match goal with
  | E : optMap _ (VArr ings) _ = Ok ?outs |- _ =>
      cbn [optMap] in E; apply mapR_Forall2 in E; rename E into Hmap
  end.
  split.
  - eapply Forall2_impl; [exact Hmap |].
    intros ing out Hout q Hq Hno. cbv beta in Hout.
    destruct (edamamIngredient_amount ing out Hout) as (q' & Hq' & ->).
    rewrite Hq in Hq'. injection Hq' as <-. now apply or_one_noQuantity.
  - clear - Hmap. induction Hmap as [| ing out ings outs Hout _ IH]; constructor.
    + intros z Hz.
      destruct (edamamIngredient_amount ing out Hout) as (q & _ & Hq).
      rewrite Hq in Hz. exact (or_one_nonzero q z Hz).
    + exact IH.
Qed.

Lemma C10_edamam_quantity_witness :
  fst (fetchFromEdamam edamamCredentials "salad" emptyWorld) = Ok saladRecipe /\
  map ing_amount (r_ingredients saladRecipe) = [VNum 1; VNum 1; VNum 1; VNum 3] /\
  Forall2 (fun ing out =>
             forall q, Js.getProp ing "quantity" = Ok q -> noQuantity q ->
                       ing_amount out = VNum 1)
          saladIngredients (r_ingredients saladRecipe) /\
  Forall (fun out => forall z, ing_amount out = VNum z -> ~ Qeq z 0)
         (r_ingredients saladRecipe).
Proof.
  split; [reflexivity |]. split; [reflexivity |].
  exact (C10_edamam_quantity edamamCredentials "salad" emptyWorld "id" "key"
           (VObj [("hits", VArr [saladHit])]) (VArr [saladHit]) saladHit
           (Js.assoc "recipe" [("recipe", saladData)]) saladIngredients saladRecipe
           eq_refl eq_refl eq_refl eq_refl eq_refl eq_refl eq_refl eq_refl).
Defined.

(** ** More on the cache key *)

Lemma lowerChar_idem c : Js.lowerChar (Js.lowerChar c) = Js.lowerChar c.
Proof. destruct c as [[] [] [] [] [] [] [] []]; reflexivity. Qed.

Lemma toLowerCase_idem s : Js.toLowerCase (Js.toLowerCase s) = Js.toLowerCase s.
Proof.
  induction s as [| c s IH]; [reflexivity |].
  cbn [Js.toLowerCase]. now rewrite lowerChar_idem, IH.
Qed.

Lemma trimStart_clean s : startsClean (Js.trimStart s).
Proof.
  induction s as [| c s IH]; [exact I |].
  cbn [Js.trimStart]. destruct (Js.isWhite c) eqn:Hc; [exact IH | exact Hc].
Qed.

Lemma trimStart_of_clean s : startsClean s -> Js.trimStart s = s.
Proof. destruct s as [| c s]; [reflexivity |]. simpl. now intros ->. Qed.

Lemma trimEnd_clean s : startsClean s -> startsClean (Js.trimEnd s).
Proof.
  destruct s as [| c s]; [intros _; exact I |].
  cbn [startsClean Js.trimEnd]. intros Hc.
  destruct (Js.trimEnd s); [rewrite Hc |]; exact Hc.
Qed.

Lemma trimEnd_idem s : Js.trimEnd (Js.trimEnd s) = Js.trimEnd s.
Proof.
  induction s as [| c s IH]; [reflexivity |].
  cbn [Js.trimEnd]. destruct (Js.trimEnd s) as [| c' t] eqn:Ht.
  - destruct (Js.isWhite c) eqn:Hc; [reflexivity |].
    cbn [Js.trimEnd]. now rewrite Hc.
  - change (Js.trimEnd (String c (String c' t)))
      with (match Js.trimEnd (String c' t) with
            | "" => if Js.isWhite c then "" else String c ""
            | u => String c u
            end).
    now rewrite IH.
Qed.

Lemma trim_idem s : Js.trim (Js.trim s) = Js.trim s.
Proof.
  unfold Js.trim.
  rewrite (trimStart_of_clean (Js.trimEnd (Js.trimStart s)))
    by (apply trimEnd_clean, trimStart_clean).
  apply trimEnd_idem.
Qed.

Lemma toLowerCase_trim s : Js.toLowerCase (Js.trim s) = Js.trim (Js.toLowerCase s).
Proof. unfold Js.trim. now rewrite toLowerCase_trimEnd, toLowerCase_trimStart. Qed.

Lemma cacheKeyOf_idem name : cacheKeyOf (cacheKeyOf name) = cacheKeyOf name.
Proof.
  unfold cacheKeyOf. now rewrite toLowerCase_trim, trim_idem, toLowerCase_idem.
Qed.

Lemma toLowerCase_app a b :
  Js.toLowerCase (a ++ b) = Js.toLowerCase a ++ Js.toLowerCase b.
Proof.
  induction a as [| c a IH]; [reflexivity |].
  change (String c a ++ b) with (String c (a ++ b)).
  cbn [Js.toLowerCase]. rewrite IH. reflexivity.
Qed.

Lemma capital_lowerChar c :
  Js.lowerChar c = if capital c then ascii_of_nat (nat_of_ascii c + 32) else c.
Proof. reflexivity. Qed.

Lemma capital_small c : capital c = true -> capital (ascii_of_nat (nat_of_ascii c + 32)) = false.
Proof. destruct c as [[] [] [] [] [] [] [] []]; cbn; intros H; try discriminate H; reflexivity. Qed.

Lemma small_of_capital c d :
  capital c = true -> (nat_of_ascii d =? nat_of_ascii c + 32)%nat = true ->
  Js.lowerChar c = Js.lowerChar d.
Proof.
  intros Hc Hd. apply Nat.eqb_eq in Hd.
  assert (Hd' : d = ascii_of_nat (nat_of_ascii c + 32))
    by (now rewrite <- Hd, ascii_nat_embedding).
  rewrite (capital_lowerChar c), (capital_lowerChar d), Hc, Hd'.
  now rewrite (capital_small c Hc).
Qed.

Lemma capital_bound c : capital c = true -> (nat_of_ascii c + 32 < 256)%nat.
Proof.
  intros Hc. apply Nat.ltb_lt. revert Hc.
  destruct c as [[] [] [] [] [] [] [] []]; vm_compute; intros Hc;
    first [exact Hc | reflexivity].
Qed.

Lemma sameLetter_lowerChar c d : sameLetter c d = true <-> Js.lowerChar c = Js.lowerChar d.
Proof.
  unfold sameLetter. split.
  - intros H. apply orb_prop in H as [H | H]; [apply orb_prop in H as [H | H] |].
    + apply Ascii.eqb_eq in H. now subst.
    + apply andb_prop in H as [Hc Hd]. now apply small_of_capital.
    + apply andb_prop in H as [Hd Hc]. symmetry. now apply small_of_capital.
  - intros H. rewrite (capital_lowerChar c), (capital_lowerChar d) in H.
    destruct (capital c) eqn:Hc, (capital d) eqn:Hd; cbn [andb orb].
    + assert (Heq : c = d).
      { apply (f_equal nat_of_ascii) in H.
        rewrite !nat_ascii_embedding in H by now apply capital_bound.
        rewrite <- (ascii_nat_embedding c), <- (ascii_nat_embedding d).
        f_equal. lia. }
      subst. now rewrite Ascii.eqb_refl.
    + subst d. rewrite nat_ascii_embedding by now apply capital_bound.
      rewrite Nat.eqb_refl. now rewrite orb_true_r.
    + subst c. rewrite nat_ascii_embedding by now apply capital_bound.
      rewrite Nat.eqb_refl. now rewrite orb_true_r.
    + subst. now rewrite Ascii.eqb_refl.
Qed.

Lemma sameUpToCase_toLowerCase a : forall b,
  sameUpToCase a b = true <-> Js.toLowerCase a = Js.toLowerCase b.
Proof.
  induction a as [| c a IH]; intros [| d b]; cbn [sameUpToCase Js.toLowerCase];
    try (split; [reflexivity || discriminate | reflexivity || discriminate]).
  rewrite andb_true_iff, sameLetter_lowerChar, IH. split.
  - now intros [-> ->].
  - intros H. now injection H.
Qed.

Lemma blank_toLowerCase p : blank (Js.toLowerCase p) = blank p.
Proof.
  induction p as [| c p IH]; [reflexivity |].
  cbn [Js.toLowerCase blank]. now rewrite !whiteCode_isWhite, isWhite_lowerChar, IH.
Qed.

Lemma endsClean_toLowerCase s : endsClean (Js.toLowerCase s) = endsClean s.
Proof.
  induction s as [| c [| c' s] IH]; [reflexivity | |].
  - cbn [Js.toLowerCase endsClean]. now rewrite !whiteCode_isWhite, isWhite_lowerChar.
  - exact IH.
Qed.

Lemma tight_toLowerCase s : tight (Js.toLowerCase s) = tight s.
Proof.
  destruct s as [| c s]; [reflexivity |].
  change (Js.toLowerCase (String c s)) with (String (Js.lowerChar c) (Js.toLowerCase s)).
  unfold tight.
  change (String (Js.lowerChar c) (Js.toLowerCase s)) with (Js.toLowerCase (String c s)).
  now rewrite endsClean_toLowerCase, !whiteCode_isWhite, isWhite_lowerChar.
Qed.

Lemma trimStart_blank p s : blank p = true -> Js.trimStart (p ++ s) = Js.trimStart s.
Proof.
  induction p as [| c p IH]; [reflexivity |].
  cbn [blank]. intros H. apply andb_prop in H as [Hc Hp].
  change (String c p ++ s) with (String c (p ++ s)).
  cbn [Js.trimStart]. rewrite <- whiteCode_isWhite, Hc. now apply IH.
Qed.

Lemma trimEnd_blank_only p : blank p = true -> Js.trimEnd p = "".
Proof.
  induction p as [| c p IH]; [reflexivity |].
  cbn [blank]. intros H. apply andb_prop in H as [Hc Hp].
  cbn [Js.trimEnd]. rewrite (IH Hp), <- whiteCode_isWhite, Hc. reflexivity.
Qed.

Lemma trimEnd_blank s p : blank p = true -> Js.trimEnd (s ++ p) = Js.trimEnd s.
Proof.
  intros Hp. induction s as [| c s IH].
  - change ("" ++ p) with p. now apply trimEnd_blank_only.
  - change (String c s ++ p) with (String c (s ++ p)).
    cbn [Js.trimEnd]. now rewrite IH.
Qed.

Lemma trimEnd_endsClean s : endsClean s = true -> Js.trimEnd s = s.
Proof.
  induction s as [| c [| c' s] IH]; [reflexivity | |].
  - cbn [endsClean Js.trimEnd]. rewrite whiteCode_isWhite. now destruct (Js.isWhite c).
  - intros H. change (endsClean (String c (String c' s))) with (endsClean (String c' s)) in H.
    change (Js.trimEnd (String c (String c' s)))
      with (match Js.trimEnd (String c' s) with
            | "" => if Js.isWhite c then "" else String c ""
            | u => String c u
            end).
    now rewrite (IH H).
Qed.

(** The key of a name between white space is the lower case of the
    name. *)
Lemma cacheKeyOf_padded p1 a p2 :
  blank p1 = true -> blank p2 = true -> tight a = true ->
  cacheKeyOf (p1 ++ a ++ p2) = Js.toLowerCase a.
Proof.
  intros H1 H2 Ha. unfold cacheKeyOf, Js.trim.
  rewrite !toLowerCase_app.
  rewrite trimStart_blank by now rewrite blank_toLowerCase.
  rewrite <- tight_toLowerCase in Ha. rewrite <- blank_toLowerCase in H2.
  destruct (Js.toLowerCase a) as [| c la] eqn:Hla.
  - change ("" ++ Js.toLowerCase p2) with (Js.toLowerCase p2).
    now rewrite (trimStart_blank_only _ H2).
  - cbn [tight] in Ha. apply andb_prop in Ha as [Hc He].
    change (String c la ++ Js.toLowerCase p2) with (String c (la ++ Js.toLowerCase p2)).
    cbn [Js.trimStart]. rewrite <- whiteCode_isWhite.
    destruct (whiteCode c); [discriminate Hc |].
    change (String c (la ++ Js.toLowerCase p2)) with (String c la ++ Js.toLowerCase p2).
    rewrite trimEnd_blank by exact H2. now apply trimEnd_endsClean.
Qed.

Lemma capital_of_lowerChar c : capital (Js.lowerChar c) = false.
Proof. destruct c as [[] [] [] [] [] [] [] []]; reflexivity. Qed.

Lemma noCapital_toLowerCase s : noCapital (Js.toLowerCase s) = true.
Proof.
  induction s as [| c s IH]; [reflexivity |].
  cbn [Js.toLowerCase noCapital]. now rewrite capital_of_lowerChar, IH.
Qed.

(** X1. The key the handler caches a dish name under is the name without
    the white space around it (U+0009 to U+000D, U+0020, U+00A0) and with
    its capital letters made small: two names get the same key exactly when,
    the white space around them apart, they are the same up to the case of
    their letters, so white space inside a name counts. The key has no
    capital letter and no white space at its ends, and it is its own key. *)
Theorem cacheKeyOf_insensitive a b p1 p2 p3 p4 :
  blank p1 = true -> blank p2 = true -> blank p3 = true -> blank p4 = true ->
  tight a = true -> tight b = true ->
  (cacheKeyOf (p1 ++ a ++ p2) = cacheKeyOf (p3 ++ b ++ p4) <-> sameUpToCase a b = true) /\
  sameUpToCase (cacheKeyOf (p1 ++ a ++ p2)) a = true /\
  noCapital (cacheKeyOf (p1 ++ a ++ p2)) = true /\
  tight (cacheKeyOf (p1 ++ a ++ p2)) = true /\
  cacheKeyOf (cacheKeyOf (p1 ++ a ++ p2)) = cacheKeyOf (p1 ++ a ++ p2).
Proof.
  intros H1 H2 H3 H4 Ha Hb.
  rewrite (cacheKeyOf_padded p1 a p2 H1 H2 Ha), (cacheKeyOf_padded p3 b p4 H3 H4 Hb).
  split; [| split; [| split; [| split]]].
  - symmetry. apply sameUpToCase_toLowerCase.
  - apply sameUpToCase_toLowerCase, toLowerCase_idem.
  - apply noCapital_toLowerCase.
  - now rewrite tight_toLowerCase.
  - rewrite <- (cacheKeyOf_padded p1 a p2 H1 H2 Ha). apply cacheKeyOf_idem.
Qed.

Lemma cacheKeyOf_insensitive_witness :
  cacheKeyOf (whitePad ++ cremeShouted " " ++ String "160" " ") = cacheKeyOf (cremeSmall " ") /\
  cacheKeyOf (cremeSmall " ") = cremeSmall " " /\
  cacheKeyOf (cremeSmall "  ") <> cacheKeyOf (cremeSmall " ").
Proof.
  split; [| split].
  - apply (proj1 (cacheKeyOf_insensitive (cremeShouted " ") (cremeSmall " ")
                    whitePad (String "160" " ") "" ""
                    eq_refl eq_refl eq_refl eq_refl eq_refl eq_refl)).
    reflexivity.
  - reflexivity.
  - intros H.
    apply (proj1 (cacheKeyOf_insensitive (cremeSmall "  ") (cremeSmall " ") "" "" "" ""
                    eq_refl eq_refl eq_refl eq_refl eq_refl eq_refl)) in H.
    vm_compute in H. discriminate H.
Defined.

(** ** Requests one after the other *)

Lemma handle_returns_cache rt req w name adapter rec :
  dishName req = Some name -> name <> "" ->
  liveRow (recipe_cache w) (cacheKeyOf name) (sourceOf req) (nowAtLookup rt) = None ->
  adapterNamed (sourceOf req) = Some adapter ->
  runs (adapter rt name) (Ok rec) ->
  recipe_cache (snd (handle rt req w)) =
    insertRow (cacheKeyOf name, sourceOf req) (mkCacheRow rec (nowAtStore rt + day))
      (recipe_cache w).
Proof.
  intros Hname Hne Hmiss Had Hruns.
  destruct (runs_fetchesOnly _ _ _ (adapterNamed_fetches _ _ rt name Had) Hruns)
    as (evs & _ & Hrun).
  rewrite (handle_adapter_returns rt req w name adapter rec evs) by assumption.
  cbn [snd]. now rewrite storeRecipe_cache.
Qed.

(** X2. After a request for a key that has no row in the cache and whose
    adapter returned a recipe, any request for the same source whose dish
    name has the same key, looked up less than 24 hours after the write, is
    answered from the cache with that same recipe and with the cache read as
    its only effect, whatever the upstream services and the credentials are
    by then. *)
Theorem repeat_request_hits_cache rt1 rt2 req1 req2 w name1 name2 adapter rec :
  dishName req1 = Some name1 -> name1 <> "" ->
  recipe_cache w !! (cacheKeyOf name1, sourceOf req1) = None ->
  adapterNamed (sourceOf req1) = Some adapter ->
  runs (adapter rt1 name1) (Ok rec) ->
  dishName req2 = Some name2 -> name2 <> "" ->
  cacheKeyOf name2 = cacheKeyOf name1 ->
  sourceOf req2 = sourceOf req1 ->
  nowAtLookup rt2 < nowAtStore rt1 + 86400000 ->
  handle rt2 req2 (snd (handle rt1 req1 w)) =
    (Ok (mkResponse 200 (Success rec "cache")),
     appendTrace [EvCacheSelect (cacheKeyOf name2) (sourceOf req2) (nowAtLookup rt2)]
                 (snd (handle rt1 req1 w))).
Proof.
  intros Hname1 Hne1 Hfree Had Hruns Hname2 Hne2 Hkey Hsrc Hfresh.
  assert (Hmiss : liveRow (recipe_cache w) (cacheKeyOf name1) (sourceOf req1)
                    (nowAtLookup rt1) = None)
    by (unfold liveRow; now rewrite Hfree).
  apply (handle_hit rt2 req2 _ name2 (mkCacheRow rec (nowAtStore rt1 + day)));
    try assumption.
  rewrite Hkey, Hsrc. unfold liveRow.
  rewrite (handle_returns_cache rt1 req1 w name1 adapter rec) by assumption.
  rewrite insertRow_at, Hfree. cbn [expires_at].
  change day with 86400000.
  destruct (Z.ltb_spec (nowAtLookup rt2) (nowAtStore rt1 + 86400000)); [reflexivity | lia].
Qed.

Lemma repeat_request_hits_cache_witness :
  handle offlineLater shoutedRequest (snd (handle noCredentials curryRequest emptyWorld)) =
    (Ok (mkResponse 200 (Success chickenRecipe "cache")),
     appendTrace [EvCacheSelect "chicken curry" "themealdb" 5000]
                 (snd (handle noCredentials curryRequest emptyWorld))).
Proof.
  apply (repeat_request_hits_cache noCredentials offlineLater curryRequest shoutedRequest
           emptyWorld "Chicken Curry " "  CHICKEN Curry" fetchFromTheMealDB chickenRecipe
           eq_refl ltac:(discriminate) eq_refl eq_refl (fun w => eq_refl)
           eq_refl ltac:(discriminate) eq_refl eq_refl eq_refl).
Defined.

(** X3. A row that has expired is never served and never replaced. A
    request that finds an expired row under its key is answered with the
    envelope of a fresh run of its adapter, and whatever the adapter returns
    the cache is afterwards what it was: the write of the new row is refused,
    the pair being taken. So every later request for that key runs the
    adapter again, and a failure of the service is then a failure of the
    request. *)
Theorem expired_row_not_served rt req w name row adapter :
  dishName req = Some name -> name <> "" ->
  recipe_cache w !! (cacheKeyOf name, sourceOf req) = Some row ->
  expires_at row <= nowAtLookup rt ->
  adapterNamed (sourceOf req) = Some adapter ->
  let w' := snd (handle rt req w) in
  fst (handle rt req w) = Ok (envelope (fst (adapter rt name w))) /\
  recipe_cache w' = recipe_cache w /\
  (forall rt' req' name',
     dishName req' = Some name' -> name' <> "" ->
     cacheKeyOf name' = cacheKeyOf name -> sourceOf req' = sourceOf req ->
     expires_at row <= nowAtLookup rt' ->
     fst (handle rt' req' w') = Ok (envelope (fst (adapter rt' name' w'))) /\
     recipe_cache (snd (handle rt' req' w')) = recipe_cache w).
Proof.
  intros Hname Hne Hrow Hexp Had w'.
  assert (Hstale : forall (rt0 : Runtime) (w0 : World),
            recipe_cache w0 = recipe_cache w -> expires_at row <= nowAtLookup rt0 ->
            liveRow (recipe_cache w0) (cacheKeyOf name) (sourceOf req) (nowAtLookup rt0) = None).
  { intros rt0 w0 Hw0 H0. unfold liveRow. rewrite Hw0, Hrow.
    destruct (Z.ltb_spec (nowAtLookup rt0) (expires_at row)); [lia | reflexivity]. }
  assert (Hsame : forall rt0 req0 name0 w0,
            dishName req0 = Some name0 -> name0 <> "" ->
            cacheKeyOf name0 = cacheKeyOf name -> sourceOf req0 = sourceOf req ->
            recipe_cache w0 = recipe_cache w -> expires_at row <= nowAtLookup rt0 ->
            fst (handle rt0 req0 w0) = Ok (envelope (fst (adapter rt0 name0 w0))) /\
            recipe_cache (snd (handle rt0 req0 w0)) = recipe_cache w).
  { intros rt0 req0 name0 w0 Hname0 Hne0 Hkey Hsrc Hw0 H0.
    assert (Hmiss : liveRow (recipe_cache w0) (cacheKeyOf name0) (sourceOf req0)
                      (nowAtLookup rt0) = None)
      by (rewrite Hkey, Hsrc; now apply Hstale).
    assert (Had0 : adapterNamed (sourceOf req0) = Some adapter) by now rewrite Hsrc.
    split; [now apply handle_envelope |].
    destruct (adapterNamed_fetches _ _ rt0 name0 Had0) as (r & evs & _ & Hrun).
    destruct r as [rec | e].
    - rewrite (handle_adapter_returns rt0 req0 w0 name0 adapter rec evs) by assumption.
      cbn [snd]. rewrite storeRecipe_cache.
      cbn [snd cacheUpsert recipe_cache appendTrace].
      rewrite Hkey, Hsrc, Hw0. now apply insertRow_taken with row.
    - rewrite (handle_adapter_throws rt0 req0 w0 name0 adapter e evs) by assumption.
      exact Hw0. }
  destruct (Hsame rt req name w Hname Hne eq_refl eq_refl eq_refl Hexp) as [Hfst Hcache].
  split; [exact Hfst |]. split; [exact Hcache |].
  intros rt' req' name' Hname' Hne' Hkey Hsrc Hexp'.
  now apply Hsame.
Qed.

Lemma expired_row_not_served_witness :
  fst (handle noCredentials curryRequest (curryCached 1000)) =
    Ok (mkResponse 200 (Success chickenRecipe "api")) /\
  recipe_cache (snd (handle noCredentials curryRequest (curryCached 1000))) =
    recipe_cache (curryCached 1000) /\
  fst (handle offlineNextDay shoutedRequest
         (snd (handle noCredentials curryRequest (curryCached 1000)))) =
    Ok (mkResponse 500 (Failure "error sending request")).
Proof.
  destruct (expired_row_not_served noCredentials curryRequest (curryCached 1000)
              "Chicken Curry " (mkCacheRow chickenRecipe 1000) fetchFromTheMealDB
              eq_refl ltac:(discriminate) eq_refl ltac:(simpl; lia) eq_refl)
    as (H1 & H2 & H3).
  split; [exact H1 |]. split; [exact H2 |].
  exact (proj1 (H3 offlineNextDay shoutedRequest "  CHICKEN Curry"
                  eq_refl ltac:(discriminate) eq_refl eq_refl ltac:(simpl; lia))).
Defined.

(** ** What a request does to the tables *)

Lemma handle_tables rt req w :
  let w' := snd (handle rt req w) in
  (recipe_cache w' = recipe_cache w /\ recipes w' = recipes w) \/
  exists name adapter rec,
    dishName req = Some name /\
    adapterNamed (sourceOf req) = Some adapter /\
    fst (handle rt req w) = Ok (mkResponse 200 (Success rec "api")) /\
    recipe_cache w' =
      insertRow (cacheKeyOf name, sourceOf req) (mkCacheRow rec (nowAtStore rt + day))
        (recipe_cache w) /\
    (recipes w' = recipes w \/
     exists ext, idToString rt (r_id rec) = Ok ext /\
                 recipes w' =
                   insertRow (ext, sourceOf req) (rowOf ext (sourceOf req) rec) (recipes w)).
Proof.
  intros w'. subst w'.
  destruct (dishName req) as [name |] eqn:Hname.
  2: { left. now rewrite handle_no_name by now left. }
  destruct name as [| c name'].
  { left. now rewrite handle_no_name by now right. }
  assert (Hne : String c name' <> "") by discriminate.
  destruct (liveRow (recipe_cache w) (cacheKeyOf (String c name')) (sourceOf req)
              (nowAtLookup rt)) as [row |] eqn:Hrow.
  { left. now rewrite (handle_hit rt req w _ row Hname Hne Hrow). }
  destruct (adapterNamed (sourceOf req)) as [adapter |] eqn:Had.
  - destruct (adapterNamed_fetches _ _ rt (String c name') Had) as (r & evs & _ & Hrun).
    destruct r as [rec | e].
    + right. exists (String c name'), adapter, rec.
      split; [reflexivity |]. split; [reflexivity |].
      rewrite (handle_adapter_returns rt req w (String c name') adapter rec evs)
        by assumption.
      cbn [fst snd]. split; [reflexivity |]. split; [now rewrite storeRecipe_cache |].
      destruct (idToString rt (r_id rec)) as [ext | e] eqn:Hid.
      * match goal with |- context [storeRecipe rt rec (sourceOf req) ?w1] =>
          destruct (storeRecipe_row rt rec (sourceOf req) w1 ext Hid) as [_ Hrec]
        end.
        rewrite Hrec.
        destruct (recipesUpsert rt (rowOf ext (sourceOf req) rec));
          [right | now left | now left].
        exists ext. split; reflexivity.
      * left. now rewrite (storeRecipe_no_id rt rec (sourceOf req) _ e Hid).
    + left. now rewrite (handle_adapter_throws rt req w (String c name') adapter e evs).
  - left. now rewrite (handle_unknown_source rt req w _ Hname Hne Hrow Had).
Qed.

(** X4. A request never changes or removes a row that is in a table. It
    adds at most one row to the cache, under the key of its dish name and its
    source, holding the recipe it answers with and expiring 24 hours after
    the write; and at most one row to [recipes], under the printed id of that
    recipe and its source. Both only when it answers from the service. *)
Theorem handle_frame rt req w :
  let w' := snd (handle rt req w) in
  (forall k row, recipe_cache w !! k = Some row -> recipe_cache w' !! k = Some row) /\
  (forall k row, recipes w !! k = Some row -> recipes w' !! k = Some row) /\
  (forall k, recipe_cache w' !! k <> recipe_cache w !! k ->
     exists name rec,
       dishName req = Some name /\ k = (cacheKeyOf name, sourceOf req) /\
       fst (handle rt req w) = Ok (mkResponse 200 (Success rec "api")) /\
       recipe_cache w !! k = None /\
       recipe_cache w' !! k = Some (mkCacheRow rec (nowAtStore rt + 86400000))) /\
  (forall k, recipes w' !! k <> recipes w !! k ->
     exists rec ext,
       fst (handle rt req w) = Ok (mkResponse 200 (Success rec "api")) /\
       idToString rt (r_id rec) = Ok ext /\ k = (ext, sourceOf req) /\
       recipes w !! k = None /\
       recipes w' !! k = Some (rowOf ext (sourceOf req) rec)) /\
  (forall k1 k2, recipe_cache w' !! k1 <> recipe_cache w !! k1 ->
                 recipe_cache w' !! k2 <> recipe_cache w !! k2 -> k1 = k2) /\
  (forall k1 k2, recipes w' !! k1 <> recipes w !! k1 ->
                 recipes w' !! k2 <> recipes w !! k2 -> k1 = k2).
Proof.
  intros w'.
  assert (Hchanged : forall {V} (table : gmap (string * string) V) key (row : V) k,
            insertRow key row table !! k <> table !! k ->
            k = key /\ table !! k = None /\ insertRow key row table !! k = Some row).
  { intros V table key row k Hdiff.
    destruct (decide (k = key)) as [-> | Hneq].
    - split; [reflexivity |]. rewrite insertRow_at in Hdiff |- *.
      destruct (table !! key); [contradiction | now split].
    - now rewrite insertRow_other in Hdiff. }
  destruct (handle_tables rt req w)
    as [[Hc Hr] | (name & adapter & rec & Hname & _ & Hfst & Hc & Hr)];
    fold w' in Hc, Hr.
  { rewrite Hc, Hr. repeat split; try tauto; intros; congruence. }
  assert (Hcache : forall k, recipe_cache w' !! k <> recipe_cache w !! k ->
            k = (cacheKeyOf name, sourceOf req) /\ recipe_cache w !! k = None /\
            recipe_cache w' !! k = Some (mkCacheRow rec (nowAtStore rt + 86400000))).
  { intros k. rewrite Hc. apply Hchanged. }
  assert (Hrecipes : forall k, recipes w' !! k <> recipes w !! k ->
            exists ext, idToString rt (r_id rec) = Ok ext /\ k = (ext, sourceOf req) /\
                        recipes w !! k = None /\
                        recipes w' !! k = Some (rowOf ext (sourceOf req) rec)).
  { intros k Hdiff. destruct Hr as [Hr | (ext & Hid & Hr)]; rewrite Hr in Hdiff |- *.
    - contradiction.
    - exists ext. split; [exact Hid |]. now apply Hchanged. }
  split; [| split; [| split; [| split; [| split]]]].
  - intros k row Hk. rewrite Hc. now apply insertRow_keeps.
  - intros k row Hk. destruct Hr as [-> | (ext & _ & ->)]; [exact Hk |].
    now apply insertRow_keeps.
  - intros k Hdiff. destruct (Hcache k Hdiff) as (-> & Hnone & Hsome).
    exists name, rec. now repeat split.
  - intros k Hdiff. destruct (Hrecipes k Hdiff) as (ext & Hid & -> & Hnone & Hsome).
    exists rec, ext. now repeat split.
  - intros k1 k2 H1 H2.
    destruct (Hcache k1 H1) as (-> & _), (Hcache k2 H2) as (-> & _). reflexivity.
  - intros k1 k2 H1 H2.
    destruct (Hrecipes k1 H1) as (e1 & Hid1 & -> & _), (Hrecipes k2 H2) as (e2 & Hid2 & -> & _).
    congruence.
Qed.

Lemma handle_frame_witness :
  let w := curryCached 1000 in
  recipe_cache (snd (handle noCredentials curryRequest w))
    !! ("chicken curry", "themealdb") = Some (mkCacheRow chickenRecipe 1000) /\
  exists rec,
    recipe_cache (snd (handle noCredentials (mkRequest (Some "soup") (Some "themealdb")) w))
      !! ("soup", "themealdb") = Some (mkCacheRow rec 86401500).
Proof.
  intros w. split.
  - apply (proj1 (handle_frame noCredentials curryRequest w)). reflexivity.
  - destruct (proj1 (proj2 (proj2 (handle_frame noCredentials
                                      (mkRequest (Some "soup") (Some "themealdb")) w)))
                ("soup", "themealdb")) as (name & rec & Hname & _ & Hfst & _ & Hrow).
    + intros H. vm_compute in H. discriminate H.
    + exists rec. exact Hrow.
Defined.

(** X5. The handler always answers, and the status and the envelope
    agree: either status 200 with a success envelope whose origin is "cache"
    or "api", or status 500 with a failure envelope. *)
Theorem handle_response_shape rt req w :
  exists resp,
    fst (handle rt req w) = Ok resp /\
    ((status resp = 200 /\
      exists data origin, body resp = Success data origin /\
                          (origin = "cache" \/ origin = "api")) \/
     (status resp = 500 /\ exists msg, body resp = Failure msg)).
Proof.
  exists (answer rt req w). split; [apply handle_answer |].
  unfold answer.
  destruct (dishName req) as [[| c name'] |];
    try solve [right; split; [reflexivity | eexists; reflexivity]].
  destruct (liveRow _ _ _ _) as [row |].
  { left. split; [reflexivity |]. do 2 eexists. split; [reflexivity | now left]. }
  destruct (adapterNamed (sourceOf req)) as [adapter |];
    [| right; split; [reflexivity | eexists; reflexivity]].
  destruct (fst (adapter rt (String c name') w)) as [rec | e]; cbn [envelope].
  - left. split; [reflexivity |]. do 2 eexists. split; [reflexivity | now right].
  - right. split; [reflexivity | eexists; reflexivity].
Qed.

(** X6. Whatever requests were handled since the tables were empty, every
    key of the cache is a normalized dish name under one of the three
    sources, and every row of [recipes] sits under its own external id and
    source, one of the three. *)
Theorem reachable_tablesSound w : reachable w -> tablesSound w.
Proof.
  induction 1 as [| rt req w _ [IHc IHr]].
  - split; intros ? ? ? H; unfold emptyWorld in H; simpl in H;
      rewrite lookup_empty in H; discriminate.
  - destruct (handle_tables rt req w)
      as [[Hc Hr] | (name & adapter & rec & Hname & Had & _ & Hc & Hr)].
    { split; [rewrite Hc | rewrite Hr]; assumption. }
    split.
    + intros q s row' Hlook. rewrite Hc in Hlook.
      destruct (decide ((q, s) = (cacheKeyOf name, sourceOf req))) as [Heq | Hneq].
      * injection Heq as -> ->. split.
        -- apply cacheKeyOf_idem.
        -- rewrite Had. discriminate.
      * rewrite insertRow_other in Hlook by exact Hneq. now apply IHc with row'.
    + intros e s rrow' Hlook.
      destruct Hr as [Hr | (ext & Hid & Hr)]; rewrite Hr in Hlook.
      * now apply IHr.
      * destruct (decide ((e, s) = (ext, sourceOf req))) as [Heq | Hneq].
        -- injection Heq as -> ->. rewrite insertRow_at in Hlook.
           destruct (recipes w !! (ext, sourceOf req)) as [old |] eqn:Hold.
           ++ injection Hlook as <-. now apply IHr.
           ++ injection Hlook as <-. repeat split. rewrite Had. discriminate.
        -- rewrite insertRow_other in Hlook by exact Hneq. now apply IHr.
Qed.

Lemma reachable_tablesSound_witness :
  tablesSound (snd (handle offlineLater shoutedRequest
                      (snd (handle noCredentials curryRequest emptyWorld)))).
Proof.
  apply reachable_tablesSound.
  apply reach_handle, reach_handle, reach_empty.
Defined.

(** ** How many upstream calls, and in which order *)

Lemma calls_throw {A} n e : callsAtMost n (@throw A e).
Proof.
  exists (Throw e), []. split; [simpl; lia |]. split; [constructor |].
  intros w. unfold throw. now rewrite appendTrace_nil.
Qed.

Lemma calls_lift {A} n (r : result A) : callsAtMost n (lift r).
Proof.
  exists r, []. split; [simpl; lia |]. split; [constructor |].
  intros w. unfold lift. now rewrite appendTrace_nil.
Qed.

Lemma calls_bind_lift {A B} n (r : result A) (k : A -> M B) :
  (forall a, callsAtMost n (k a)) -> callsAtMost n (bind (lift r) k).
Proof.
  intros Hk. destruct r as [a | e].
  - destruct (Hk a) as (r2 & evs & Hlen & Hevs & Hrun).
    exists r2, evs. repeat split; try assumption.
  - exists (Throw e), []. split; [simpl; lia |]. split; [constructor |].
    intros w. unfold bind, lift. now rewrite appendTrace_nil.
Qed.

Lemma calls_bind_fetch {A} n rt c (k : value -> M A) :
  (forall a, callsAtMost n (k a)) -> callsAtMost (S n) (bind (fetch rt c) k).
Proof.
  intros Hk. unfold bind, fetch.
  destruct (fetchJson rt c) as [a | e].
  - destruct (Hk a) as (r2 & evs & Hlen & Hevs & Hrun).
    exists r2, (EvFetch c :: evs). split; [simpl; lia |].
    split; [constructor; [exact I | exact Hevs] |].
    intros w. rewrite Hrun, emit_appendTrace, appendTrace_app. reflexivity.
  - exists (Throw e), [EvFetch c]. split; [simpl; lia |].
    split; [constructor; [exact I | constructor] |].
    intros w. reflexivity.
Qed.

Lemma calls_weaken {A} n n' (m : M A) :
  (n <= n')%nat -> callsAtMost n m -> callsAtMost n' m.
Proof.
  intros Hle (r & evs & Hlen & Hevs & Hrun).
  exists r, evs. split; [lia |]. now split.
Qed.

Ltac calls_step :=
  first
    [ apply calls_bind_fetch; intros ?
    | apply calls_bind_lift; intros ?
    | apply calls_lift
    | apply calls_throw
    | match goal with |- callsAtMost _ (if ?b then _ else _) => destruct b end
    | match goal with |- callsAtMost _ (match ?x with _ => _ end) => destruct x end ].

Lemma fetchFromSpoonacular_calls rt name : callsAtMost 2 (fetchFromSpoonacular rt name).
Proof. unfold fetchFromSpoonacular. repeat calls_step. Qed.

Lemma fetchFromEdamam_calls rt name : callsAtMost 1 (fetchFromEdamam rt name).
Proof. unfold fetchFromEdamam. repeat calls_step. Qed.

Lemma fetchFromTheMealDB_calls rt name : callsAtMost 1 (fetchFromTheMealDB rt name).
Proof. unfold fetchFromTheMealDB. repeat calls_step. Qed.

(** X7. [fetchFromSpoonacular] makes at most two upstream calls and the
    other two adapters at most one; an adapter does nothing else: it leaves
    both tables alone, and its result and its calls are the same from any
    world. *)
Theorem adapters_call_budget rt name :
  callsAtMost 2 (fetchFromSpoonacular rt name) /\
  callsAtMost 1 (fetchFromEdamam rt name) /\
  callsAtMost 1 (fetchFromTheMealDB rt name).
Proof.
  split; [| split].
  - apply fetchFromSpoonacular_calls.
  - apply fetchFromEdamam_calls.
  - apply fetchFromTheMealDB_calls.
Qed.

Lemma adapterNamed_calls source adapter rt name :
  adapterNamed source = Some adapter -> callsAtMost 2 (adapter rt name).
Proof.
  unfold adapterNamed. intros H.
  pose proof (fetchFromSpoonacular_calls rt name) as Hs.
  pose proof (fetchFromEdamam_calls rt name) as He.
  pose proof (fetchFromTheMealDB_calls rt name) as Hm.
  destruct (String.eqb source "spoonacular"); [injection H as <-; exact Hs |].
  destruct (String.eqb source "edamam");
    [injection H as <-; apply (calls_weaken 1); [lia | exact He] |].
  destruct (String.eqb source "themealdb");
    [injection H as <-; apply (calls_weaken 1); [lia | exact Hm] |].
  discriminate.
Qed.

(** X8. The effects of a request come in a fixed order: nothing at all
    (a request without dish name), or the cache read first, then at most two
    upstream calls, then the writes: none, or the cache write of the key
    that was read, or that cache write followed by one write to [recipes]. *)
Theorem handle_effect_order rt req w :
  exists evs,
    trace (snd (handle rt req w)) = (trace w ++ evs)%list /\
    (evs = [] \/
     exists q s t fetches writes,
       evs = (EvCacheSelect q s t :: fetches ++ writes)%list /\
       Forall isFetch fetches /\ (List.length fetches <= 2)%nat /\
       (writes = [] \/
        (exists row, writes = [EvCacheUpsert q s row]) \/
        (exists row rrow, writes = [EvCacheUpsert q s row; EvRecipesUpsert rrow]))).
Proof.
  destruct (dishName req) as [name |] eqn:Hname.
  2: { exists []. rewrite handle_no_name by now left.
       simpl. rewrite app_nil_r. split; [reflexivity | now left]. }
  destruct name as [| c name'].
  { exists []. rewrite handle_no_name by now right.
    simpl. rewrite app_nil_r. split; [reflexivity | now left]. }
  assert (Hne : String c name' <> "") by discriminate.
  set (name := String c name') in *.
  destruct (liveRow (recipe_cache w) (cacheKeyOf name) (sourceOf req) (nowAtLookup rt))
    as [row |] eqn:Hrow.
  { rewrite (handle_hit rt req w _ row Hname Hne Hrow).
    eexists. split; [reflexivity |]. right.
    exists (cacheKeyOf name), (sourceOf req), (nowAtLookup rt), [], [].
    split; [reflexivity |]. split; [constructor |]. split; [simpl; lia | now left]. }
  destruct (adapterNamed (sourceOf req)) as [adapter |] eqn:Had.
  - destruct (adapterNamed_calls _ _ rt name Had) as (r & evs & Hlen & Hevs & Hrun).
    destruct r as [rec | e].
    + rewrite (handle_adapter_returns rt req w name adapter rec evs) by assumption.
      cbn [snd]. rewrite storeRecipe_trace. unfold cacheUpsert, appendTrace. simpl.
      rewrite <- !app_assoc. eexists. split; [reflexivity |]. right.
      exists (cacheKeyOf name), (sourceOf req), (nowAtLookup rt), evs.
      eexists. split; [reflexivity |]. split; [exact Hevs |]. split; [exact Hlen |].
      right. unfold storeEvents. destruct (idToString rt (r_id rec)); simpl.
      * right. eauto.
      * left. eauto.
    + rewrite (handle_adapter_throws rt req w name adapter e evs) by assumption.
      eexists. split; [reflexivity |]. right.
      exists (cacheKeyOf name), (sourceOf req), (nowAtLookup rt), evs, [].
      rewrite app_nil_r. split; [reflexivity |]. split; [exact Hevs |].
      split; [exact Hlen | now left].
  - rewrite (handle_unknown_source rt req w _ Hname Hne Hrow Had).
    eexists. split; [reflexivity |]. right.
    exists (cacheKeyOf name), (sourceOf req), (nowAtLookup rt), [], [].
    split; [reflexivity |]. split; [constructor |]. split; [simpl; lia | now left].
Qed.

(** ** The premium adapter *)

(** X9. With its key configured and a search that has results,
    [fetchFromSpoonacular] converts the id of the first result to a string,
    as the template of the detail URL does. When the id converts, it makes
    exactly two calls: the search, then the detail of that id, with the
    same key; what it returns is the normalization of the detail reply, and
    an error of the detail call is its error. When the id does not convert
    it throws after the search, and the detail call is never made. A number
    converts to its numeral and a missing id to "undefined"; an object with
    a [toString] of its own does not convert. *)
Theorem spoonacular_detail_of_first_result rt name w apiKey searchData results first id :
  configured (env rt "SPOONACULAR_API_KEY") = Some apiKey ->
  fetchJson rt (SpoonacularSearch apiKey name) = Ok searchData ->
  Js.getProp searchData "results" = Ok results ->
  noResults results = Ok false ->
  Js.getFirst results = Ok first ->
  Js.getProp first "id" = Ok id ->
  (forall recipeId,
     interpolate (numberToString rt) id = Ok recipeId ->
     fetchFromSpoonacular rt name w =
       (bindR (fetchJson rt (SpoonacularInformation recipeId apiKey)) spoonacularRecipe,
        appendTrace [EvFetch (SpoonacularSearch apiKey name);
                     EvFetch (SpoonacularInformation recipeId apiKey)] w)) /\
  (forall e,
     interpolate (numberToString rt) id = Throw e ->
     fetchFromSpoonacular rt name w =
       (Throw e, appendTrace [EvFetch (SpoonacularSearch apiKey name)] w)) /\
  (forall q, id = VNum q -> interpolate (numberToString rt) id = Ok (numberToString rt q)) /\
  (id = VUndefined -> interpolate (numberToString rt) id = Ok "undefined") /\
  (forall fs, id = VObj fs -> hasOwn "toString" fs = true ->
     interpolate (numberToString rt) id =
       Throw (TypeError "Cannot convert object to primitive value")).
Proof.
  intros Hkey Hsearch Hresults Hsome Hfirst Hid.
  split; [| split; [| split; [| split]]].
  - intros recipeId Hconv.
    unfold fetchFromSpoonacular. rewrite Hkey.
    unfold bind, fetch, lift. rewrite Hsearch, Hresults, Hsome, Hfirst, Hid, Hconv.
    rewrite !emit_appendTrace, appendTrace_app. cbn [app].
    now destruct (fetchJson rt (SpoonacularInformation recipeId apiKey)).
  - intros e Hconv.
    unfold fetchFromSpoonacular. rewrite Hkey.
    unfold bind, fetch, lift. rewrite Hsearch, Hresults, Hsome, Hfirst, Hid, Hconv.
    now rewrite emit_appendTrace.
  - now intros q ->.
  - now intros ->.
  - intros fs -> Hown. unfold interpolate. cbn [toText]. now rewrite Hown.
Qed.

Lemma spoonacular_detail_of_first_result_witness :
  fetchFromSpoonacular spoonacularCredentials "soup" emptyWorld =
    (Ok soupRecipe,
     appendTrace [EvFetch (SpoonacularSearch "k1" "soup");
                  EvFetch (SpoonacularInformation "7" "k1")] emptyWorld) /\
  fetchFromSpoonacular spoonacularCredentials "stew" emptyWorld =
    (Throw (TypeError "Cannot convert object to primitive value"),
     appendTrace [EvFetch (SpoonacularSearch "k1" "stew")] emptyWorld).
Proof.
  split.
  - exact (proj1 (spoonacular_detail_of_first_result spoonacularCredentials "soup"
                    emptyWorld "k1"
                    (VObj [("results", VArr [VObj [("id", VNum 7)]; VObj [("id", VNum 8)]])])
                    (VArr [VObj [("id", VNum 7)]; VObj [("id", VNum 8)]])
                    (VObj [("id", VNum 7)]) (VNum 7)
                    eq_refl eq_refl eq_refl eq_refl eq_refl eq_refl) "7" eq_refl).
  - exact (proj1 (proj2 (spoonacular_detail_of_first_result spoonacularCredentials "stew"
                    emptyWorld "k1"
                    (VObj [("results", VArr [VObj [("id", VObj [("toString", VNum 1)])]])])
                    (VArr [VObj [("id", VObj [("toString", VNum 1)])]])
                    (VObj [("id", VObj [("toString", VNum 1)])])
                    (VObj [("toString", VNum 1)])
                    eq_refl eq_refl eq_refl eq_refl eq_refl eq_refl))
             (TypeError "Cannot convert object to primitive value") eq_refl).
Defined.

Lemma spoonacularIngredient_fields ing out :
  spoonacularIngredient ing = Ok out ->
  Js.getProp ing "name" = Ok (ing_name out) /\
  Js.getProp ing "amount" = Ok (ing_amount out) /\
  Js.getProp ing "unit" = Ok (ing_unit out) /\
  Js.getProp ing "original" = Ok (ing_originalString out).
Proof.
  unfold spoonacularIngredient. intros H. bindR_inv H. injection H as <-.
  now repeat split.
Qed.

Lemma spoonacularStep_fields st out :
  spoonacularStep st = Ok out ->
  Js.getProp st "number" = Ok (step_number out) /\
  Js.getProp st "step" = Ok (step_step out).
Proof.
  unfold spoonacularStep. intros H. bindR_inv H. injection H as <-. now split.
Qed.

(** X10. In the recipe the premium adapter builds from a detail reply, the
    ingredients are the [extendedIngredients] of the reply, one for one and
    in order, with name, amount, unit and original line taken over unchanged
    (an amount of 0 stays 0), and the steps are those of the first group of
    [analyzedInstructions] only. A list that is missing or null is no error:
    a reply without ingredients and without instructions (no list, an empty
    list, or a first group without steps) gives the recipe with both lists
    empty. *)
Theorem spoonacular_normalization detail :
  (forall rec,
     spoonacularRecipe detail = Ok rec ->
     (forall ings, Js.getProp detail "extendedIngredients" = Ok (VArr ings) ->
        Forall2 (fun ing out =>
                   Js.getProp ing "name" = Ok (ing_name out) /\
                   Js.getProp ing "amount" = Ok (ing_amount out) /\
                   Js.getProp ing "unit" = Ok (ing_unit out) /\
                   Js.getProp ing "original" = Ok (ing_originalString out))
                ings (r_ingredients rec)) /\
     (forall group others steps,
        Js.getProp detail "analyzedInstructions" = Ok (VArr (group :: others)) ->
        Js.getProp group "steps" = Ok (VArr steps) ->
        Forall2 (fun st out =>
                   Js.getProp st "number" = Ok (step_number out) /\
                   Js.getProp st "step" = Ok (step_step out))
                steps (r_instructions rec)))
  /\
  (forall fs,
     detail = VObj fs ->
     Js.nullish (Js.assoc "extendedIngredients" fs) = true ->
     Js.nullish (Js.assoc "analyzedInstructions" fs) = true \/
     Js.assoc "analyzedInstructions" fs = VArr [] \/
     (exists group others,
        Js.assoc "analyzedInstructions" fs = VArr (VObj group :: others) /\
        Js.nullish (Js.assoc "steps" group) = true) ->
     spoonacularRecipe detail =
       Ok (mkRecipe (Js.assoc "id" fs) (Js.assoc "title" fs) (Js.assoc "image" fs)
                    (Js.assoc "readyInMinutes" fs) (Js.assoc "servings" fs) [] []
                    (Js.or (Js.assoc "nutrition" fs) VNull))).
Proof.
  split.
  - unfold spoonacularRecipe. intros rec H. bindR_inv H. injection H as <-.
    cbn [r_ingredients r_instructions].
    match goal with E : optMap _ _ spoonacularIngredient = Ok _ |- _ => rename E into Hings end.
    match goal with E : spoonacularInstructions detail = Ok _ |- _ => rename E into Hsteps end.
    split.
    + intros ings Hv. injection Hv as ->.
      cbn [optMap] in Hings. apply mapR_Forall2 in Hings.
      eapply Forall2_impl; [exact Hings |].
      intros ing out Hout. now apply spoonacularIngredient_fields.
    + intros group others steps Ha Hg.
      unfold spoonacularInstructions in Hsteps. rewrite Ha in Hsteps.
      cbn [bindR Js.nullish Js.getFirst] in Hsteps.
      destruct (Js.nullish group) eqn:Hn.
      { destruct group; discriminate. }
      rewrite Hg in Hsteps. cbn [bindR optMap] in Hsteps.
      apply mapR_Forall2 in Hsteps.
      eapply Forall2_impl; [exact Hsteps |].
      intros st out Hout. now apply spoonacularStep_fields.
  - intros fs -> Hings Hsteps.
    assert (Hi : optMap "detailData.extendedIngredients"
                   (Js.assoc "extendedIngredients" fs) spoonacularIngredient = Ok []).
    { destruct (Js.assoc "extendedIngredients" fs); try discriminate Hings; reflexivity. }
    assert (Hs : spoonacularInstructions (VObj fs) = Ok []).
    { unfold spoonacularInstructions. cbn [Js.getProp bindR].
      destruct Hsteps as [Hn | [He | (group & others & Hg & Hn)]].
      - now rewrite Hn.
      - now rewrite He.
      - rewrite Hg. cbn [Js.nullish Js.getFirst bindR Js.getProp].
        destruct (Js.assoc "steps" group); try discriminate Hn; reflexivity. }
    unfold spoonacularRecipe. cbn [Js.getProp bindR]. rewrite Hi. cbn [bindR].
    rewrite Hs. reflexivity.
Qed.

Lemma spoonacular_normalization_witness :
  spoonacularRecipe soupDetail = Ok soupRecipe /\
  List.length (r_ingredients soupRecipe) = 2%nat /\
  spoonacularRecipe (VObj [("id", VNum 9); ("title", VStr "Broth");
                           ("extendedIngredients", VNull)]) =
    Ok (mkRecipe (VNum 9) (VStr "Broth") VUndefined VUndefined VUndefined [] [] VNull).
Proof.
  split; [reflexivity |]. split.
  - destruct (proj1 (spoonacular_normalization soupDetail) soupRecipe eq_refl) as (H1 & _).
    symmetry. exact (Forall2_length _ _ _ (H1 _ eq_refl)).
  - apply (proj2 (spoonacular_normalization _)
             [("id", VNum 9); ("title", VStr "Broth"); ("extendedIngredients", VNull)]
             eq_refl eq_refl).
    left. reflexivity.
Defined.

(** ** Searches without a result *)

Lemma noResults_emptyList v : emptyList v -> noResults v = Ok true.
Proof.
  unfold noResults. intros [H | ->]; [now rewrite H | reflexivity].
Qed.

(** X11. For each of the three adapters, a search reply whose list of
    results ([results], [hits], [meals]) is missing, null or empty makes the
    adapter throw "No recipes found" after that one call; nothing else is
    called. *)
Theorem empty_search_is_not_found rt name w fs :
  (forall apiKey,
     configured (env rt "SPOONACULAR_API_KEY") = Some apiKey ->
     fetchJson rt (SpoonacularSearch apiKey name) = Ok (VObj fs) ->
     emptyList (Js.assoc "results" fs) ->
     fetchFromSpoonacular rt name w =
       (Throw (Error "No recipes found"),
        appendTrace [EvFetch (SpoonacularSearch apiKey name)] w))
  /\
  (forall appId appKey,
     configured (env rt "EDAMAM_APP_ID") = Some appId ->
     configured (env rt "EDAMAM_APP_KEY") = Some appKey ->
     fetchJson rt (EdamamSearch name appId appKey) = Ok (VObj fs) ->
     emptyList (Js.assoc "hits" fs) ->
     fetchFromEdamam rt name w =
       (Throw (Error "No recipes found"),
        appendTrace [EvFetch (EdamamSearch name appId appKey)] w))
  /\
  (fetchJson rt (TheMealDBSearch name) = Ok (VObj fs) ->
   emptyList (Js.assoc "meals" fs) ->
   fetchFromTheMealDB rt name w =
     (Throw (Error "No recipes found"),
      appendTrace [EvFetch (TheMealDBSearch name)] w)).
Proof.
  split; [| split].
  - intros apiKey Hkey Hfetch Hempty.
    unfold fetchFromSpoonacular. rewrite Hkey.
    unfold bind, fetch, lift. rewrite Hfetch. cbn [Js.getProp].
    now rewrite (noResults_emptyList _ Hempty).
  - intros appId appKey Hid Hkey Hfetch Hempty.
    unfold fetchFromEdamam. rewrite Hid, Hkey.
    unfold bind, fetch, lift. rewrite Hfetch. cbn [Js.getProp].
    now rewrite (noResults_emptyList _ Hempty).
  - intros Hfetch Hempty.
    unfold fetchFromTheMealDB, bind, fetch, lift. rewrite Hfetch. cbn [Js.getProp].
    now rewrite (noResults_emptyList _ Hempty).
Qed.

Lemma empty_search_is_not_found_witness :
  fetchFromSpoonacular spoonacularCredentials "pie" emptyWorld =
    (Throw (Error "No recipes found"),
     appendTrace [EvFetch (SpoonacularSearch "k1" "pie")] emptyWorld) /\
  fetchFromEdamam spoonacularCredentials "pie" emptyWorld =
    (Throw (Error "No recipes found"),
     appendTrace [EvFetch (EdamamSearch "pie" "id" "key")] emptyWorld) /\
  fetchFromTheMealDB spoonacularCredentials "pie" emptyWorld =
    (Throw (Error "No recipes found"),
     appendTrace [EvFetch (TheMealDBSearch "pie")] emptyWorld).
Proof.
  split; [| split].
  - apply (proj1 (empty_search_is_not_found spoonacularCredentials "pie" emptyWorld
                    [("results", VArr [])]) "k1" eq_refl eq_refl).
    right. reflexivity.
  - apply (proj1 (proj2 (empty_search_is_not_found spoonacularCredentials "pie" emptyWorld
                           [("hits", VArr [])])) "id" "key" eq_refl eq_refl eq_refl).
    right. reflexivity.
  - apply (proj2 (proj2 (empty_search_is_not_found spoonacularCredentials "pie" emptyWorld
                           [("meals", VNull)])) eq_refl).
    left. reflexivity.
Defined.

(** ** The shape of what the free adapter returns *)

Lemma mealIngredient_shape ingredient measure x :
  mealIngredient ingredient measure = Ok (Some x) -> mealIngredientShape x.
Proof.
  unfold mealIngredient.
  destruct (Js.truthy ingredient); cbn [negb]; [| discriminate].
  intros H. bindR_inv H.
  destruct (String.eqb_spec (Js.trim a) "") as [| Hne]; [discriminate |].
  bindR_inv H. injection H as <-.
  unfold mealIngredientShape. cbn.
  do 3 eexists. repeat split; try reflexivity; try exact Hne; apply trim_idem.
Qed.

Lemma ingredientLoop_shape meal n : forall i acc l,
  ingredientLoop meal n i acc = Ok l ->
  exists l', l = (acc ++ l')%list /\ (List.length l' <= n)%nat /\
             Forall mealIngredientShape l'.
Proof.
  induction n as [| n IH]; intros i acc l H.
  - cbn in H. injection H as <-. exists []. rewrite app_nil_r.
    split; [reflexivity |]. split; [simpl; lia | constructor].
  - cbn [ingredientLoop] in H. bindR_inv H.
    apply IH in H. destruct H as (l' & -> & Hlen & Hall).
    match goal with E : mealIngredient _ _ = Ok ?p |- _ =>
      destruct p as [x |]; [apply mealIngredient_shape in E |]
    end.
    + exists (x :: l'). rewrite <- app_assoc. split; [reflexivity |].
      split; [simpl; lia |]. now constructor.
    + exists l'. split; [reflexivity |]. split; [lia | exact Hall].
Qed.

Lemma fetchFromTheMealDB_first_meal rt name w rec :
  fst (fetchFromTheMealDB rt name w) = Ok rec ->
  exists meal, mealRecipe meal = Ok rec.
Proof.
  unfold fetchFromTheMealDB, bind, fetch, lift.
  destruct (fetchJson rt (TheMealDBSearch name)) as [data |]; [| discriminate].
  destruct (Js.getProp data "meals") as [meals |]; [| discriminate].
  destruct (noResults meals) as [[|] |]; try discriminate.
  destruct (Js.getFirst meals) as [meal |]; [| discriminate].
  cbn [fst]. eauto.
Qed.

(** X12. Whatever TheMealDB replies, a recipe the free adapter returns
    has at most 20 ingredients, each with a non-empty trimmed name, a
    trimmed amount and a trimmed original line (all strings) and the empty
    unit; its instructions are no step or the single step numbered 1; and
    its time, servings and nutrition are null. *)
Theorem mealdb_recipe_shape rt name w rec :
  fst (fetchFromTheMealDB rt name w) = Ok rec ->
  (List.length (r_ingredients rec) <= 20)%nat /\
  Forall mealIngredientShape (r_ingredients rec) /\
  (r_instructions rec = [] \/
   exists text, r_instructions rec = [mkStep (VNum 1) text] /\ Js.truthy text = true) /\
  r_readyInMinutes rec = VNull /\ r_servings rec = VNull /\ r_nutrition rec = VNull.
Proof.
  intros H. apply fetchFromTheMealDB_first_meal in H. destruct H as [meal H].
  unfold mealRecipe in H. bindR_inv H. injection H as <-.
  cbn [r_ingredients r_instructions r_readyInMinutes r_servings r_nutrition].
  match goal with E : mealIngredients meal = Ok _ |- _ =>
    unfold mealIngredients in E; apply ingredientLoop_shape in E;
    destruct E as (l' & -> & Hlen & Hall)
  end.
  cbn [app]. repeat split; try assumption.
  match goal with |- context [Js.truthy ?t] => destruct (Js.truthy t) eqn:Ht end.
  - right. eauto.
  - now left.
Qed.

Lemma mealdb_recipe_shape_witness :
  (List.length (r_ingredients chickenRecipe) <= 20)%nat /\
  Forall mealIngredientShape (r_ingredients chickenRecipe).
Proof.
  destruct (mealdb_recipe_shape noCredentials "Chicken Curry" emptyWorld chickenRecipe
              eq_refl) as (H1 & H2 & _).
  split; assumption.
Defined.

(** ** The id and the shape of what the nutrition adapter returns *)






Lemma fetchFromEdamam_some_recipe rt name w rec :
  fst (fetchFromEdamam rt name w) = Ok rec -> exists recipe, edamamRecipe recipe = Ok rec.
Proof.
  unfold fetchFromEdamam.
  destruct (configured (env rt "EDAMAM_APP_ID")) as [appId |]; [| discriminate].
  destruct (configured (env rt "EDAMAM_APP_KEY")) as [appKey |]; [| discriminate].
  unfold bind, fetch, lift.
  destruct (fetchJson rt (EdamamSearch name appId appKey)) as [data |]; [| discriminate].
  destruct (Js.getProp data "hits") as [hits |]; [| discriminate].
  destruct (noResults hits) as [[|] |]; try discriminate.
  destruct (Js.getFirst hits) as [hit |]; [| discriminate].
  destruct (Js.getProp hit "recipe") as [recipe |]; [| discriminate].
  cbn [fst]. eauto.
Qed.

(** X14. Whatever Edamam replies, a recipe the nutrition adapter returns
    has no instruction and a null time; its id is a string or missing, its
    nutrition is never a falsy value other than null, and every ingredient
    has a truthy amount. *)
Theorem edamam_recipe_shape rt name w rec :
  fst (fetchFromEdamam rt name w) = Ok rec ->
  r_instructions rec = [] /\
  r_readyInMinutes rec = VNull /\
  (r_id rec = VUndefined \/ exists s, r_id rec = VStr s) /\
  (r_nutrition rec = VNull \/ Js.truthy (r_nutrition rec) = true) /\
  Forall (fun out => Js.truthy (ing_amount out) = true) (r_ingredients rec).
Proof.
  intros H. apply fetchFromEdamam_some_recipe in H. destruct H as [recipe H].
  unfold edamamRecipe in H. bindR_inv H. injection H as <-.
  cbn [r_instructions r_readyInMinutes r_id r_nutrition r_ingredients].
  split; [reflexivity |]. split; [reflexivity |]. split; [| split].
  - match goal with E : edamamId ?u = Ok _ |- _ =>
      unfold edamamId in E; destruct u; try discriminate E; injection E as <-
    end.
    destruct (Js.split "_" s) as [| ? [| p ?]]; eauto.
  - unfold Js.or. match goal with |- context [Js.truthy ?t] =>
      destruct (Js.truthy t) eqn:Ht end; [now right | now left].
  - match goal with E : optMap _ ?v edamamIngredient = Ok ?outs |- _ =>
      destruct v; try discriminate E; cbn [optMap] in E;
      try (injection E as <-; constructor)
    end.
    match goal with E : mapR _ _ = Ok _ |- _ => apply mapR_Forall2 in E; rename E into Hmap end.
    clear - Hmap. induction Hmap as [| ing out ings outs Hout _ IH]; constructor; [| exact IH].
    destruct (edamamIngredient_amount ing out Hout) as (q & _ & ->).
    unfold Js.or. destruct (Js.truthy q) eqn:Hq; [exact Hq | reflexivity].
Qed.

Lemma edamam_recipe_shape_witness :
  r_instructions saladRecipe = [] /\ r_readyInMinutes saladRecipe = VNull.
Proof.
  destruct (edamam_recipe_shape edamamCredentials "salad" emptyWorld saladRecipe eq_refl)
    as (H1 & H2 & _).
  split; assumption.
Defined.

(** ** Storing a recipe *)

(** X15. [storeRecipe] never touches the cache and changes at most the
    row of [recipes] under (printed id, source), which then holds the
    recipe; once it has stored a recipe, storing the same recipe again
    changes nothing, whatever the second write does. *)
Theorem storeRecipe_idempotent rt rec source w f :
  let w1 := snd (storeRecipe rt rec source w) in
  let w2 := snd (storeRecipe (withRecipesUpsert f rt) rec source w1) in
  recipe_cache w1 = recipe_cache w /\
  (forall k, recipes w1 !! k <> recipes w !! k ->
     exists ext, idToString rt (r_id rec) = Ok ext /\ k = (ext, source) /\
                 recipes w1 !! k = Some (rowOf ext source rec)) /\
  (recipes w1 <> recipes w -> recipes w2 = recipes w1).
Proof.
  intros w1 w2. split; [apply storeRecipe_cache |].
  destruct (idToString rt (r_id rec)) as [ext | e] eqn:Hid.
  - destruct (storeRecipe_row rt rec source w ext Hid) as [_ H1]. fold w1 in H1.
    assert (Hid' : idToString (withRecipesUpsert f rt) (r_id rec) = Ok ext) by exact Hid.
    destruct (storeRecipe_row (withRecipesUpsert f rt) rec source w1 ext Hid') as [_ H2].
    fold w2 in H2. cbn [recipesUpsert withRecipesUpsert] in H2.
    destruct (recipesUpsert rt (rowOf ext source rec)) eqn:Hout.
    + split.
      * intros k Hk. exists ext. split; [reflexivity |].
        rewrite H1 in Hk |- *.
        destruct (decide (k = (ext, source))) as [-> | Hneq].
        -- split; [reflexivity |]. rewrite insertRow_at in Hk |- *.
           destruct (recipes w !! (ext, source)); [contradiction | reflexivity].
        -- rewrite insertRow_other in Hk by exact Hneq. congruence.
      * intros _. rewrite H2, H1.
        destruct (f (rowOf ext source rec)); try reflexivity.
        apply insertRow_twice.
    + split; [intros k Hk | intros Hne]; rewrite H1 in *; congruence.
    + split; [intros k Hk | intros Hne]; rewrite H1 in *; congruence.
  - assert (Hw1 : w1 = w) by (unfold w1; now rewrite (storeRecipe_no_id rt rec source w e Hid)).
    rewrite Hw1. split; [intros k Hk | intros Hne]; congruence.
Qed.

Lemma storeRecipe_idempotent_witness :
  let w1 := snd (storeRecipe noCredentials chickenRecipe "themealdb" emptyWorld) in
  recipes (snd (storeRecipe (withRecipesUpsert (fun _ => Written) noCredentials)
                  chickenRecipe "themealdb" w1)) = recipes w1.
Proof.
  intros w1.
  apply (proj2 (proj2 (storeRecipe_idempotent noCredentials chickenRecipe "themealdb"
                         emptyWorld (fun _ => Written)))).
  intros H.
  apply (f_equal (fun m : gmap (string * string) RecipeRow => m !! ("52795", "themealdb"))) in H.
  vm_compute in H. discriminate H.
Defined.

(** ** The client: grouping the ingredients *)

Lemma lookup_pushTo c c' x cats :
  lookupCategory c (pushTo c' x cats) =
    if String.eqb c' c then (lookupCategory c cats ++ [x])%list else lookupCategory c cats.
Proof.
  induction cats as [| [k l] rest IH]; cbn [pushTo lookupCategory].
  - now destruct (String.eqb c' c).
  - destruct (String.eqb_spec k c') as [-> | Hk]; cbn [lookupCategory].
    + now destruct (String.eqb c' c).
    + rewrite IH. destruct (String.eqb_spec k c) as [-> | Hc]; [| reflexivity].
      destruct (String.eqb_spec c' c) as [-> | _]; [contradiction | reflexivity].
Qed.

Lemma keys_pushTo c' x cats :
  (In c' (map fst cats) -> map fst (pushTo c' x cats) = map fst cats) /\
  (~ In c' (map fst cats) -> map fst (pushTo c' x cats) = (map fst cats ++ [c'])%list).
Proof.
  induction cats as [| [k l] rest [IH1 IH2]]; cbn [pushTo map fst].
  - split; [intros [] | reflexivity].
  - destruct (String.eqb_spec k c') as [-> | Hk]; cbn [map fst].
    + split; [reflexivity | intros H; exfalso; apply H; now left].
    + split.
      * intros [H | H]; [contradiction | now rewrite IH1].
      * intros H. cbn [app]. rewrite IH2; [reflexivity |]. intros Hin. apply H. now right.
Qed.

Lemma concat_pushTo c' x cats :
  Permutation (concat (map snd (pushTo c' x cats))) (concat (map snd cats) ++ [x])%list.
Proof.
  induction cats as [| [k l] rest IH]; cbn [pushTo map snd concat].
  - reflexivity.
  - destruct (String.eqb k c'); cbn [map snd concat].
    + rewrite <- !app_assoc. apply Permutation_app_head, Permutation_app_comm.
    + rewrite <- app_assoc. now apply Permutation_app_head.
Qed.

Lemma categorized_nil : categorized [] [].
Proof.
  split; [constructor |]. split; [reflexivity |]. split; [| constructor].
  intros c. split; [intros [] | intros H; now contradiction H].
Qed.

Lemma categorized_push cats seen x s :
  ing_name x = VStr s ->
  categorized cats seen ->
  categorized (pushTo (categoryOf (Js.toLowerCase s)) x cats) (seen ++ [x])%list.
Proof.
  intros Hname (Hnodup & Hlook & Hkeys & Hperm).
  set (cx := categoryOf (Js.toLowerCase s)).
  assert (Hin : forall c, inCategory c x = String.eqb cx c).
  { intros c. unfold inCategory, categoryOfIngredient. now rewrite Hname. }
  destruct (keys_pushTo cx x cats) as [Hk1 Hk2].
  assert (Hlook' : forall c, lookupCategory c (pushTo cx x cats) =
                             List.filter (inCategory c) (seen ++ [x])).
  { intros c. rewrite lookup_pushTo, List.filter_app, Hlook. cbn [List.filter].
    rewrite Hin. destruct (String.eqb cx c); [reflexivity | now rewrite app_nil_r]. }
  split; [| split; [exact Hlook' | split]].
  - destruct (in_dec string_dec cx (map fst cats)) as [Hi | Hi].
    + now rewrite (Hk1 Hi).
    + rewrite (Hk2 Hi). apply NoDup_app. split; [exact Hnodup |]. split.
      * intros y Hy Hy'. apply list_elem_of_In in Hy, Hy'.
        destruct Hy' as [<- | []]. contradiction.
      * apply NoDup_singleton.
  - intros c. rewrite lookup_pushTo.
    destruct (String.eqb_spec cx c) as [<- | Hc].
    + split.
      * intros _ H. now apply app_eq_nil in H as [_ H].
      * intros _. destruct (in_dec string_dec cx (map fst cats)) as [Hi | Hi].
        -- now rewrite (Hk1 Hi).
        -- rewrite (Hk2 Hi). apply in_or_app. right. now left.
    + rewrite <- Hkeys.
      destruct (in_dec string_dec cx (map fst cats)) as [Hi | Hi].
      * now rewrite (Hk1 Hi).
      * rewrite (Hk2 Hi). split.
        -- intros H. apply in_app_or in H as [H | [H | []]]; [exact H | contradiction].
        -- intros H. apply in_or_app. now left.
  - etransitivity; [apply concat_pushTo |]. now apply Permutation_app_tail.
Qed.

Lemma lowerCaseOf_string v name :
  lowerCaseOf v = Ok name -> exists s, v = VStr s /\ name = Js.toLowerCase s.
Proof. destruct v; try discriminate. intros H. injection H as <-. eauto. Qed.

Lemma categorizeLoop_spec ings : forall cats0 seen cats,
  categorized cats0 seen ->
  categorizeLoop ings cats0 = Ok cats ->
  categorized cats (seen ++ ings)%list /\
  Forall (fun x => exists s, ing_name x = VStr s) ings.
Proof.
  induction ings as [| x rest IH]; intros cats0 seen cats Hcat H.
  - cbn in H. injection H as <-. rewrite app_nil_r. split; [exact Hcat | constructor].
  - cbn [categorizeLoop] in H. bindR_inv H.
    match goal with E : lowerCaseOf _ = Ok _ |- _ =>
      apply lowerCaseOf_string in E; destruct E as (s & Hs & ->)
    end.
    apply (IH _ (seen ++ [x])%list) in H; [| now apply categorized_push].
    rewrite <- app_assoc in H. destruct H as [H1 H2].
    split; [exact H1 |]. constructor; eauto.
Qed.

Lemma lookupCategory_In c l cats :
  NoDup (map fst cats) -> In (c, l) cats -> lookupCategory c cats = l.
Proof.
  induction cats as [| [k l'] rest IH]; [intros _ [] |].
  cbn [map fst lookupCategory]. intros Hnd [Heq | Hin].
  - injection Heq as -> ->. now rewrite String.eqb_refl.
  - apply NoDup_cons in Hnd as [Hk Hnd].
    destruct (String.eqb_spec k c) as [-> | _]; [| now apply IH].
    exfalso. apply Hk. apply list_elem_of_In. apply in_map_iff. now exists (c, l).
Qed.

Lemma In_lookupCategory c cats :
  In c (map fst cats) -> In (c, lookupCategory c cats) cats.
Proof.
  induction cats as [| [k l] rest IH]; [intros [] |].
  cbn [map fst lookupCategory].
  destruct (String.eqb_spec k c) as [-> | Hk]; [intros _; now left |].
  intros [H | H]; [contradiction | right; now apply IH].
Qed.

(** X16. When [categorizeIngredients] returns, it has split the list into
    groups without losing, repeating or reordering anything: the keys are
    distinct, a group is listed exactly when some ingredient falls into its
    category, it then holds exactly the ingredients of that category in
    their original order, and all groups together are a rearrangement of the
    list. It returns only when every name is a string. *)
Theorem categorizeIngredients_partition ings cats :
  categorizeIngredients ings = Ok cats ->
  NoDup (map fst cats) /\
  (forall c l, In (c, l) cats <-> l <> [] /\ l = List.filter (inCategory c) ings) /\
  Permutation (concat (map snd cats)) ings /\
  Forall (fun x => exists s, ing_name x = VStr s) ings.
Proof.
  intros H. unfold categorizeIngredients in H.
  apply (categorizeLoop_spec ings [] [] cats categorized_nil) in H.
  cbn [app] in H. destruct H as [(Hnd & Hlook & Hkeys & Hperm) Hnames].
  split; [exact Hnd |]. split; [| split; assumption].
  intros c l. split.
  - intros Hin. pose proof (lookupCategory_In c l cats Hnd Hin) as Hl.
    split; [| now rewrite <- Hlook].
    rewrite <- Hl. apply Hkeys. apply in_map_iff. now exists (c, l).
  - intros [Hne ->]. rewrite <- Hlook in *. apply In_lookupCategory. now apply Hkeys.
Qed.

Lemma categorizeIngredients_partition_witness :
  categorizeIngredients pantry =
    Ok [("Protein", [namedIngredient "Chicken breast"; namedIngredient "Eggplant"]);
        ("Vegetables", [namedIngredient "Black Pepper"; namedIngredient "Red onion"]);
        ("Seasonings & Spices", [namedIngredient "salt"]);
        ("Other", [namedIngredient "Rice"])] /\
  Permutation
    [namedIngredient "Chicken breast"; namedIngredient "Eggplant";
     namedIngredient "Black Pepper"; namedIngredient "Red onion";
     namedIngredient "salt"; namedIngredient "Rice"]
    pantry.
Proof.
  split; [reflexivity |].
  exact (proj1 (proj2 (proj2 (categorizeIngredients_partition pantry _ eq_refl)))).
Defined.

(** X17. The tests of [categorizeIngredients] are tried in order, so a
    name that contains "pepper" is always put under "Protein" or
    "Vegetables": the "pepper" of the seasonings test never decides, and
    nothing under "Seasonings & Spices" contains "pepper". *)
Theorem pepper_is_never_a_seasoning name :
  (includes "pepper" name = true ->
   categoryOf name = "Protein" \/ categoryOf name = "Vegetables") /\
  (categoryOf name = "Seasonings & Spices" -> includes "pepper" name = false).
Proof.
  assert (H : includes "pepper" name = true ->
              categoryOf name = "Protein" \/ categoryOf name = "Vegetables").
  { intros Hp. unfold categoryOf. rewrite Hp.
    destruct (includes "chicken" name || includes "beef" name || includes "pork" name ||
              includes "fish" name || includes "egg" name || includes "bacon" name);
      [now left |].
    rewrite orb_true_r. cbn [orb]. now right. }
  split; [exact H |].
  intros Hc. destruct (includes "pepper" name); [| reflexivity].
  destruct (H eq_refl) as [Hx | Hx]; rewrite Hx in Hc; discriminate Hc.
Qed.

Lemma pepper_is_never_a_seasoning_witness :
  categoryOf "black pepper" = "Protein" \/ categoryOf "black pepper" = "Vegetables".
Proof. apply (proj1 (pepper_is_never_a_seasoning "black pepper")). reflexivity. Defined.

Lemma categorizeLoop_total ings : forall cats0,
  Forall (fun x => exists s, ing_name x = VStr s) ings ->
  exists cats, categorizeLoop ings cats0 = Ok cats.
Proof.
  induction ings as [| x rest IH]; intros cats0 Hall.
  - eexists; reflexivity.
  - apply Forall_cons in Hall as [(s & Hs) Hrest].
    cbn [categorizeLoop]. rewrite Hs. cbn [lowerCaseOf bindR]. now apply IH.
Qed.

Lemma categorizeLoop_unnamed ings : forall cats0 x,
  In x ings -> ing_name x = VUndefined ->
  exists e, categorizeLoop ings cats0 = Throw e.
Proof.
  induction ings as [| y rest IH]; intros cats0 x Hin Hx; [destruct Hin |].
  cbn [categorizeLoop]. destruct Hin as [-> | Hin].
  - rewrite Hx. eexists; reflexivity.
  - destruct (lowerCaseOf (ing_name y)) as [name | e]; cbn [bindR].
    + now apply (IH _ x).
    + eexists; reflexivity.
Qed.

Lemma Forall2_In_left {A B} (R : A -> B -> Prop) l l' x :
  Forall2 R l l' -> In x l -> exists y, In y l' /\ R x y.
Proof.
  induction 1 as [| a b l l' Hab _ IH]; [intros [] |].
  intros [-> | Hin].
  - exists b. split; [now left | exact Hab].
  - destruct (IH Hin) as (y & Hy & Hxy). exists y. split; [now right | exact Hxy].
Qed.

(** X18. Every recipe the free adapter returns can be grouped by the
    client: [categorizeIngredients] returns on its ingredients. On a recipe
    of the premium adapter it throws as soon as one entry of
    [extendedIngredients] has no [name], since the adapter passes the
    missing name on. *)
Theorem free_recipe_always_categorizes :
  (forall rt name w rec,
     fst (fetchFromTheMealDB rt name w) = Ok rec ->
     exists cats, categorizeIngredients (r_ingredients rec) = Ok cats) /\
  (forall detail rec ings fs,
     spoonacularRecipe detail = Ok rec ->
     Js.getProp detail "extendedIngredients" = Ok (VArr ings) ->
     In (VObj fs) ings ->
     Js.assoc "name" fs = VUndefined ->
     exists e, categorizeIngredients (r_ingredients rec) = Throw e).
Proof.
  split.
  - intros rt name w rec H.
    apply fetchFromTheMealDB_first_meal in H. destruct H as [meal H].
    unfold mealRecipe in H. bindR_inv H. injection H as <-. cbn [r_ingredients].
    match goal with E : mealIngredients meal = Ok _ |- _ =>
      unfold mealIngredients in E; apply ingredientLoop_shape in E;
      destruct E as (l' & -> & _ & Hall)
    end.
    apply categorizeLoop_total. cbn [app].
    eapply Forall_impl; [exact Hall |].
    intros x (n & a & o & Hn & _). eauto.
  - intros detail rec ings fs H Hext Hin Hname.
    unfold spoonacularRecipe in H. bindR_inv H. injection H as <-. cbn [r_ingredients].
    injection Hext as ->.
    match goal with E : optMap _ _ spoonacularIngredient = Ok _ |- _ =>
      cbn [optMap] in E; apply mapR_Forall2 in E;
      destruct (Forall2_In_left _ _ _ _ E Hin) as (out & Hout & Hmap)
    end.
    apply (categorizeLoop_unnamed _ [] out Hout).
    apply spoonacularIngredient_fields in Hmap. destruct Hmap as (Hn & _).
    cbn [Js.getProp] in Hn. rewrite Hname in Hn. now injection Hn as <-.
Qed.

Lemma free_recipe_always_categorizes_witness :
  (exists cats, categorizeIngredients (r_ingredients chickenRecipe) = Ok cats) /\
  (exists e, categorizeIngredients
               (r_ingredients (mkRecipe VUndefined VUndefined VUndefined VUndefined VUndefined
                                 [mkIngredient VUndefined (VNum 2) VUndefined VUndefined]
                                 [] VNull)) = Throw e).
Proof.
  destruct free_recipe_always_categorizes as [H1 H2]. split.
  - apply (H1 noCredentials "Chicken Curry" emptyWorld). reflexivity.
  - apply (H2 (VObj [("extendedIngredients", VArr [VObj [("amount", VNum 2)]])]) _
              [VObj [("amount", VNum 2)]] [("amount", VNum 2)]).
    + reflexivity.
    + reflexivity.
    + now left.
    + reflexivity.
Defined.

(** ** The client: searching *)

(** X19. [getIngredients] leaves the text and the selected source as they
    are. On a blank text it changes nothing and only shows the request to
    enter a dish name. Otherwise it calls the function exactly once, with the
    trimmed text and the selected source, and ends with the loading flag
    off; the recipe on display is replaced only by the [data] of a reply
    without error whose [success] is truthy, with a "Recipe found!" toast,
    and in every other case it stays, with a destructive toast that has a
    non-empty description. *)
Theorem getIngredients_outcomes crt st :
  let st' := fst (getIngredients crt st) in
  let evs := snd (getIngredients crt st) in
  let body := mkRequest (Some (Js.trim (c_dishName st))) (Some (c_apiSource st)) in
  c_dishName st' = c_dishName st /\ c_apiSource st' = c_apiSource st /\
  (Js.trim (c_dishName st) = "" ->
     st' = st /\
     evs = [CvToast "Please enter a dish name"
              "Enter the name of the dish to get its ingredients" true]) /\
  (Js.trim (c_dishName st) <> "" ->
     c_isLoading st' = false /\
     exists rest,
       evs = CvInvoke body :: rest /\ Forall (fun e => ~ isInvoke e) rest /\
       ((c_recipe st' = c_recipe st /\
         exists msg desc,
           rest = [CvConsoleError msg; CvToast "Failed to fetch recipe" desc true] /\
           desc <> "") \/
        (exists data success desc,
           invoke crt body = Ok (data, None) /\
           Js.getProp data "success" = Ok success /\ Js.truthy success = true /\
           Js.getProp data "data" = Ok (c_recipe st') /\
           rest = [CvToast "Recipe found!" desc false]))).
Proof.
  intros st' evs body. subst st' evs. unfold getIngredients.
  destruct (String.eqb_spec (Js.trim (c_dishName st)) "") as [Hblank | Hname].
  { cbn [fst snd]. split; [reflexivity |]. split; [reflexivity |].
    split; [intros _; split; reflexivity | intros Hn; contradiction]. }
  fold body.
  assert (Hfail : forall error,
            (if String.eqb (message error) ""
             then "Please try again or use a different API source"
             else message error) <> "").
  { intros error. destruct (String.eqb_spec (message error) ""); [discriminate | assumption]. }
  destruct (getIngredientsTry crt st) as [[recipe toast] | error] eqn:Htry; cbn [fst snd].
  - split; [reflexivity |]. split; [reflexivity |]. split; [intros H; contradiction |].
    intros _. split; [reflexivity |].
    unfold getIngredientsTry in Htry. fold body in Htry.
    destruct (invoke crt body) as [[data [msg |]] |] eqn:Hinv; cbn [bindR] in Htry;
      try discriminate Htry.
    destruct (Js.getProp data "success") as [success |] eqn:Hsuccess; cbn [bindR] in Htry;
      [| discriminate Htry].
    destruct (Js.truthy success) eqn:Htruthy; cbn [negb] in Htry.
    2: { destruct (Js.getProp data "error"); cbn [bindR] in Htry; [| discriminate Htry].
         destruct (toText _ _); discriminate Htry. }
    destruct (Js.getProp data "data") as [shown |] eqn:Hdata; cbn [bindR] in Htry;
      [| discriminate Htry].
    injection Htry as <- <-.
    eexists. split; [reflexivity |].
    split; [constructor; [intros [] | constructor] |].
    right. exists data, success. eexists. repeat split; try assumption; reflexivity.
  - split; [reflexivity |]. split; [reflexivity |]. split; [intros H; contradiction |].
    intros _. split; [reflexivity |].
    eexists. split; [reflexivity |].
    split; [repeat constructor; intros [] |].
    left. split; [reflexivity |]. do 2 eexists. split; [reflexivity | apply Hfail].
Qed.

Lemma getIngredients_outcomes_witness :
  getIngredients clientOnline typedCurry =
    (mkClientState "  Chicken Curry " "themealdb" (VObj [("title", VStr "Chicken Curry")]) false,
     [CvInvoke (mkRequest (Some "Chicken Curry") (Some "themealdb"));
      CvToast "Recipe found!" "Found ingredients for   Chicken Curry  from TheMealDB" false]) /\
  c_recipe (fst (getIngredients clientDown typedCurry)) = VObj [("title", VStr "Soup")] /\
  c_isLoading (fst (getIngredients clientDown typedCurry)) = false.
Proof.
  split; [reflexivity |].
  destruct (getIngredients_outcomes clientDown typedCurry) as (_ & _ & _ & H).
  destruct (H ltac:(discriminate)) as (Hload & _).
  split; [reflexivity | exact Hload].
Defined.

Lemma toLowerCase_empty s : Js.toLowerCase s = "" -> s = "".
Proof. destruct s; [reflexivity | discriminate]. Qed.

Lemma handle_reads_cache_first rt req w name :
  dishName req = Some name -> name <> "" ->
  exists evs,
    trace (snd (handle rt req w)) =
      (trace w ++ EvCacheSelect (cacheKeyOf name) (sourceOf req) (nowAtLookup rt) :: evs)%list.
Proof.
  intros Hname Hne.
  destruct (liveRow (recipe_cache w) (cacheKeyOf name) (sourceOf req) (nowAtLookup rt))
    as [row |] eqn:Hrow.
  { rewrite (handle_hit rt req w _ row Hname Hne Hrow). eexists. reflexivity. }
  destruct (adapterNamed (sourceOf req)) as [adapter |] eqn:Had.
  - destruct (adapterNamed_fetches _ _ rt name Had) as (r & evs & _ & Hrun).
    destruct r as [rec | e].
    + rewrite (handle_adapter_returns rt req w name adapter rec evs) by assumption.
      cbn [snd]. rewrite storeRecipe_trace. unfold cacheUpsert, appendTrace. simpl.
      rewrite <- !app_assoc. eexists. reflexivity.
    + rewrite (handle_adapter_throws rt req w name adapter e evs) by assumption.
      eexists. reflexivity.
  - rewrite (handle_unknown_source rt req w _ Hname Hne Hrow Had). eexists. reflexivity.
Qed.

(** X20. Whatever is typed, a request this client sends to the function
    carries a dish name that is trimmed and not empty, and the selected
    source. The handler therefore never rejects it for its dish name: it
    always reads the cache first, under the lower-case of that name, a key
    that is not empty. *)
Theorem client_request_is_valid crt st body :
  In (CvInvoke body) (snd (getIngredients crt st)) ->
  exists name,
    dishName body = Some name /\ apiSource body = Some (c_apiSource st) /\
    name <> "" /\ Js.trim name = name /\
    cacheKeyOf name = Js.toLowerCase name /\ cacheKeyOf name <> "" /\
    forall rt w, exists evs,
      trace (snd (handle rt body w)) =
        (trace w ++ EvCacheSelect (Js.toLowerCase name) (c_apiSource st) (nowAtLookup rt)
                 :: evs)%list.
Proof.
  unfold getIngredients.
  destruct (String.eqb_spec (Js.trim (c_dishName st)) "") as [Hblank | Hname].
  { cbn [snd]. intros [H | []]. discriminate H. }
  intros Hin.
  assert (Hbody : body = mkRequest (Some (Js.trim (c_dishName st))) (Some (c_apiSource st))).
  { destruct (getIngredientsTry crt st) as [[recipe toast] | error] eqn:Htry;
      cbn [snd] in Hin.
    - destruct Hin as [H | [H | []]]; [now injection H as <- |].
      unfold getIngredientsTry in Htry.
      destruct (invoke crt _) as [[data [msg |]] |]; cbn [bindR] in Htry;
        try discriminate Htry.
      destruct (Js.getProp data "success") as [success |]; cbn [bindR] in Htry;
        [| discriminate Htry].
      destruct (negb (Js.truthy success)).
      + destruct (Js.getProp data "error"); cbn [bindR] in Htry; [| discriminate Htry].
        destruct (toText _ _); discriminate Htry.
      + destruct (Js.getProp data "data"); cbn [bindR] in Htry; [| discriminate Htry].
        injection Htry as _ <-. discriminate H.
    - destruct Hin as [H | [H | [H | []]]]; [now injection H as <- | |]; discriminate H. }
  subst body. exists (Js.trim (c_dishName st)).
  assert (Hkey : cacheKeyOf (Js.trim (c_dishName st)) = Js.toLowerCase (Js.trim (c_dishName st))).
  { unfold cacheKeyOf. now rewrite <- toLowerCase_trim, trim_idem. }
  split; [reflexivity |]. split; [reflexivity |]. split; [exact Hname |].
  split; [apply trim_idem |]. split; [exact Hkey |]. split.
  - rewrite Hkey. intros H. now apply toLowerCase_empty in H.
  - intros rt w. rewrite <- Hkey.
    apply (handle_reads_cache_first rt
             (mkRequest (Some (Js.trim (c_dishName st))) (Some (c_apiSource st)))
             w (Js.trim (c_dishName st)) eq_refl Hname).
Qed.

Lemma client_request_is_valid_witness :
  exists evs,
    trace (snd (handle noCredentials
                  (mkRequest (Some "Chicken Curry") (Some "themealdb")) emptyWorld)) =
      EvCacheSelect "chicken curry" "themealdb" 1000 :: evs.
Proof.
  destruct (client_request_is_valid clientOnline typedCurry
              (mkRequest (Some "Chicken Curry") (Some "themealdb"))
              ltac:(left; reflexivity))
    as (name & Hname & _ & _ & _ & _ & _ & H).
  injection Hname as <-.
  exact (H noCredentials emptyWorld).
Defined.

(** ** The client: the PDF *)

Lemma bodyBlocks_app ops1 ops2 :
  bodyBlocks (ops1 ++ ops2) = (bodyBlocks ops1 ++ bodyBlocks ops2)%list.
Proof.
  induction ops1 as [| op ops1 IH]; [reflexivity |].
  destruct op; cbn [app bodyBlocks]; now rewrite IH.
Qed.

Lemma drawIngredients_spec prt ings : forall y,
  20 <= y <= 270 ->
  20 <= snd (drawIngredients prt ings y) <= 270 /\
  Forall onPage (fst (drawIngredients prt ings y)) /\
  Forall (fun op => ~ isSave op) (fst (drawIngredients prt ings y)) /\
  bodyBlocks (fst (drawIngredients prt ings y)) =
    map (fun i => splitTextToSize prt (ingredientText prt i)) ings.
Proof.
  induction ings as [| i rest IH]; intros y Hy.
  - cbn. repeat split; try lia; constructor.
  - cbn [drawIngredients].
    set (n := Z.of_nat (List.length (splitTextToSize prt (ingredientText prt i)))).
    assert (Hn : 0 <= n) by (subst n; lia).
    destruct (Z.ltb_spec 270 (y + n * 6 + 2)) as [Hbig | Hsmall].
    + destruct (IH 20 ltac:(lia)) as (Hy' & Hon & Hns & Hbl).
      destruct (drawIngredients prt rest 20) as [ops yEnd]. cbn [fst snd] in *.
      split; [exact Hy' |]. split; [| split].
      * constructor; [cbn; lia |]. constructor; [exact I | exact Hon].
      * constructor; [intros [] |]. constructor; [intros [] | exact Hns].
      * cbn [app bodyBlocks map]. now rewrite Hbl.
    + destruct (IH (y + n * 6 + 2) ltac:(lia)) as (Hy' & Hon & Hns & Hbl).
      destruct (drawIngredients prt rest (y + n * 6 + 2)) as [ops yEnd]. cbn [fst snd] in *.
      split; [exact Hy' |]. split; [| split].
      * constructor; [cbn; lia | exact Hon].
      * constructor; [intros [] | exact Hns].
      * cbn [app bodyBlocks map]. now rewrite Hbl.
Qed.

Lemma drawInstructions_spec prt steps : forall y,
  20 <= y <= 270 ->
  Forall onPage (fst (drawInstructions prt steps y)) /\
  Forall (fun op => ~ isSave op) (fst (drawInstructions prt steps y)) /\
  bodyBlocks (fst (drawInstructions prt steps y)) =
    map (fun st => splitTextToSize prt (instructionText prt st)) steps.
Proof.
  induction steps as [| st rest IH]; intros y Hy.
  - cbn. repeat split; constructor.
  - cbn [drawInstructions].
    set (n := Z.of_nat (List.length (splitTextToSize prt (instructionText prt st)))).
    assert (Hn : 0 <= n) by (subst n; lia).
    destruct (Z.ltb_spec 270 (y + n * 6 + 4)) as [Hbig | Hsmall].
    + destruct (IH 20 ltac:(lia)) as (Hon & Hns & Hbl).
      destruct (drawInstructions prt rest 20) as [ops yEnd]. cbn [fst snd] in *.
      split; [| split].
      * constructor; [cbn; lia |]. constructor; [exact I | exact Hon].
      * constructor; [intros [] |]. constructor; [intros [] | exact Hns].
      * cbn [app bodyBlocks map]. now rewrite Hbl.
    + destruct (IH (y + n * 6 + 4) ltac:(lia)) as (Hon & Hns & Hbl).
      destruct (drawInstructions prt rest (y + n * 6 + 4)) as [ops yEnd]. cbn [fst snd] in *.
      split; [| split].
      * constructor; [cbn; lia | exact Hon].
      * constructor; [intros [] | exact Hns].
      * cbn [app bodyBlocks map]. now rewrite Hbl.
Qed.

(** X21. [downloadPDF] makes no document without a recipe or without
    ingredients. Otherwise every heading and the footer start at the left
    margin between y = 20 and y = 280 and every block of body text starts at
    x = 25 between y = 20 and y = 270, however many lines the blocks have;
    the blocks are the ingredients, one each and in order, followed by the
    instructions, one each and in order; and the document is saved once, as
    the last call, under the file name of the title. *)
Theorem downloadPDF_layout prt :
  fst (downloadPDF prt None) = [] /\
  (forall recipe, cr_ingredients recipe = [] -> fst (downloadPDF prt (Some recipe)) = []) /\
  (forall recipe,
     cr_ingredients recipe <> [] ->
     let ops := fst (downloadPDF prt (Some recipe)) in
     Forall onPage ops /\
     bodyBlocks ops =
       (map (fun i => splitTextToSize prt (ingredientText prt i)) (cr_ingredients recipe) ++
        map (fun st => splitTextToSize prt (instructionText prt st))
            (match cr_instructions recipe with Some steps => steps | None => [] end))%list /\
     exists drawing,
       ops = (drawing ++ [PdfSave (pdfFileName (cr_title recipe))])%list /\
       Forall (fun op => ~ isSave op) drawing).
Proof.
  split; [reflexivity |]. split.
  { intros recipe H. unfold downloadPDF. now rewrite H. }
  intros recipe Hne ops. subst ops. unfold downloadPDF.
  destruct (cr_ingredients recipe) as [| i0 rest] eqn:Hings; [contradiction |].
  destruct (drawIngredients_spec prt (i0 :: rest) (70 + 15) ltac:(lia))
    as (Hy1 & Hon1 & Hns1 & Hbl1).
  destruct (drawIngredients prt (i0 :: rest) (70 + 15)) as [ingOps y1].
  cbn [fst snd] in Hy1, Hon1, Hns1, Hbl1.
  set (instrOps :=
         match cr_instructions recipe with
         | Some (step :: steps) =>
             let y2 := y1 + 10 in
             let (page, y3) := if 250 <? y2 then ([PdfAddPage], 20) else ([], y2) in
             (page ++
              [PdfFontSize 16; PdfTextColor 46 125 50; PdfLine "Instructions:" 20 y3;
               PdfFontSize 11; PdfTextColor 60 60 60] ++
              fst (drawInstructions prt (step :: steps) (y3 + 15)))%list
         | _ => []
         end).
  assert (Hinstr : Forall onPage instrOps /\ Forall (fun op => ~ isSave op) instrOps /\
                   bodyBlocks instrOps =
                     map (fun st => splitTextToSize prt (instructionText prt st))
                         (match cr_instructions recipe with Some steps => steps | None => [] end)).
  { subst instrOps. destruct (cr_instructions recipe) as [[| st steps] |];
      try (repeat split; constructor).
    cbv zeta.
    destruct (Z.ltb_spec 250 (y1 + 10)) as [Hbig | Hsmall].
    - destruct (drawInstructions_spec prt (st :: steps) (20 + 15) ltac:(lia))
        as (Hon & Hns & Hbl).
      split; [| split].
      + constructor; [exact I |]. repeat (constructor; [cbn; try lia; exact I |]).
        exact Hon.
      + repeat (constructor; [intros [] |]). exact Hns.
      + cbn [app bodyBlocks]. exact Hbl.
    - destruct (drawInstructions_spec prt (st :: steps) (y1 + 10 + 15) ltac:(lia))
        as (Hon & Hns & Hbl).
      split; [| split].
      + cbn [app]. repeat (constructor; [cbn; try lia; exact I |]). exact Hon.
      + cbn [app]. repeat (constructor; [intros [] |]). exact Hns.
      + cbn [app bodyBlocks]. exact Hbl. }
  destruct Hinstr as (Hon2 & Hns2 & Hbl2).
  cbn [fst].
  set (info := if someNumber (cr_servings recipe) || someNumber (cr_readyInMinutes recipe)
               then [PdfLine (infoText prt recipe) 20 50] else []).
  assert (Hinfo : Forall onPage info /\ Forall (fun op => ~ isSave op) info /\
                  bodyBlocks info = []).
  { subst info. destruct (_ || _); repeat split; repeat constructor; try lia; intros []. }
  destruct Hinfo as (Hon0 & Hns0 & Hbl0).
  split; [| split].
  - repeat (apply Forall_app; split); try assumption;
      repeat (constructor; [cbn; try lia; exact I |]); constructor.
  - rewrite !bodyBlocks_app, Hbl0, Hbl1, Hbl2. cbn [bodyBlocks app].
    now rewrite app_nil_r.
  - eexists. split.
    + rewrite !app_assoc. reflexivity.
    + repeat (apply Forall_app; split); try assumption;
        repeat (constructor; [intros [] |]); constructor.
Qed.

Lemma downloadPDF_layout_witness :
  cr_ingredients feast <> [] /\
  Forall onPage (fst (downloadPDF samplePdf (Some feast))) /\
  In PdfAddPage (fst (downloadPDF samplePdf (Some feast))).
Proof.
  assert (Hne : cr_ingredients feast <> []) by (cbn; discriminate).
  split; [exact Hne |]. split.
  - destruct (downloadPDF_layout samplePdf) as (_ & _ & H).
    exact (proj1 (H feast Hne)).
  - vm_compute. do 36 right. left. reflexivity.
Defined.

Lemma append_assoc (a b c : string) : (a ++ b) ++ c = a ++ (b ++ c).
Proof.
  induction a as [| x a IH]; [reflexivity |].
  change ((String x a ++ b) ++ c) with (String x ((a ++ b) ++ c)).
  now rewrite IH.
Qed.

Lemma whiteFree_noWhite s : whiteFree s = noWhite s.
Proof.
  induction s as [| c s IH]; [reflexivity |].
  cbn [whiteFree noWhite]. now rewrite whiteCode_isWhite, IH.
Qed.

Lemma whiteFree_app a b : whiteFree (a ++ b) = whiteFree a && whiteFree b.
Proof.
  induction a as [| c a IH]; [reflexivity |].
  change (String c a ++ b) with (String c (a ++ b)).
  cbn [whiteFree]. rewrite IH. now rewrite andb_assoc.
Qed.

Lemma whiteFree_toLowerCase s : whiteFree (Js.toLowerCase s) = whiteFree s.
Proof.
  induction s as [| c s IH]; [reflexivity |].
  cbn [Js.toLowerCase whiteFree]. now rewrite isWhite_lowerChar, IH.
Qed.

Lemma whiteFree_dashesFrom s : forall inRun, whiteFree (dashesFrom inRun s) = true.
Proof.
  induction s as [| c s IH]; intros inRun; [reflexivity |].
  cbn [dashesFrom]. destruct (Js.isWhite c) eqn:Hc.
  - destruct inRun; [apply IH |]. cbn [whiteFree]. rewrite IH. reflexivity.
  - cbn [whiteFree]. rewrite Hc, IH. reflexivity.
Qed.

Lemma noCapital_app a b : noCapital (a ++ b) = noCapital a && noCapital b.
Proof.
  induction a as [| c a IH]; [reflexivity |].
  change (String c a ++ b) with (String c (a ++ b)).
  cbn [noCapital]. rewrite IH. now rewrite andb_assoc.
Qed.

Lemma toLowerCase_noCapital s : noCapital s = true -> Js.toLowerCase s = s.
Proof.
  induction s as [| c s IH]; [reflexivity |].
  cbn [noCapital Js.toLowerCase]. intros H. apply andb_prop in H as [Hc Hs].
  rewrite (IH Hs), capital_lowerChar. now destruct (capital c).
Qed.

Lemma dashesFrom_toLowerCase s : forall inRun,
  dashesFrom inRun (Js.toLowerCase s) = Js.toLowerCase (dashesFrom inRun s).
Proof.
  induction s as [| c s IH]; intros inRun; [reflexivity |].
  cbn [Js.toLowerCase dashesFrom]. rewrite isWhite_lowerChar.
  destruct (Js.isWhite c).
  - destruct inRun; [apply IH |]. cbn [Js.toLowerCase]. now rewrite IH.
  - cbn [Js.toLowerCase]. now rewrite IH.
Qed.

Lemma dashesFrom_run a w1 w2 b : forall inRun,
  Js.isWhite w1 = true -> Js.isWhite w2 = true ->
  dashesFrom inRun (a ++ String w1 (String w2 b)) = dashesFrom inRun (a ++ String w1 b).
Proof.
  intros inRun H1 H2. revert inRun.
  induction a as [| c a IH]; intros inRun.
  - change ("" ++ String w1 (String w2 b)) with (String w1 (String w2 b)).
    change ("" ++ String w1 b) with (String w1 b).
    cbn [dashesFrom]. rewrite H1, H2. destruct inRun; reflexivity.
  - change (String c a ++ String w1 (String w2 b))
      with (String c (a ++ String w1 (String w2 b))).
    change (String c a ++ String w1 b) with (String c (a ++ String w1 b)).
    cbn [dashesFrom]. destruct (Js.isWhite c).
    + destruct inRun; now rewrite IH.
    + now rewrite IH.
Qed.

(** Text without white space is copied. *)
Lemma dashesFrom_noWhite a s :
  noWhite a = true -> dashesFrom false (a ++ s) = a ++ dashesFrom false s.
Proof.
  induction a as [| c a IH]; [reflexivity |].
  cbn [noWhite]. intros H. apply andb_prop in H as [Hc Ha].
  change (String c a ++ s) with (String c (a ++ s)).
  cbn [dashesFrom]. rewrite <- whiteCode_isWhite.
  destruct (whiteCode c); [discriminate Hc |].
  now rewrite (IH Ha).
Qed.

(** Inside a run, more white space adds nothing. *)
Lemma dashesFrom_blank p s : blank p = true -> dashesFrom true (p ++ s) = dashesFrom true s.
Proof.
  induction p as [| c p IH]; [reflexivity |].
  cbn [blank]. intros H. apply andb_prop in H as [Hc Hp].
  change (String c p ++ s) with (String c (p ++ s)).
  cbn [dashesFrom]. rewrite <- whiteCode_isWhite, Hc. now apply IH.
Qed.

Lemma dashesFrom_clean b : forall inRun, noWhite b = true -> dashesFrom inRun b = b.
Proof.
  induction b as [| c b IH]; intros inRun; [reflexivity |].
  cbn [noWhite]. intros H. apply andb_prop in H as [Hc Hb].
  cbn [dashesFrom]. rewrite <- whiteCode_isWhite.
  destruct (whiteCode c); [discriminate Hc |].
  now rewrite (IH false Hb).
Qed.

(** X22. The file name under which the PDF is saved is the title with
    every run of white space (U+0009 to U+000D, U+0020, U+00A0) replaced by
    one dash and every capital letter made small, followed by "-recipe.pdf":
    it has no white space and no capital letter; titles that are the same up
    to the case of their letters, or that differ in the length of a run of
    white space, are saved under the same name; and two texts without white
    space and capital letters, with white space between them, come out
    joined by one dash. *)
Theorem pdfFileName_clean title :
  noWhite (pdfFileName title) = true /\
  noCapital (pdfFileName title) = true /\
  (exists stem, pdfFileName title = stem ++ "-recipe.pdf") /\
  (forall title', sameUpToCase title title' = true -> pdfFileName title' = pdfFileName title) /\
  (forall a w1 w2 b,
     title = a ++ String w1 (String w2 b) ->
     whiteCode w1 = true -> whiteCode w2 = true ->
     pdfFileName (a ++ String w1 b) = pdfFileName title) /\
  (forall a w p b,
     title = a ++ String w p ++ b ->
     noWhite a = true -> noCapital a = true ->
     whiteCode w = true -> blank p = true ->
     noWhite b = true -> noCapital b = true ->
     pdfFileName title = a ++ "-" ++ b ++ "-recipe.pdf").
Proof.
  unfold pdfFileName. split; [| split; [| split; [| split; [| split]]]].
  - rewrite <- whiteFree_noWhite.
    rewrite whiteFree_app, whiteFree_toLowerCase, whiteFree_dashesFrom. reflexivity.
  - rewrite noCapital_app, noCapital_toLowerCase. reflexivity.
  - eexists. reflexivity.
  - intros title' Hsame. apply sameUpToCase_toLowerCase in Hsame.
    rewrite <- !dashesFrom_toLowerCase. now rewrite Hsame.
  - intros a w1 w2 b -> H1 H2. rewrite !whiteCode_isWhite in *.
    now rewrite dashesFrom_run.
  - intros a w p b -> Ha Hca Hw Hp Hb Hcb.
    rewrite (dashesFrom_noWhite a _ Ha).
    change (String w p ++ b) with (String w (p ++ b)).
    cbn [dashesFrom]. rewrite <- whiteCode_isWhite, Hw.
    rewrite (dashesFrom_blank p b Hp), (dashesFrom_clean b true Hb).
    rewrite (toLowerCase_noCapital (a ++ String "-" b)).
    + now rewrite append_assoc.
    + rewrite noCapital_app, Hca. cbn [noCapital andb]. now rewrite Hcb.
Qed.

Lemma pdfFileName_clean_witness :
  pdfFileName (cr_title feast) = "harvest-feast-recipe.pdf" /\
  pdfFileName (cremeSmall whitePad) = cremeSmall "-" ++ "-recipe.pdf" /\
  pdfFileName (cremeShouted whitePad) = cremeSmall "-" ++ "-recipe.pdf".
Proof.
  pose proof (proj2 (proj2 (proj2 (proj2 (proj2 (pdfFileName_clean (cremeSmall whitePad))))))
                ("cr" ++ String "232" "me") "009"%char (String "160" (String "010" ""))
                ("br" ++ String "251" "l" ++ String "233" "e")
                eq_refl eq_refl eq_refl eq_refl eq_refl eq_refl eq_refl) as Hsmall.
  split; [reflexivity |]. split; [exact Hsmall |].
  etransitivity; [| exact Hsmall].
  apply (proj1 (proj2 (proj2 (proj2 (pdfFileName_clean (cremeSmall whitePad)))))).
  reflexivity.
Defined.
